(** * The canvas renderer of ghostty-web (src/lib/renderer.ts)

    A shallow embedding of the terminal renderer: the glyph classifier, the
    procedural glyph engine, the two-pass cell painter and the frame
    orchestrator [render], written as state-passing code over the renderer
    object and the trace of calls it makes on the 2D context. *)

From Stdlib Require Import ZArith QArith Qround Qminmax Lia Lqa String.
From stdpp Require Import base gmap list.

Local Open Scope Z_scope.

(** ** JavaScript numbers

    Grid indices, codepoints, flag words and font metrics are integers and
    are kept in [Z].  Pixel coordinates, the device pixel ratio, the
    viewport offset and opacities may be fractional; they are rationals,
    kept in lowest terms so that equal numbers are equal terms.  Division
    is only used where the source divides by a nonzero number. *)

Module JS.

Definition add (a b : Q) : Q := Qred (a + b).
Definition sub (a b : Q) : Q := Qred (a - b).
Definition mul (a b : Q) : Q := Qred (a * b).
Definition div (a b : Q) : Q := Qred (a / b).
Definition ofZ (z : Z) : Q := inject_Z z.

Definition ltb (a b : Q) : bool := negb (Qle_bool b a).
Definition leb (a b : Q) : bool := Qle_bool a b.
Definition eqb (a b : Q) : bool := Qeq_bool a b.

(** [Math.floor], [Math.ceil], [Math.round] (halves round up),
    [Math.max] and [Math.min]. *)
Definition floor (a : Q) : Z := Qfloor a.
Definition ceil (a : Q) : Z := Qceiling a.
Definition round (a : Q) : Z := Qfloor (a + (1 # 2)).
Definition max (a b : Q) : Q := if ltb a b then b else a.
Definition min (a b : Q) : Q := if ltb b a then b else a.

End JS.

Declare Scope js_scope.
Delimit Scope js_scope with js.
Arguments JS.add (a b)%_js.
Arguments JS.sub (a b)%_js.
Arguments JS.mul (a b)%_js.
Arguments JS.div (a b)%_js.
Arguments JS.ltb (a b)%_js.
Arguments JS.leb (a b)%_js.
Arguments JS.eqb (a b)%_js.
Arguments JS.max (a b)%_js.
Arguments JS.min (a b)%_js.
Arguments JS.floor a%_js.
Arguments JS.ceil a%_js.
Arguments JS.round a%_js.
Notation "a + b" := (JS.add a b) : js_scope.
Notation "a - b" := (JS.sub a b) : js_scope.
Notation "a * b" := (JS.mul a b) : js_scope.
Notation "a / b" := (JS.div a b) : js_scope.
Notation "a <? b" := (JS.ltb a b) : js_scope.
Notation "a <=? b" := (JS.leb a b) : js_scope.
Notation "a =? b" := (JS.eqb a b) : js_scope.

(** ** Glyph classifier (renderer.ts, lines 18-663) *)

Definition isBoxDrawingChar (codepoint : Z) : bool :=
  (0x2500 <=? codepoint) && (codepoint <=? 0x257f).

Inductive LineStyle := none | light | heavy | double.

#[global] Instance LineStyle_eq_dec : EqDecision LineStyle.
Proof. solve_decision. Defined.

Record BoxLines := mkBoxLines {
  up : LineStyle; right : LineStyle; down : LineStyle; left : LineStyle
}.

Definition BOX_DRAWING_ENTRIES : list (Z * BoxLines) := [
  (* Phase 1: light lines *)
  (0x2500, mkBoxLines none light none light);
  (0x2502, mkBoxLines light none light none);
  (0x250c, mkBoxLines none light light none);
  (0x2510, mkBoxLines none none light light);
  (0x2514, mkBoxLines light light none none);
  (0x2518, mkBoxLines light none none light);
  (0x251c, mkBoxLines light light light none);
  (0x2524, mkBoxLines light none light light);
  (0x252c, mkBoxLines none light light light);
  (0x2534, mkBoxLines light light none light);
  (0x253c, mkBoxLines light light light light);
  (* Phase 2: heavy lines *)
  (0x2501, mkBoxLines none heavy none heavy);
  (0x2503, mkBoxLines heavy none heavy none);
  (0x250f, mkBoxLines none heavy heavy none);
  (0x2513, mkBoxLines none none heavy heavy);
  (0x2517, mkBoxLines heavy heavy none none);
  (0x251b, mkBoxLines heavy none none heavy);
  (0x2523, mkBoxLines heavy heavy heavy none);
  (0x252b, mkBoxLines heavy none heavy heavy);
  (0x2533, mkBoxLines none heavy heavy heavy);
  (0x253b, mkBoxLines heavy heavy none heavy);
  (0x254b, mkBoxLines heavy heavy heavy heavy);
  (* Phase 3: double lines *)
  (0x2550, mkBoxLines none double none double);
  (0x2551, mkBoxLines double none double none);
  (0x2554, mkBoxLines none double double none);
  (0x2557, mkBoxLines none none double double);
  (0x255a, mkBoxLines double double none none);
  (0x255d, mkBoxLines double none none double);
  (0x2560, mkBoxLines double double double none);
  (0x2563, mkBoxLines double none double double);
  (0x2566, mkBoxLines none double double double);
  (0x2569, mkBoxLines double double none double);
  (0x256c, mkBoxLines double double double double);
  (* Mixed light/heavy *)
  (0x250d, mkBoxLines none heavy light none);
  (0x250e, mkBoxLines none light heavy none);
  (0x2511, mkBoxLines none none light heavy);
  (0x2512, mkBoxLines none none heavy light);
  (0x2515, mkBoxLines light heavy none none);
  (0x2516, mkBoxLines heavy light none none);
  (0x2519, mkBoxLines light none none heavy);
  (0x251a, mkBoxLines heavy none none light);
  (* T-junctions with mixed weights *)
  (0x251d, mkBoxLines light heavy light none);
  (0x251e, mkBoxLines heavy light light none);
  (0x251f, mkBoxLines light light heavy none);
  (0x2520, mkBoxLines heavy light heavy none);
  (0x2521, mkBoxLines heavy heavy light none);
  (0x2522, mkBoxLines light heavy heavy none);
  (0x2525, mkBoxLines light none light heavy);
  (0x2526, mkBoxLines heavy none light light);
  (0x2527, mkBoxLines light none heavy light);
  (0x2528, mkBoxLines heavy none heavy light);
  (0x2529, mkBoxLines heavy none light heavy);
  (0x252a, mkBoxLines light none heavy heavy);
  (0x252d, mkBoxLines none light light heavy);
  (0x252e, mkBoxLines none heavy light light);
  (0x252f, mkBoxLines none heavy light heavy);
  (0x2530, mkBoxLines none light heavy light);
  (0x2531, mkBoxLines none light heavy heavy);
  (0x2532, mkBoxLines none heavy heavy light);
  (0x2535, mkBoxLines light light none heavy);
  (0x2536, mkBoxLines light heavy none light);
  (0x2537, mkBoxLines light heavy none heavy);
  (0x2538, mkBoxLines heavy light none light);
  (0x2539, mkBoxLines heavy light none heavy);
  (0x253a, mkBoxLines heavy heavy none light);
  (* Cross junctions with mixed weights *)
  (0x253d, mkBoxLines light light light heavy);
  (0x253e, mkBoxLines light heavy light light);
  (0x253f, mkBoxLines light heavy light heavy);
  (0x2540, mkBoxLines heavy light light light);
  (0x2541, mkBoxLines light light heavy light);
  (0x2542, mkBoxLines heavy light heavy light);
  (0x2543, mkBoxLines heavy light light heavy);
  (0x2544, mkBoxLines heavy heavy light light);
  (0x2545, mkBoxLines light light heavy heavy);
  (0x2546, mkBoxLines light heavy heavy light);
  (0x2547, mkBoxLines heavy heavy light heavy);
  (0x2548, mkBoxLines light heavy heavy heavy);
  (0x2549, mkBoxLines heavy light heavy heavy);
  (0x254a, mkBoxLines heavy heavy heavy light);
  (* Mixed double/light *)
  (0x2552, mkBoxLines none double light none);
  (0x2553, mkBoxLines none light double none);
  (0x2555, mkBoxLines none none light double);
  (0x2556, mkBoxLines none none double light);
  (0x2558, mkBoxLines light double none none);
  (0x2559, mkBoxLines double light none none);
  (0x255b, mkBoxLines light none none double);
  (0x255c, mkBoxLines double none none light);
  (0x255e, mkBoxLines light double light none);
  (0x255f, mkBoxLines double light double none);
  (0x2561, mkBoxLines light none light double);
  (0x2562, mkBoxLines double none double light);
  (0x2564, mkBoxLines none double light double);
  (0x2565, mkBoxLines none light double light);
  (0x2567, mkBoxLines light double none double);
  (0x2568, mkBoxLines double light none light);
  (0x256a, mkBoxLines light double light double);
  (0x256b, mkBoxLines double light double light);
  (* Dashed lines (Phase 4) *)
  (0x2504, mkBoxLines none light none light);
  (0x2505, mkBoxLines none heavy none heavy);
  (0x2506, mkBoxLines light none light none);
  (0x2507, mkBoxLines heavy none heavy none);
  (0x2508, mkBoxLines none light none light);
  (0x2509, mkBoxLines none heavy none heavy);
  (0x250a, mkBoxLines light none light none);
  (0x250b, mkBoxLines heavy none heavy none);
  (0x254c, mkBoxLines none light none light);
  (0x254d, mkBoxLines none heavy none heavy);
  (0x254e, mkBoxLines light none light none);
  (0x254f, mkBoxLines heavy none heavy none);
  (* Rounded corners (Phase 4) - treat as light lines *)
  (0x256d, mkBoxLines none light light none);
  (0x256e, mkBoxLines none none light light);
  (0x256f, mkBoxLines light none none light);
  (0x2570, mkBoxLines light light none none);
  (* Half lines *)
  (0x2574, mkBoxLines none none none light);
  (0x2575, mkBoxLines light none none none);
  (0x2576, mkBoxLines none light none none);
  (0x2577, mkBoxLines none none light none);
  (0x2578, mkBoxLines none none none heavy);
  (0x2579, mkBoxLines heavy none none none);
  (0x257a, mkBoxLines none heavy none none);
  (0x257b, mkBoxLines none none heavy none);
  (0x257c, mkBoxLines none heavy none light);
  (0x257d, mkBoxLines light none heavy none);
  (0x257e, mkBoxLines none light none heavy);
  (0x257f, mkBoxLines heavy none light none)
].

(** The object literal [BOX_DRAWING_MAP], a map from codepoints. *)
Definition BOX_DRAWING_MAP : gmap Z BoxLines :=
  Eval vm_compute in list_to_map BOX_DRAWING_ENTRIES.

Definition getBoxLines (codepoint : Z) : option BoxLines :=
  BOX_DRAWING_MAP !! codepoint.

Definition isBlockElement (codepoint : Z) : bool :=
  (0x2580 <=? codepoint) && (codepoint <=? 0x259f).

Inductive BlockType :=
| full
| upper (eighths : Z)
| lower (eighths : Z)
| left_block (eighths : Z)
| right_block (eighths : Z)
| quadrants (tl tr bl br : bool)
| shade (density : Q).

Definition getBlockType (codepoint : Z) : option BlockType :=
  match codepoint with
  | 0x2580 => Some (upper 4)
  | 0x2581 => Some (lower 1)
  | 0x2582 => Some (lower 2)
  | 0x2583 => Some (lower 3)
  | 0x2584 => Some (lower 4)
  | 0x2585 => Some (lower 5)
  | 0x2586 => Some (lower 6)
  | 0x2587 => Some (lower 7)
  | 0x2588 => Some full
  | 0x2589 => Some (left_block 7)
  | 0x258a => Some (left_block 6)
  | 0x258b => Some (left_block 5)
  | 0x258c => Some (left_block 4)
  | 0x258d => Some (left_block 3)
  | 0x258e => Some (left_block 2)
  | 0x258f => Some (left_block 1)
  | 0x2590 => Some (right_block 4)
  | 0x2591 => Some (shade (1 # 4))
  | 0x2592 => Some (shade (1 # 2))
  | 0x2593 => Some (shade (3 # 4))
  | 0x2594 => Some (upper 1)
  | 0x2595 => Some (right_block 1)
  | 0x2596 => Some (quadrants false false true false)
  | 0x2597 => Some (quadrants false false false true)
  | 0x2598 => Some (quadrants true false false false)
  | 0x2599 => Some (quadrants true false true true)
  | 0x259a => Some (quadrants true false false true)
  | 0x259b => Some (quadrants true true true false)
  | 0x259c => Some (quadrants true true false true)
  | 0x259d => Some (quadrants false true false false)
  | 0x259e => Some (quadrants false true true false)
  | 0x259f => Some (quadrants false true true true)
  | _ => None
  end.

Definition isBraillePattern (codepoint : Z) : bool :=
  (0x2800 <=? codepoint) && (codepoint <=? 0x28ff).

(** [(pattern & mask) !== 0] *)
Definition bitSet (pattern mask : Z) : bool := negb (Z.land pattern mask =? 0).

Definition getBrailleDots (codepoint : Z) : list bool :=
  let pattern := codepoint - 0x2800 in
  [ bitSet pattern 0x01; bitSet pattern 0x02; bitSet pattern 0x04;
    bitSet pattern 0x08; bitSet pattern 0x10; bitSet pattern 0x20;
    bitSet pattern 0x40; bitSet pattern 0x80 ].

Definition isSextant (codepoint : Z) : bool :=
  (0x1fb00 <=? codepoint) && (codepoint <=? 0x1fb3b).

Definition getSextantSegments (codepoint : Z) : list bool :=
  let pattern := codepoint - 0x1fb00 + 1 in
  let pattern := if 63 <=? pattern then pattern + 1 else pattern in
  [ bitSet pattern 0x01; bitSet pattern 0x02; bitSet pattern 0x04;
    bitSet pattern 0x08; bitSet pattern 0x10; bitSet pattern 0x20 ].

Inductive TriangleCorner := lower_right | lower_left | upper_left | upper_right.

Definition isCornerTriangle (codepoint : Z) : bool :=
  (0x25e2 <=? codepoint) && (codepoint <=? 0x25e5).

Definition getTriangleCorner (codepoint : Z) : option TriangleCorner :=
  match codepoint with
  | 0x25e2 => Some lower_right
  | 0x25e3 => Some lower_left
  | 0x25e4 => Some upper_left
  | 0x25e5 => Some upper_right
  | _ => None
  end.

Definition isPowerlineChar (codepoint : Z) : bool :=
  match codepoint with
  | 0xe0b0 | 0xe0b2 | 0xe0b4 | 0xe0b6
  | 0x25b6 | 0x25c0 | 0x25b2 | 0x25bc | 0x25ba | 0x25c4 => true
  | _ => false
  end.

Inductive PowerlineType := pl_right | pl_left | pl_up | pl_down.

Definition getPowerlineDirection (codepoint : Z) : option PowerlineType :=
  match codepoint with
  | 0xe0b0 | 0xe0b4 | 0x25b6 | 0x25ba => Some pl_right
  | 0xe0b2 | 0xe0b6 | 0x25c0 | 0x25c4 => Some pl_left
  | 0x25b2 => Some pl_up
  | 0x25bc => Some pl_down
  | _ => None
  end.

Inductive WedgeCorner := bl | br | tl | tr.
Inductive WedgeSize := half | small | large.
Inductive ScanPosition := pos_upper | pos_lower.
Inductive ScanPart := part_left | part_right.

Inductive WedgeType :=
| diagonal (from : WedgeCorner) (size : WedgeSize)
| half_scanline (position : ScanPosition) (part : ScanPart).

Definition isLegacyWedge (codepoint : Z) : bool :=
  (0x1fb3c <=? codepoint) && (codepoint <=? 0x1fb8b).

(** [sizes[i] || 'half'] and [corners[i]]: the index is always within the
    four-element array where these are used. *)
Definition wedgeSizes : list WedgeSize := [small; half; half; large].
Definition wedgeCorners : list WedgeCorner := [bl; br; tl; tr].
Definition sizeAt (i : Z) : WedgeSize := default half (wedgeSizes !! Z.to_nat i).
Definition cornerAt (i : Z) : WedgeCorner := default bl (wedgeCorners !! Z.to_nat i).

Definition inRange (lo hi codepoint : Z) : bool :=
  (lo <=? codepoint) && (codepoint <=? hi).

Definition getLegacyWedgeType (codepoint : Z) : option WedgeType :=
  if inRange 0x1fb3c 0x1fb3f codepoint then
    Some (diagonal bl (sizeAt (codepoint - 0x1fb3c)))
  else if inRange 0x1fb40 0x1fb43 codepoint then
    Some (diagonal br (sizeAt (codepoint - 0x1fb40)))
  else if inRange 0x1fb44 0x1fb47 codepoint then
    Some (diagonal tl (sizeAt (codepoint - 0x1fb44)))
  else if inRange 0x1fb48 0x1fb4b codepoint then
    Some (diagonal tr (sizeAt (codepoint - 0x1fb48)))
  else if inRange 0x1fb4c 0x1fb67 codepoint then
    let idx := codepoint - 0x1fb4c in
    Some (diagonal (cornerAt (idx mod 4)) half)
  else if inRange 0x1fb68 0x1fb6f codepoint then
    Some (diagonal (cornerAt ((codepoint - 0x1fb68) mod 4)) large)
  else if inRange 0x1fb70 0x1fb75 codepoint then
    Some (half_scanline pos_upper part_left)
  else if inRange 0x1fb76 0x1fb7b codepoint then
    Some (half_scanline pos_upper part_right)
  else if inRange 0x1fb7c 0x1fb8b codepoint then
    let idx := codepoint - 0x1fb7c in
    Some (half_scanline (if idx <? 8 then pos_upper else pos_lower)
                        (if idx mod 2 =? 0 then part_left else part_right))
  else None.

Definition isOctant (codepoint : Z) : bool :=
  (0x1cd00 <=? codepoint) && (codepoint <=? 0x1cde5).

Definition getOctantCells (codepoint : Z) : list bool :=
  let pattern := codepoint - 0x1cd00 in
  [ bitSet pattern 0x01; bitSet pattern 0x02; bitSet pattern 0x04;
    bitSet pattern 0x08; bitSet pattern 0x10; bitSet pattern 0x20;
    bitSet pattern 0x40; bitSet pattern 0x80 ].

Definition isSmoothMosaic (codepoint : Z) : bool :=
  (0x1fb90 <=? codepoint) && (codepoint <=? 0x1fbaf).

Definition isRoundedCorner (codepoint : Z) : bool :=
  (0x256d <=? codepoint) && (codepoint <=? 0x2570).

Inductive RoundedCornerType := down_right | down_left | up_left | up_right.

Definition getRoundedCornerType (codepoint : Z) : option RoundedCornerType :=
  match codepoint with
  | 0x256d => Some down_right
  | 0x256e => Some down_left
  | 0x256f => Some up_left
  | 0x2570 => Some up_right
  | _ => None
  end.

Inductive Direction := horizontal | vertical.
Inductive Weight := w_light | w_heavy.

Record DashedLineConfig := mkDashed {
  direction : Direction; weight : Weight; dashes : Z
}.

Definition isDashedLine (codepoint : Z) : bool :=
  ((0x2504 <=? codepoint) && (codepoint <=? 0x250b))
  || ((0x254c <=? codepoint) && (codepoint <=? 0x254f)).

Definition getDashedLineConfig (codepoint : Z) : option DashedLineConfig :=
  match codepoint with
  | 0x2504 => Some (mkDashed horizontal w_light 3)
  | 0x2505 => Some (mkDashed horizontal w_heavy 3)
  | 0x2506 => Some (mkDashed vertical w_light 3)
  | 0x2507 => Some (mkDashed vertical w_heavy 3)
  | 0x2508 => Some (mkDashed horizontal w_light 4)
  | 0x2509 => Some (mkDashed horizontal w_heavy 4)
  | 0x250a => Some (mkDashed vertical w_light 4)
  | 0x250b => Some (mkDashed vertical w_heavy 4)
  | 0x254c => Some (mkDashed horizontal w_light 2)
  | 0x254d => Some (mkDashed horizontal w_heavy 2)
  | 0x254e => Some (mkDashed vertical w_light 2)
  | 0x254f => Some (mkDashed vertical w_heavy 2)
  | _ => None
  end.

(** ** Data model *)

(** A cell as delivered by the emulator ([GhosttyCell], declared in
    types.ts).  Codepoints delivered by the emulator are Unicode scalar
    values, on which [String.fromCodePoint] is defined. *)
Record GhosttyCell := mkCell {
  codepoint : Z;
  fg_r : Z; fg_g : Z; fg_b : Z;
  bg_r : Z; bg_g : Z; bg_b : Z;
  flags : Z;
  width : Z;
  hyperlink_id : Z;
  grapheme_len : Z
}.

(** The style bits of [flags].  The enumeration [CellFlags] is declared in
    types.ts; the renderer only tests [cell.flags & CellFlags.X], so the
    bit values are a parameter of the development. *)
Record CellFlagsT := mkCellFlags {
  BOLD : Z; ITALIC : Z; UNDERLINE : Z; STRIKETHROUGH : Z;
  INVERSE : Z; INVISIBLE : Z; BLINK : Z; FAINT : Z
}.

Module FontMetrics.
Record t := mk { width : Z; height : Z; baseline : Z }.
End FontMetrics.

Inductive CursorStyle := cs_block | cs_underline | cs_bar.

(** The colours of [ITheme] that the renderer reads. *)
Record ITheme := mkTheme {
  foreground : string;
  background : string;
  cursor : string;
  cursorAccent : string;
  selectionBackground : string;
  selectionForeground : string
}.

(** A CSS colour as assigned to [fillStyle] / [strokeStyle]: a theme
    string, [rgb(r, g, b)] built by [rgbToCSS], or the scrollbar's
    [rgba(128, 128, 128, a)]. *)
Inductive Css :=
| CssStr (s : string)
| CssRgb (r g b : Z)
| CssRgba (r g b : Z) (a : Q).

Definition rgbToCSS (r g b : Z) : Css := CssRgb r g b.

(** The font string [`${fontStyle}${fontSize}px ${fontFamily}`]. *)
Record Font := mkFont {
  font_italic : bool; font_bold : bool; font_size : Q; font_family : string
}.

(** The text handed to [fillText]: [String.fromCodePoint(codepoint)] or the
    grapheme string returned by the buffer. *)
Inductive Text :=
| FromCodePoint (codepoint : Z)
| Grapheme (s : string).

Record Cursor := mkCursor { cur_x : Z; cur_y : Z; cur_visible : bool }.
Record Dims := mkDims { cols : Z; rows : Z }.

Record SelectionCoords := mkSel {
  startCol : Z; startRow : Z; endCol : Z; endRow : Z
}.

Record LinkRange := mkRange {
  startX : Z; startY : Z; endX : Z; endY : Z
}.

#[global] Instance LinkRange_eq_dec : EqDecision LinkRange.
Proof. solve_decision. Defined.

(** Modelled from the spec: the implementation of [IRenderable] is not part
    of renderer.ts.  [getLine], [getCursor] and [getDimensions] are
    observations; the dirty rows are a set that [isRowDirty] tests and
    [clearDirty] empties; [needsFullRedraw] and [getGraphemeString] are
    optional methods. *)
Record IRenderable := mkBuffer {
  getLine : Z -> option (list GhosttyCell);
  getCursor : Cursor;
  getDimensions : Dims;
  dirtyRows : gset Z;
  needsFullRedraw : option bool;
  getGraphemeString : option (Z -> Z -> string)
}.

Definition isRowDirty (b : IRenderable) (y : Z) : bool :=
  bool_decide (y ∈ dirtyRows b).

Definition clearDirty (b : IRenderable) : IRenderable :=
  mkBuffer (getLine b) (getCursor b) (getDimensions b) ∅
           (needsFullRedraw b) (getGraphemeString b).

(** [IScrollbackProvider]: offsets are 0-based from the oldest line. *)
Record IScrollbackProvider := mkScrollback {
  getScrollbackLine : Z -> option (list GhosttyCell);
  getScrollbackLength : Z
}.

(** Modelled from the spec: the selection manager is declared in
    selection-manager.ts.  [getDirtySelectionRows] returns the set of rows
    whose old selection must be repainted and [clearDirtySelectionRows]
    empties it. *)
Record SelectionManager := mkSelMgr {
  hasSelection : bool;
  getSelectionCoords : SelectionCoords;
  getDirtySelectionRows : gset Z
}.

Definition clearDirtySelectionRows (m : SelectionManager) : SelectionManager :=
  mkSelMgr (hasSelection m) (getSelectionCoords m) ∅.

(** ** The renderer object and the trace of its calls

    [CanvasRenderer] holds the canvas (its pixel size, as assigned: the
    host's rounding of the size to whole pixels is not modelled), the state
    of the 2D context that the renderer reads back or that the properties
    below are about, the options, and the state kept across frames.
    [currentBuffer] and [selectionManager] are the objects themselves: both
    are mutated in place by [render].  The field [palette] is written by
    the constructor and [setTheme] and read nowhere; it is left out. *)
Record Renderer := mkRenderer {
  canvas_width : Q;
  canvas_height : Q;
  fillStyle : Css;
  strokeStyle : Css;
  globalAlpha : Q;
  lineWidth : Q;
  fontSize : Q;
  fontFamily : string;
  cursorStyle : CursorStyle;
  cursorBlink : bool;
  theme : ITheme;
  devicePixelRatio : Q;
  metrics : FontMetrics.t;
  cursorVisible : bool;
  lastCursorPosition : Z * Z;
  lastViewportY : Q;
  currentBuffer : option IRenderable;
  selectionManager : option SelectionManager;
  currentSelectionCoords : option SelectionCoords;
  hoveredHyperlinkId : Z;
  previousHoveredHyperlinkId : Z;
  hoveredLinkRange : option LinkRange;
  previousHoveredLinkRange : option LinkRange;
  cursorSuppressed : bool
}.

Definition set_canvas_width (v : Q) (r : Renderer) : Renderer :=
  mkRenderer v (canvas_height r) (fillStyle r) (strokeStyle r) (globalAlpha r)
     (lineWidth r) (fontSize r) (fontFamily r) (cursorStyle r)
     (cursorBlink r) (theme r) (devicePixelRatio r) (metrics r)
     (cursorVisible r) (lastCursorPosition r) (lastViewportY r)
     (currentBuffer r) (selectionManager r) (currentSelectionCoords r)
     (hoveredHyperlinkId r) (previousHoveredHyperlinkId r)
     (hoveredLinkRange r) (previousHoveredLinkRange r)
     (cursorSuppressed r).
Definition set_canvas_height (v : Q) (r : Renderer) : Renderer :=
  mkRenderer (canvas_width r) v (fillStyle r) (strokeStyle r) (globalAlpha r)
     (lineWidth r) (fontSize r) (fontFamily r) (cursorStyle r)
     (cursorBlink r) (theme r) (devicePixelRatio r) (metrics r)
     (cursorVisible r) (lastCursorPosition r) (lastViewportY r)
     (currentBuffer r) (selectionManager r) (currentSelectionCoords r)
     (hoveredHyperlinkId r) (previousHoveredHyperlinkId r)
     (hoveredLinkRange r) (previousHoveredLinkRange r)
     (cursorSuppressed r).
Definition set_fillStyle (v : Css) (r : Renderer) : Renderer :=
  mkRenderer (canvas_width r) (canvas_height r) v (strokeStyle r) (globalAlpha r)
     (lineWidth r) (fontSize r) (fontFamily r) (cursorStyle r)
     (cursorBlink r) (theme r) (devicePixelRatio r) (metrics r)
     (cursorVisible r) (lastCursorPosition r) (lastViewportY r)
     (currentBuffer r) (selectionManager r) (currentSelectionCoords r)
     (hoveredHyperlinkId r) (previousHoveredHyperlinkId r)
     (hoveredLinkRange r) (previousHoveredLinkRange r)
     (cursorSuppressed r).
Definition set_strokeStyle (v : Css) (r : Renderer) : Renderer :=
  mkRenderer (canvas_width r) (canvas_height r) (fillStyle r) v (globalAlpha r)
     (lineWidth r) (fontSize r) (fontFamily r) (cursorStyle r)
     (cursorBlink r) (theme r) (devicePixelRatio r) (metrics r)
     (cursorVisible r) (lastCursorPosition r) (lastViewportY r)
     (currentBuffer r) (selectionManager r) (currentSelectionCoords r)
     (hoveredHyperlinkId r) (previousHoveredHyperlinkId r)
     (hoveredLinkRange r) (previousHoveredLinkRange r)
     (cursorSuppressed r).
Definition set_globalAlpha (v : Q) (r : Renderer) : Renderer :=
  mkRenderer (canvas_width r) (canvas_height r) (fillStyle r) (strokeStyle r) v
     (lineWidth r) (fontSize r) (fontFamily r) (cursorStyle r)
     (cursorBlink r) (theme r) (devicePixelRatio r) (metrics r)
     (cursorVisible r) (lastCursorPosition r) (lastViewportY r)
     (currentBuffer r) (selectionManager r) (currentSelectionCoords r)
     (hoveredHyperlinkId r) (previousHoveredHyperlinkId r)
     (hoveredLinkRange r) (previousHoveredLinkRange r)
     (cursorSuppressed r).
Definition set_lineWidth (v : Q) (r : Renderer) : Renderer :=
  mkRenderer (canvas_width r) (canvas_height r) (fillStyle r) (strokeStyle r)
     (globalAlpha r) v (fontSize r) (fontFamily r) (cursorStyle r)
     (cursorBlink r) (theme r) (devicePixelRatio r) (metrics r)
     (cursorVisible r) (lastCursorPosition r) (lastViewportY r)
     (currentBuffer r) (selectionManager r) (currentSelectionCoords r)
     (hoveredHyperlinkId r) (previousHoveredHyperlinkId r)
     (hoveredLinkRange r) (previousHoveredLinkRange r)
     (cursorSuppressed r).
Definition set_lastCursorPosition (v : Z * Z) (r : Renderer) : Renderer :=
  mkRenderer (canvas_width r) (canvas_height r) (fillStyle r) (strokeStyle r)
     (globalAlpha r) (lineWidth r) (fontSize r) (fontFamily r)
     (cursorStyle r) (cursorBlink r) (theme r) (devicePixelRatio r)
     (metrics r) (cursorVisible r) v (lastViewportY r) (currentBuffer r)
     (selectionManager r) (currentSelectionCoords r)
     (hoveredHyperlinkId r) (previousHoveredHyperlinkId r)
     (hoveredLinkRange r) (previousHoveredLinkRange r)
     (cursorSuppressed r).
Definition set_lastViewportY (v : Q) (r : Renderer) : Renderer :=
  mkRenderer (canvas_width r) (canvas_height r) (fillStyle r) (strokeStyle r)
     (globalAlpha r) (lineWidth r) (fontSize r) (fontFamily r)
     (cursorStyle r) (cursorBlink r) (theme r) (devicePixelRatio r)
     (metrics r) (cursorVisible r) (lastCursorPosition r) v
     (currentBuffer r) (selectionManager r) (currentSelectionCoords r)
     (hoveredHyperlinkId r) (previousHoveredHyperlinkId r)
     (hoveredLinkRange r) (previousHoveredLinkRange r)
     (cursorSuppressed r).
Definition set_currentBuffer (v : option IRenderable) (r : Renderer) : Renderer :=
  mkRenderer (canvas_width r) (canvas_height r) (fillStyle r) (strokeStyle r)
     (globalAlpha r) (lineWidth r) (fontSize r) (fontFamily r)
     (cursorStyle r) (cursorBlink r) (theme r) (devicePixelRatio r)
     (metrics r) (cursorVisible r) (lastCursorPosition r)
     (lastViewportY r) v (selectionManager r) (currentSelectionCoords r)
     (hoveredHyperlinkId r) (previousHoveredHyperlinkId r)
     (hoveredLinkRange r) (previousHoveredLinkRange r)
     (cursorSuppressed r).
Definition set_selectionManager (v : option SelectionManager) (r : Renderer) : Renderer :=
  mkRenderer (canvas_width r) (canvas_height r) (fillStyle r) (strokeStyle r)
     (globalAlpha r) (lineWidth r) (fontSize r) (fontFamily r)
     (cursorStyle r) (cursorBlink r) (theme r) (devicePixelRatio r)
     (metrics r) (cursorVisible r) (lastCursorPosition r)
     (lastViewportY r) (currentBuffer r) v (currentSelectionCoords r)
     (hoveredHyperlinkId r) (previousHoveredHyperlinkId r)
     (hoveredLinkRange r) (previousHoveredLinkRange r)
     (cursorSuppressed r).
Definition set_currentSelectionCoords (v : option SelectionCoords) (r : Renderer) : Renderer :=
  mkRenderer (canvas_width r) (canvas_height r) (fillStyle r) (strokeStyle r)
     (globalAlpha r) (lineWidth r) (fontSize r) (fontFamily r)
     (cursorStyle r) (cursorBlink r) (theme r) (devicePixelRatio r)
     (metrics r) (cursorVisible r) (lastCursorPosition r)
     (lastViewportY r) (currentBuffer r) (selectionManager r) v
     (hoveredHyperlinkId r) (previousHoveredHyperlinkId r)
     (hoveredLinkRange r) (previousHoveredLinkRange r)
     (cursorSuppressed r).
Definition set_previousHoveredHyperlinkId (v : Z) (r : Renderer) : Renderer :=
  mkRenderer (canvas_width r) (canvas_height r) (fillStyle r) (strokeStyle r)
     (globalAlpha r) (lineWidth r) (fontSize r) (fontFamily r)
     (cursorStyle r) (cursorBlink r) (theme r) (devicePixelRatio r)
     (metrics r) (cursorVisible r) (lastCursorPosition r)
     (lastViewportY r) (currentBuffer r) (selectionManager r)
     (currentSelectionCoords r) (hoveredHyperlinkId r) v
     (hoveredLinkRange r) (previousHoveredLinkRange r)
     (cursorSuppressed r).
Definition set_previousHoveredLinkRange (v : option LinkRange) (r : Renderer) : Renderer :=
  mkRenderer (canvas_width r) (canvas_height r) (fillStyle r) (strokeStyle r)
     (globalAlpha r) (lineWidth r) (fontSize r) (fontFamily r)
     (cursorStyle r) (cursorBlink r) (theme r) (devicePixelRatio r)
     (metrics r) (cursorVisible r) (lastCursorPosition r)
     (lastViewportY r) (currentBuffer r) (selectionManager r)
     (currentSelectionCoords r) (hoveredHyperlinkId r)
     (previousHoveredHyperlinkId r) (hoveredLinkRange r) v
     (cursorSuppressed r).

Definition set_fontSize (v : Q) (r : Renderer) : Renderer :=
  mkRenderer (canvas_width r) (canvas_height r) (fillStyle r) (strokeStyle r)
     (globalAlpha r) (lineWidth r) v (fontFamily r) (cursorStyle r)
     (cursorBlink r) (theme r) (devicePixelRatio r) (metrics r)
     (cursorVisible r) (lastCursorPosition r) (lastViewportY r)
     (currentBuffer r) (selectionManager r) (currentSelectionCoords r)
     (hoveredHyperlinkId r) (previousHoveredHyperlinkId r)
     (hoveredLinkRange r) (previousHoveredLinkRange r)
     (cursorSuppressed r).
Definition set_fontFamily (v : string) (r : Renderer) : Renderer :=
  mkRenderer (canvas_width r) (canvas_height r) (fillStyle r) (strokeStyle r)
     (globalAlpha r) (lineWidth r) (fontSize r) v (cursorStyle r)
     (cursorBlink r) (theme r) (devicePixelRatio r) (metrics r)
     (cursorVisible r) (lastCursorPosition r) (lastViewportY r)
     (currentBuffer r) (selectionManager r) (currentSelectionCoords r)
     (hoveredHyperlinkId r) (previousHoveredHyperlinkId r)
     (hoveredLinkRange r) (previousHoveredLinkRange r)
     (cursorSuppressed r).
Definition set_cursorStyle (v : CursorStyle) (r : Renderer) : Renderer :=
  mkRenderer (canvas_width r) (canvas_height r) (fillStyle r) (strokeStyle r)
     (globalAlpha r) (lineWidth r) (fontSize r) (fontFamily r) v
     (cursorBlink r) (theme r) (devicePixelRatio r) (metrics r)
     (cursorVisible r) (lastCursorPosition r) (lastViewportY r)
     (currentBuffer r) (selectionManager r) (currentSelectionCoords r)
     (hoveredHyperlinkId r) (previousHoveredHyperlinkId r)
     (hoveredLinkRange r) (previousHoveredLinkRange r)
     (cursorSuppressed r).
Definition set_cursorBlink (v : bool) (r : Renderer) : Renderer :=
  mkRenderer (canvas_width r) (canvas_height r) (fillStyle r) (strokeStyle r)
     (globalAlpha r) (lineWidth r) (fontSize r) (fontFamily r) (cursorStyle r)
     v (theme r) (devicePixelRatio r) (metrics r)
     (cursorVisible r) (lastCursorPosition r) (lastViewportY r)
     (currentBuffer r) (selectionManager r) (currentSelectionCoords r)
     (hoveredHyperlinkId r) (previousHoveredHyperlinkId r)
     (hoveredLinkRange r) (previousHoveredLinkRange r)
     (cursorSuppressed r).
Definition set_metrics (v : FontMetrics.t) (r : Renderer) : Renderer :=
  mkRenderer (canvas_width r) (canvas_height r) (fillStyle r) (strokeStyle r)
     (globalAlpha r) (lineWidth r) (fontSize r) (fontFamily r) (cursorStyle r)
     (cursorBlink r) (theme r) (devicePixelRatio r) v
     (cursorVisible r) (lastCursorPosition r) (lastViewportY r)
     (currentBuffer r) (selectionManager r) (currentSelectionCoords r)
     (hoveredHyperlinkId r) (previousHoveredHyperlinkId r)
     (hoveredLinkRange r) (previousHoveredLinkRange r)
     (cursorSuppressed r).
Definition set_cursorVisible (v : bool) (r : Renderer) : Renderer :=
  mkRenderer (canvas_width r) (canvas_height r) (fillStyle r) (strokeStyle r)
     (globalAlpha r) (lineWidth r) (fontSize r) (fontFamily r) (cursorStyle r)
     (cursorBlink r) (theme r) (devicePixelRatio r) (metrics r)
     v (lastCursorPosition r) (lastViewportY r)
     (currentBuffer r) (selectionManager r) (currentSelectionCoords r)
     (hoveredHyperlinkId r) (previousHoveredHyperlinkId r)
     (hoveredLinkRange r) (previousHoveredLinkRange r)
     (cursorSuppressed r).
Definition set_hoveredHyperlinkId (v : Z) (r : Renderer) : Renderer :=
  mkRenderer (canvas_width r) (canvas_height r) (fillStyle r) (strokeStyle r)
     (globalAlpha r) (lineWidth r) (fontSize r) (fontFamily r) (cursorStyle r)
     (cursorBlink r) (theme r) (devicePixelRatio r) (metrics r)
     (cursorVisible r) (lastCursorPosition r) (lastViewportY r)
     (currentBuffer r) (selectionManager r) (currentSelectionCoords r)
     v (previousHoveredHyperlinkId r)
     (hoveredLinkRange r) (previousHoveredLinkRange r)
     (cursorSuppressed r).
Definition set_hoveredLinkRange (v : option LinkRange) (r : Renderer) : Renderer :=
  mkRenderer (canvas_width r) (canvas_height r) (fillStyle r) (strokeStyle r)
     (globalAlpha r) (lineWidth r) (fontSize r) (fontFamily r) (cursorStyle r)
     (cursorBlink r) (theme r) (devicePixelRatio r) (metrics r)
     (cursorVisible r) (lastCursorPosition r) (lastViewportY r)
     (currentBuffer r) (selectionManager r) (currentSelectionCoords r)
     (hoveredHyperlinkId r) (previousHoveredHyperlinkId r)
     v (previousHoveredLinkRange r)
     (cursorSuppressed r).
Definition set_cursorSuppressed (v : bool) (r : Renderer) : Renderer :=
  mkRenderer (canvas_width r) (canvas_height r) (fillStyle r) (strokeStyle r)
     (globalAlpha r) (lineWidth r) (fontSize r) (fontFamily r) (cursorStyle r)
     (cursorBlink r) (theme r) (devicePixelRatio r) (metrics r)
     (cursorVisible r) (lastCursorPosition r) (lastViewportY r)
     (currentBuffer r) (selectionManager r) (currentSelectionCoords r)
     (hoveredHyperlinkId r) (previousHoveredHyperlinkId r)
     (hoveredLinkRange r) (previousHoveredLinkRange r)
     v.
Definition set_theme (v : ITheme) (r : Renderer) : Renderer :=
  mkRenderer (canvas_width r) (canvas_height r) (fillStyle r) (strokeStyle r)
     (globalAlpha r) (lineWidth r) (fontSize r) (fontFamily r) (cursorStyle r)
     (cursorBlink r) v (devicePixelRatio r) (metrics r)
     (cursorVisible r) (lastCursorPosition r) (lastViewportY r)
     (currentBuffer r) (selectionManager r) (currentSelectionCoords r)
     (hoveredHyperlinkId r) (previousHoveredHyperlinkId r)
     (hoveredLinkRange r) (previousHoveredLinkRange r)
     (cursorSuppressed r).

(** The procedures of the renderer; [Enter p] in the trace marks a call. *)
Inductive Proc :=
| PResize (cols rows : Z)
| PRenderLine (y : Z)
| PRenderCellBackground (x y : Z)
| PRenderCellText (x y : Z)
| PDrawBoxChar (codepoint : Z)
| PDrawBlockChar (codepoint : Z)
| PDrawBrailleChar (codepoint : Z)
| PDrawSextantChar (codepoint : Z)
| PDrawCornerTriangle (codepoint : Z)
| PDrawPowerlineChar (codepoint : Z)
| PDrawLegacyWedge (codepoint : Z)
| PDrawOctant (codepoint : Z)
| PDrawSmoothMosaic (codepoint : Z)
| PDrawRoundedCorner (codepoint : Z)
| PDrawDashedLine (codepoint : Z)
| PRenderCursor (x y : Z)
| PRenderScrollbar.

(** What the renderer does to the outside, in order: calls and property
    assignments on the canvas and its 2D context, and the two mutating
    calls on its collaborators.  Angles of [Arc] are multiples of pi. *)
Inductive Event :=
| Enter (p : Proc)
| CanvasStyleSize (w h : Q)
| CanvasSize (w h : Q)
| Scale (sx sy : Q)
| SetTextBaseline (s : string)
| SetTextAlign (s : string)
| SetFont (f : Font)
| SetFillStyle (c : Css)
| SetStrokeStyle (c : Css)
| SetGlobalAlpha (a : Q)
| SetLineWidth (w : Q)
| SetLineCap (s : string)
| FillRect (x y w h : Q)
| FillText (t : Text) (x y : Q)
| BeginPath
| MoveTo (x y : Q)
| LineTo (x y : Q)
| Arc (x y radius startPi endPi : Q)
| ClosePath
| Fill
| Stroke
| BufferClearDirty
| SelectionClearDirtyRows.

(** Events that put something on the surface (or change its size or
    transform), as opposed to assignments of context properties, markers
    and collaborator calls. *)
Definition isDrawing (e : Event) : bool :=
  match e with
  | CanvasStyleSize _ _ | CanvasSize _ _ | Scale _ _
  | FillRect _ _ _ _ | FillText _ _ _ | BeginPath | MoveTo _ _ | LineTo _ _
  | Arc _ _ _ _ _ | ClosePath | Fill | Stroke => true
  | _ => false
  end.

(** ** A state-and-trace monad for the methods of the renderer *)

Definition M (A : Type) : Type := Renderer -> A * Renderer * list Event.

#[global] Instance M_ret : MRet M := fun A (a : A) r => (a, r, []).

#[global] Instance M_bind : MBind M := fun A B (k : A -> M B) (m : M A) r =>
  let '(a, r1, l1) := m r in
  let '(b, r2, l2) := k a r1 in
  (b, r2, l1 ++ l2).

Definition result {A} (m : M A) (r : Renderer) : A := (m r).1.1.
Definition after {A} (m : M A) (r : Renderer) : Renderer := (m r).1.2.
Definition events {A} (m : M A) (r : Renderer) : list Event := (m r).2.

Definition get : M Renderer := fun r => (r, r, []).
Definition modify (f : Renderer -> Renderer) : M unit := fun r => (tt, f r, []).
Definition emit (e : Event) : M unit := fun r => (tt, r, [e]).
Definition skip : M unit := mret tt.
Definition when (b : bool) (m : M unit) : M unit := if b then m else skip.

Fixpoint forM_ {A} (l : list A) (f : A -> M unit) : M unit :=
  match l with
  | [] => skip
  | a :: l' => f a ;; forM_ l' f
  end.

Coercion JS.ofZ : Z >-> Q.

(** ** The 2D context

    Every call and assignment is recorded in the trace; the properties that
    are read back ([fillStyle]) or that the invariants are about
    ([globalAlpha], [strokeStyle], [lineWidth]) are also kept in the state. *)

Definition ctx_fillStyle (c : Css) : M unit :=
  modify (set_fillStyle c) ;; emit (SetFillStyle c).
Definition ctx_strokeStyle (c : Css) : M unit :=
  modify (set_strokeStyle c) ;; emit (SetStrokeStyle c).
Definition ctx_globalAlpha (a : Q) : M unit :=
  modify (set_globalAlpha a) ;; emit (SetGlobalAlpha a).
Definition ctx_lineWidth (w : Q) : M unit :=
  modify (set_lineWidth w) ;; emit (SetLineWidth w).
Definition ctx_lineCap (s : string) : M unit := emit (SetLineCap s).
Definition ctx_font (f : Font) : M unit := emit (SetFont f).
Definition ctx_fillRect (x y w h : Q) : M unit := emit (FillRect x y w h).
Definition ctx_fillText (t : Text) (x y : Q) : M unit := emit (FillText t x y).
Definition ctx_beginPath : M unit := emit BeginPath.
Definition ctx_moveTo (x y : Q) : M unit := emit (MoveTo x y).
Definition ctx_lineTo (x y : Q) : M unit := emit (LineTo x y).
Definition ctx_arc (x y radius startPi endPi : Q) : M unit :=
  emit (Arc x y radius startPi endPi).
Definition ctx_closePath : M unit := emit ClosePath.
Definition ctx_fill : M unit := emit Fill.
Definition ctx_stroke : M unit := emit Stroke.

(** Assigning [canvas.width] / [canvas.height] resizes the bitmap and
    resets the context to its default state. *)
Definition canvas_setSize (w h : Q) : M unit :=
  modify (fun r =>
    set_lineWidth 1 (set_globalAlpha 1 (set_strokeStyle (CssStr "#000000")
      (set_fillStyle (CssStr "#000000")
        (set_canvas_height h (set_canvas_width w r)))))) ;;
  emit (CanvasSize w h).

Definition styleIs (a b : LineStyle) : bool := bool_decide (a = b).
Definition styleIsNot (a b : LineStyle) : bool := negb (styleIs a b).

(** ** Procedural glyph engine (renderer.ts, lines 1469-2306) *)

Definition getThickness (lightThickness heavyThickness doubleLineThickness : Q)
    (style : LineStyle) : Q :=
  match style with
  | light => lightThickness
  | heavy => heavyThickness
  | double => doubleLineThickness
  | none => 0
  end.

Definition drawBoxChar (codepoint : Z) (cellX cellY : Q) (fgColor : Css) : M unit :=
  emit (Enter (PDrawBoxChar codepoint)) ;;
  match getBoxLines codepoint with
  | None => skip
  | Some lines =>
    r ← get;
    let width : Q := FontMetrics.width (metrics r) in
    let height : Q := FontMetrics.height (metrics r) in
    let lightThickness := JS.max 1 (JS.round (height / 12)) in
    let heavyThickness := JS.max 2 (JS.round (height / 6)) in
    let doubleGap := JS.max 2 (JS.round (height / 8)) in
    let doubleLineThickness := JS.max 1 (JS.round (height / 16)) in
    let centerX := (cellX + width / 2)%js in
    let centerY := (cellY + height / 2)%js in
    let thick := getThickness lightThickness heavyThickness doubleLineThickness in
    ctx_fillStyle fgColor ;;
    (* horizontal segments (left and right) *)
    when (styleIsNot (left lines) none || styleIsNot (right lines) none)
      (if styleIs (left lines) double || styleIs (right lines) double then
         let offset := ((doubleGap + doubleLineThickness) / 2)%js in
         when (styleIsNot (left lines) none)
           (let w := (width / 2 + (if styleIsNot (right lines) none
                                   then doubleLineThickness / 2 else 0))%js in
            ctx_fillRect cellX (centerY - offset - doubleLineThickness / 2)%js
                         w doubleLineThickness ;;
            ctx_fillRect cellX (centerY + offset - doubleLineThickness / 2)%js
                         w doubleLineThickness) ;;
         when (styleIsNot (right lines) none)
           (let x := (centerX - (if styleIsNot (left lines) none
                                 then doubleLineThickness / 2 else 0))%js in
            let w := (width / 2 + (if styleIsNot (left lines) none
                                   then doubleLineThickness / 2 else 0))%js in
            ctx_fillRect x (centerY - offset - doubleLineThickness / 2)%js
                         w doubleLineThickness ;;
            ctx_fillRect x (centerY + offset - doubleLineThickness / 2)%js
                         w doubleLineThickness)
       else
         let leftThickness := thick (left lines) in
         let rightThickness := thick (right lines) in
         if styleIsNot (left lines) none && styleIsNot (right lines) none
            && styleIs (left lines) (right lines) then
           let thickness := leftThickness in
           ctx_fillRect cellX (JS.round (centerY - thickness / 2)) width thickness
         else
           when (styleIsNot (left lines) none)
             (let thickness := leftThickness in
              let extendPastCenter : Q :=
                if styleIsNot (right lines) none then (thickness / 2)%js else 0 in
              ctx_fillRect cellX (JS.round (centerY - thickness / 2))
                           (JS.ceil (width / 2 + extendPastCenter)) thickness) ;;
           when (styleIsNot (right lines) none)
             (let thickness := rightThickness in
              let extendPastCenter : Q :=
                if styleIsNot (left lines) none then (thickness / 2)%js else 0 in
              ctx_fillRect (JS.floor (centerX - extendPastCenter))
                           (JS.round (centerY - thickness / 2))
                           (JS.ceil (width / 2 + extendPastCenter)) thickness)) ;;
    (* vertical segments (up and down) *)
    when (styleIsNot (up lines) none || styleIsNot (down lines) none)
      (if styleIs (up lines) double || styleIs (down lines) double then
         let offset := ((doubleGap + doubleLineThickness) / 2)%js in
         let h : Q := JS.ceil (height / 2 + doubleLineThickness / 2) in
         when (styleIsNot (up lines) none)
           (ctx_fillRect (JS.round (centerX - offset - doubleLineThickness / 2))
                         cellY doubleLineThickness h ;;
            ctx_fillRect (JS.round (centerX + offset - doubleLineThickness / 2))
                         cellY doubleLineThickness h) ;;
         when (styleIsNot (down lines) none)
           (ctx_fillRect (JS.round (centerX - offset - doubleLineThickness / 2))
                         (JS.floor (centerY - doubleLineThickness / 2))
                         doubleLineThickness h ;;
            ctx_fillRect (JS.round (centerX + offset - doubleLineThickness / 2))
                         (JS.floor (centerY - doubleLineThickness / 2))
                         doubleLineThickness h)
       else
         let upThickness := thick (up lines) in
         let downThickness := thick (down lines) in
         if styleIsNot (up lines) none && styleIsNot (down lines) none
            && styleIs (up lines) (down lines) then
           let thickness := upThickness in
           ctx_fillRect (JS.round (centerX - thickness / 2)) cellY thickness height
         else
           when (styleIsNot (up lines) none)
             (let thickness := upThickness in
              let extendPastCenter : Q :=
                if styleIsNot (down lines) none then (thickness / 2)%js else 0 in
              ctx_fillRect (JS.round (centerX - thickness / 2)) cellY thickness
                           (JS.ceil (height / 2 + extendPastCenter))) ;;
           when (styleIsNot (down lines) none)
             (let thickness := downThickness in
              let extendPastCenter : Q :=
                if styleIsNot (up lines) none then (thickness / 2)%js else 0 in
              ctx_fillRect (JS.round (centerX - thickness / 2))
                           (JS.floor (centerY - extendPastCenter)) thickness
                           (JS.ceil (height / 2 + extendPastCenter))))
  end.

Definition drawBlockChar (codepoint : Z) (cellX cellY : Q) (fgColor : Css) : M unit :=
  emit (Enter (PDrawBlockChar codepoint)) ;;
  match getBlockType codepoint with
  | None => skip
  | Some block =>
    r ← get;
    let width : Q := FontMetrics.width (metrics r) in
    let height : Q := FontMetrics.height (metrics r) in
    ctx_fillStyle fgColor ;;
    match block with
    | full => ctx_fillRect cellX cellY width height
    | upper eighths =>
      let upperHeight : Q := JS.round (height * eighths / 8) in
      ctx_fillRect cellX cellY width upperHeight
    | lower eighths =>
      let lowerHeight : Q := JS.round (height * eighths / 8) in
      ctx_fillRect cellX (cellY + height - lowerHeight)%js width lowerHeight
    | left_block eighths =>
      let leftWidth : Q := JS.round (width * eighths / 8) in
      ctx_fillRect cellX cellY leftWidth height
    | right_block eighths =>
      let rightWidth : Q := JS.round (width * eighths / 8) in
      ctx_fillRect (cellX + width - rightWidth)%js cellY rightWidth height
    | quadrants q_tl q_tr q_bl q_br =>
      let halfW : Q := JS.ceil (width / 2) in
      let halfH : Q := JS.ceil (height / 2) in
      let midX := (cellX + JS.floor (width / 2))%js in
      let midY := (cellY + JS.floor (height / 2))%js in
      when q_tl (ctx_fillRect cellX cellY halfW halfH) ;;
      when q_tr (ctx_fillRect midX cellY halfW halfH) ;;
      when q_bl (ctx_fillRect cellX midY halfW halfH) ;;
      when q_br (ctx_fillRect midX midY halfW halfH)
    | shade density =>
      ctx_globalAlpha density ;;
      ctx_fillRect cellX cellY width height ;;
      ctx_globalAlpha 1
    end
  end.

(** [dotPositions], [segmentPositions] and [positions]: index -> (col, row). *)
Definition dotPositions : list (Z * Z) :=
  [(0, 0); (0, 1); (0, 2); (1, 0); (1, 1); (1, 2); (0, 3); (1, 3)].
Definition segmentPositions : list (Z * Z) :=
  [(0, 0); (1, 0); (0, 1); (1, 1); (0, 2); (1, 2)].
Definition octantPositions : list (Z * Z) :=
  [(0, 0); (1, 0); (0, 1); (1, 1); (0, 2); (1, 2); (0, 3); (1, 3)].

Definition drawBrailleChar (codepoint : Z) (cellX cellY : Q) (fgColor : Css) : M unit :=
  emit (Enter (PDrawBrailleChar codepoint)) ;;
  let dots := getBrailleDots codepoint in
  r ← get;
  let width : Q := FontMetrics.width (metrics r) in
  let height : Q := FontMetrics.height (metrics r) in
  let paddingX := (width * (15 # 100))%js in
  let paddingY := (height * (1 # 10))%js in
  let dotAreaWidth := (width - paddingX * 2)%js in
  let dotAreaHeight := (height - paddingY * 2)%js in
  let dotRadius :=
    JS.max 1 (JS.min (dotAreaWidth / 4) (dotAreaHeight / 8) * (9 # 10)) in
  let colSpacing := dotAreaWidth in
  let rowSpacing := (dotAreaHeight / 3)%js in
  let startX := (cellX + paddingX + dotRadius)%js in
  let startY := (cellY + paddingY + dotRadius)%js in
  ctx_fillStyle fgColor ;;
  forM_ (zip dots dotPositions) (fun '(dot, (col, row)) =>
    when dot
      (let dotX := (startX + col * colSpacing)%js in
       let dotY := (startY + row * rowSpacing)%js in
       ctx_beginPath ;;
       ctx_arc dotX dotY dotRadius 0 2 ;;
       ctx_fill)).

Definition drawSextantChar (codepoint : Z) (cellX cellY : Q) (fgColor : Css) : M unit :=
  emit (Enter (PDrawSextantChar codepoint)) ;;
  let segments := getSextantSegments codepoint in
  r ← get;
  let width : Q := FontMetrics.width (metrics r) in
  let height : Q := FontMetrics.height (metrics r) in
  let segW : Q := JS.ceil (width / 2) in
  let segH : Q := JS.ceil (height / 3) in
  ctx_fillStyle fgColor ;;
  forM_ (zip segments segmentPositions) (fun '(segment, (col, row)) =>
    when segment
      (let segX := (cellX + col * JS.floor (width / 2))%js in
       let segY := (cellY + row * JS.floor (height / 3))%js in
       let actualW := if col =? 1 then (width - JS.floor (width / 2))%js else segW in
       let actualH := if row =? 2 then (height - JS.floor (height / 3) * 2)%js else segH in
       ctx_fillRect segX segY actualW actualH)).

Definition drawCornerTriangle (codepoint : Z) (cellX cellY : Q) (fgColor : Css) : M unit :=
  emit (Enter (PDrawCornerTriangle codepoint)) ;;
  match getTriangleCorner codepoint with
  | None => skip
  | Some corner =>
    r ← get;
    let width : Q := FontMetrics.width (metrics r) in
    let height : Q := FontMetrics.height (metrics r) in
    ctx_fillStyle fgColor ;;
    ctx_beginPath ;;
    match corner with
    | lower_right =>
      ctx_moveTo (cellX + width)%js cellY ;;
      ctx_lineTo (cellX + width)%js (cellY + height)%js ;;
      ctx_lineTo cellX (cellY + height)%js
    | lower_left =>
      ctx_moveTo cellX cellY ;;
      ctx_lineTo (cellX + width)%js (cellY + height)%js ;;
      ctx_lineTo cellX (cellY + height)%js
    | upper_left =>
      ctx_moveTo cellX cellY ;;
      ctx_lineTo (cellX + width)%js cellY ;;
      ctx_lineTo cellX (cellY + height)%js
    | upper_right =>
      ctx_moveTo cellX cellY ;;
      ctx_lineTo (cellX + width)%js cellY ;;
      ctx_lineTo (cellX + width)%js (cellY + height)%js
    end ;;
    ctx_closePath ;;
    ctx_fill
  end.

Definition drawPowerlineChar (codepoint : Z) (cellX cellY : Q) (fgColor : Css) : M unit :=
  emit (Enter (PDrawPowerlineChar codepoint)) ;;
  match getPowerlineDirection codepoint with
  | None => skip
  | Some dir =>
    r ← get;
    let width : Q := FontMetrics.width (metrics r) in
    let height : Q := FontMetrics.height (metrics r) in
    ctx_fillStyle fgColor ;;
    ctx_beginPath ;;
    match dir with
    | pl_right =>
      ctx_moveTo cellX cellY ;;
      ctx_lineTo (cellX + width)%js (cellY + height / 2)%js ;;
      ctx_lineTo cellX (cellY + height)%js
    | pl_left =>
      ctx_moveTo (cellX + width)%js cellY ;;
      ctx_lineTo cellX (cellY + height / 2)%js ;;
      ctx_lineTo (cellX + width)%js (cellY + height)%js
    | pl_up =>
      ctx_moveTo cellX (cellY + height)%js ;;
      ctx_lineTo (cellX + width / 2)%js cellY ;;
      ctx_lineTo (cellX + width)%js (cellY + height)%js
    | pl_down =>
      ctx_moveTo cellX cellY ;;
      ctx_lineTo (cellX + width / 2)%js (cellY + height)%js ;;
      ctx_lineTo (cellX + width)%js cellY
    end ;;
    ctx_closePath ;;
    ctx_fill
  end.

Definition drawLegacyWedge (codepoint : Z) (cellX cellY : Q) (fgColor : Css) : M unit :=
  emit (Enter (PDrawLegacyWedge codepoint)) ;;
  match getLegacyWedgeType codepoint with
  | None => skip
  | Some wedge =>
    r ← get;
    let width : Q := FontMetrics.width (metrics r) in
    let height : Q := FontMetrics.height (metrics r) in
    ctx_fillStyle fgColor ;;
    ctx_beginPath ;;
    match wedge with
    | diagonal from size =>
      let sizeFactor : Q :=
        match size with
        | small => 33 # 100
        | half => 1 # 2
        | large => 67 # 100
        end in
      match from with
      | bl =>
        ctx_moveTo cellX (cellY + height)%js ;;
        ctx_lineTo (cellX + width * sizeFactor)%js (cellY + height)%js ;;
        ctx_lineTo cellX (cellY + height * (1 - sizeFactor))%js
      | br =>
        ctx_moveTo (cellX + width)%js (cellY + height)%js ;;
        ctx_lineTo (cellX + width * (1 - sizeFactor))%js (cellY + height)%js ;;
        ctx_lineTo (cellX + width)%js (cellY + height * (1 - sizeFactor))%js
      | tl =>
        ctx_moveTo cellX cellY ;;
        ctx_lineTo (cellX + width * sizeFactor)%js cellY ;;
        ctx_lineTo cellX (cellY + height * sizeFactor)%js
      | tr =>
        ctx_moveTo (cellX + width)%js cellY ;;
        ctx_lineTo (cellX + width * (1 - sizeFactor))%js cellY ;;
        ctx_lineTo (cellX + width)%js (cellY + height * sizeFactor)%js
      end ;;
      ctx_closePath ;;
      ctx_fill
    | half_scanline position part =>
      let halfW := (width / 2)%js in
      let halfH := (height / 2)%js in
      let startX := match part with part_left => cellX | part_right => (cellX + halfW)%js end in
      let startY := match position with pos_upper => cellY | pos_lower => (cellY + halfH)%js end in
      ctx_fillRect startX startY halfW halfH
    end
  end.

Definition drawOctant (codepoint : Z) (cellX cellY : Q) (fgColor : Css) : M unit :=
  emit (Enter (PDrawOctant codepoint)) ;;
  let cells := getOctantCells codepoint in
  r ← get;
  let width : Q := FontMetrics.width (metrics r) in
  let height : Q := FontMetrics.height (metrics r) in
  let cellW : Q := JS.ceil (width / 2) in
  let cellH : Q := JS.ceil (height / 4) in
  ctx_fillStyle fgColor ;;
  forM_ (zip cells octantPositions) (fun '(filled, (col, row)) =>
    when filled
      (let x := (cellX + col * JS.floor (width / 2))%js in
       let y := (cellY + row * JS.floor (height / 4))%js in
       let w := if col =? 1 then (width - JS.floor (width / 2))%js else cellW in
       let h := if row =? 3 then (height - JS.floor (height / 4) * 3)%js else cellH in
       ctx_fillRect x y w h)).

(** [corners[offset % 4]], undefined for a negative remainder. *)
Definition mosaicCorner (offset : Z) : option WedgeCorner :=
  let i := Z.rem offset 4 in
  if i <? 0 then None else wedgeCorners !! Z.to_nat i.

Definition drawSmoothMosaic (codepoint : Z) (cellX cellY : Q) (fgColor : Css) : M unit :=
  emit (Enter (PDrawSmoothMosaic codepoint)) ;;
  r ← get;
  let width : Q := FontMetrics.width (metrics r) in
  let height : Q := FontMetrics.height (metrics r) in
  ctx_fillStyle fgColor ;;
  let offset := codepoint - 0x1fb90 in
  ctx_beginPath ;;
  if offset <? 8 then
    match mosaicCorner offset with
    | Some bl =>
      ctx_moveTo cellX (cellY + height)%js ;;
      ctx_lineTo (cellX + width)%js (cellY + height)%js ;;
      ctx_lineTo cellX cellY
    | Some br =>
      ctx_moveTo (cellX + width)%js (cellY + height)%js ;;
      ctx_lineTo cellX (cellY + height)%js ;;
      ctx_lineTo (cellX + width)%js cellY
    | Some tl =>
      ctx_moveTo cellX cellY ;;
      ctx_lineTo (cellX + width)%js cellY ;;
      ctx_lineTo cellX (cellY + height)%js
    | Some tr =>
      ctx_moveTo (cellX + width)%js cellY ;;
      ctx_lineTo cellX cellY ;;
      ctx_lineTo (cellX + width)%js (cellY + height)%js
    | None => skip
    end ;;
    ctx_closePath ;;
    ctx_fill
  else
    ctx_fillRect cellX cellY (width / 2)%js (height / 2)%js ;;
    ctx_fillRect (cellX + width / 2)%js (cellY + height / 2)%js
                 (width / 2)%js (height / 2)%js.

Definition drawRoundedCorner (codepoint : Z) (cellX cellY : Q) (fgColor : Css) : M unit :=
  emit (Enter (PDrawRoundedCorner codepoint)) ;;
  r ← get;
  let width : Q := FontMetrics.width (metrics r) in
  let height : Q := FontMetrics.height (metrics r) in
  let thickness := JS.max 1 (JS.round (height / 12)) in
  let centerX : Q := JS.round (cellX + width / 2) in
  let centerY : Q := JS.round (cellY + height / 2) in
  let radius := (JS.min width height / 2 - thickness / 2)%js in
  ctx_strokeStyle fgColor ;;
  ctx_lineWidth thickness ;;
  ctx_lineCap "square" ;;
  ctx_beginPath ;;
  match getRoundedCornerType codepoint with
  | Some down_right =>
    ctx_arc (centerX + radius)%js (centerY + radius)%js radius 1 (3 # 2) ;;
    ctx_moveTo centerX (JS.round (cellY + height / 2 - radius)) ;;
    ctx_lineTo centerX cellY ;;
    ctx_moveTo (JS.round (cellX + width / 2 + radius)) centerY ;;
    ctx_lineTo (cellX + width)%js centerY
  | Some down_left =>
    ctx_arc (centerX - radius)%js (centerY + radius)%js radius (3 # 2) 2 ;;
    ctx_moveTo centerX (JS.round (cellY + height / 2 - radius)) ;;
    ctx_lineTo centerX cellY ;;
    ctx_moveTo (JS.round (cellX + width / 2 - radius)) centerY ;;
    ctx_lineTo cellX centerY
  | Some up_left =>
    ctx_arc (centerX - radius)%js (centerY - radius)%js radius 0 (1 # 2) ;;
    ctx_moveTo centerX (JS.round (cellY + height / 2 + radius)) ;;
    ctx_lineTo centerX (cellY + height)%js ;;
    ctx_moveTo (JS.round (cellX + width / 2 - radius)) centerY ;;
    ctx_lineTo cellX centerY
  | Some up_right =>
    ctx_arc (centerX + radius)%js (centerY - radius)%js radius (1 # 2) 1 ;;
    ctx_moveTo centerX (JS.round (cellY + height / 2 + radius)) ;;
    ctx_lineTo centerX (cellY + height)%js ;;
    ctx_moveTo (JS.round (cellX + width / 2 + radius)) centerY ;;
    ctx_lineTo (cellX + width)%js centerY
  | None => skip
  end ;;
  ctx_stroke.

Definition drawDashedLine (codepoint : Z) (cellX cellY : Q) (fgColor : Css) : M unit :=
  emit (Enter (PDrawDashedLine codepoint)) ;;
  match getDashedLineConfig codepoint with
  | None => skip
  | Some config =>
    r ← get;
    let width : Q := FontMetrics.width (metrics r) in
    let height : Q := FontMetrics.height (metrics r) in
    let baseThickness := JS.max 1 (JS.round (height / 12)) in
    let thickness :=
      match weight config with
      | w_heavy => (baseThickness * 2)%js
      | w_light => baseThickness
      end in
    ctx_fillStyle fgColor ;;
    let centerX : Q := JS.round (cellX + width / 2) in
    let centerY : Q := JS.round (cellY + height / 2) in
    match direction config with
    | horizontal =>
      let dashWidth := (width / (dashes config * 2 - 1)%Z)%js in
      let y : Q := JS.round (centerY - thickness / 2) in
      forM_ (seqZ 0 (dashes config)) (fun i =>
        let x : Q := JS.round (cellX + i * dashWidth * 2) in
        ctx_fillRect x y (JS.round dashWidth) thickness)
    | vertical =>
      let dashHeight := (height / (dashes config * 2 - 1)%Z)%js in
      let x : Q := JS.round (centerX - thickness / 2) in
      forM_ (seqZ 0 (dashes config)) (fun i =>
        let y : Q := JS.round (cellY + i * dashHeight * 2) in
        ctx_fillRect x y thickness (JS.round dashHeight))
    end
  end.

(** ** Cursor and scrollbar (renderer.ts, lines 2308-2340 and 2448-2488) *)

Definition renderCursor (x y : Z) : M unit :=
  emit (Enter (PRenderCursor x y)) ;;
  r ← get;
  let width := FontMetrics.width (metrics r) in
  let height := FontMetrics.height (metrics r) in
  let cursorX : Q := (x * width)%Z in
  let cursorY : Q := (y * height)%Z in
  ctx_fillStyle (CssStr (cursor (theme r))) ;;
  match cursorStyle r with
  | cs_block => ctx_fillRect cursorX cursorY width height
  | cs_underline =>
    let underlineHeight := JS.max 2 (JS.floor (height * (15 # 100))) in
    ctx_fillRect cursorX (cursorY + height - underlineHeight)%js width underlineHeight
  | cs_bar =>
    let barWidth := JS.max 2 (JS.floor (width * (15 # 100))) in
    ctx_fillRect cursorX cursorY barWidth height
  end.

Definition renderScrollbar (viewportY : Q) (scrollbackLength visibleRows : Z)
    (opacity : Q) : M unit :=
  emit (Enter PRenderScrollbar) ;;
  r ← get;
  let canvasHeight := (canvas_height r / devicePixelRatio r)%js in
  let canvasWidth := (canvas_width r / devicePixelRatio r)%js in
  let scrollbarWidth : Q := 8 in
  let scrollbarX := (canvasWidth - scrollbarWidth - 4)%js in
  let scrollbarPadding : Q := 4 in
  let scrollbarTrackHeight := (canvasHeight - scrollbarPadding * 2)%js in
  ctx_fillStyle (CssStr (background (theme r))) ;;
  ctx_fillRect (scrollbarX - 2)%js 0 (scrollbarWidth + 6)%js canvasHeight ;;
  if (opacity <=? 0)%js || (scrollbackLength =? 0) then skip
  else
    let totalLines := scrollbackLength + visibleRows in
    let thumbHeight := JS.max 20 (visibleRows / totalLines * scrollbarTrackHeight) in
    let scrollPosition := (viewportY / scrollbackLength)%js in
    let thumbY :=
      (scrollbarPadding + (scrollbarTrackHeight - thumbHeight) * (1 - scrollPosition))%js in
    ctx_fillStyle (CssRgba 128 128 128 ((1 # 10) * opacity)%js) ;;
    ctx_fillRect scrollbarX scrollbarPadding scrollbarWidth scrollbarTrackHeight ;;
    let isScrolled := (0 <? viewportY)%js in
    let baseOpacity : Q := if isScrolled then 1 # 2 else 3 # 10 in
    ctx_fillStyle (CssRgba 128 128 128 (baseOpacity * opacity)%js) ;;
    ctx_fillRect scrollbarX thumbY scrollbarWidth thumbHeight.

(** ** Canvas sizing (renderer.ts, lines 890-912) *)

Definition resize (cols rows : Z) : M unit :=
  emit (Enter (PResize cols rows)) ;;
  r ← get;
  let cssWidth : Q := (cols * FontMetrics.width (metrics r))%Z in
  let cssHeight : Q := (rows * FontMetrics.height (metrics r))%Z in
  emit (CanvasStyleSize cssWidth cssHeight) ;;
  canvas_setSize (cssWidth * devicePixelRatio r)%js (cssHeight * devicePixelRatio r)%js ;;
  emit (Scale (devicePixelRatio r) (devicePixelRatio r)) ;;
  emit (SetTextBaseline "alphabetic") ;;
  emit (SetTextAlign "left") ;;
  ctx_fillStyle (CssStr (background (theme r))) ;;
  ctx_fillRect 0 0 cssWidth cssHeight.

(** [isInSelection] (renderer.ts, lines 2511-2535). *)
Definition isInSelection (r : Renderer) (x y : Z) : bool :=
  match currentSelectionCoords r with
  | None => false
  | Some sel =>
    if startRow sel =? endRow sel then
      (y =? startRow sel) && (startCol sel <=? x) && (x <=? endCol sel)
    else if y =? startRow sel then startCol sel <=? x
    else if y =? endRow sel then x <=? endCol sel
    else if (startRow sel <? y) && (y <? endRow sel) then true
    else false
  end.

Section CellPainter.

(** The bit assigned to each style flag. *)
Context (CellFlags : CellFlagsT).

(** [cell.flags & CellFlags.X] as a condition. *)
Definition hasFlag (cell : GhosttyCell) (flag : CellFlagsT -> Z) : bool :=
  bitSet (flags cell) (flag CellFlags).

(** ** Cell painter (renderer.ts, lines 1171-1467) *)

Definition renderCellBackground (cell : GhosttyCell) (x y : Z) : M unit :=
  emit (Enter (PRenderCellBackground x y)) ;;
  r ← get;
  let cellX : Q := (x * FontMetrics.width (metrics r))%Z in
  let cellY : Q := (y * FontMetrics.height (metrics r))%Z in
  let cellWidth : Q := (FontMetrics.width (metrics r) * width cell)%Z in
  let isSelected := isInSelection r x y in
  if isSelected then
    ctx_fillStyle (CssStr (selectionBackground (theme r))) ;;
    ctx_fillRect cellX cellY cellWidth (FontMetrics.height (metrics r))
  else
    let '(bg_r', bg_g', bg_b') :=
      if hasFlag cell INVERSE then (fg_r cell, fg_g cell, fg_b cell)
      else (bg_r cell, bg_g cell, bg_b cell) in
    let isDefaultBg := (bg_r' =? 0) && (bg_g' =? 0) && (bg_b' =? 0) in
    when (negb isDefaultBg)
      (ctx_fillStyle (rgbToCSS bg_r' bg_g' bg_b') ;;
       ctx_fillRect cellX cellY cellWidth (FontMetrics.height (metrics r))).

(** The tail of [renderCellText] that every procedural branch repeats
    before its [return]: reset the alpha of a faint cell. *)
Definition resetFaint (cell : GhosttyCell) : M unit :=
  when (hasFlag cell FAINT) (ctx_globalAlpha 1).

Definition renderCellText (cell : GhosttyCell) (x y : Z) : M unit :=
  emit (Enter (PRenderCellText x y)) ;;
  r ← get;
  let cellX : Q := (x * FontMetrics.width (metrics r))%Z in
  let cellY : Q := (y * FontMetrics.height (metrics r))%Z in
  let cellWidth : Q := (FontMetrics.width (metrics r) * width cell)%Z in
  if hasFlag cell INVISIBLE then skip
  else
    let isSelected := isInSelection r x y in
    ctx_font (mkFont (hasFlag cell ITALIC) (hasFlag cell BOLD)
                     (fontSize r) (fontFamily r)) ;;
    (if isSelected then ctx_fillStyle (CssStr (selectionForeground (theme r)))
     else
       let '(fg_r', fg_g', fg_b') :=
         if hasFlag cell INVERSE then (bg_r cell, bg_g cell, bg_b cell)
         else (fg_r cell, fg_g cell, fg_b cell) in
       ctx_fillStyle (rgbToCSS fg_r' fg_g' fg_b')) ;;
    when (hasFlag cell FAINT) (ctx_globalAlpha (1 # 2)) ;;
    let textX := cellX in
    let textY := (cellY + FontMetrics.baseline (metrics r))%js in
    let codepoint := if codepoint cell =? 0 then 32 else codepoint cell in
    r1 ← get;
    let fgColor := fillStyle r1 in
    if isBoxDrawingChar codepoint then
      drawBoxChar codepoint cellX cellY fgColor ;; resetFaint cell
    else if isBlockElement codepoint then
      drawBlockChar codepoint cellX cellY fgColor ;; resetFaint cell
    else if isBraillePattern codepoint then
      drawBrailleChar codepoint cellX cellY fgColor ;; resetFaint cell
    else if isSextant codepoint then
      drawSextantChar codepoint cellX cellY fgColor ;; resetFaint cell
    else if isCornerTriangle codepoint then
      drawCornerTriangle codepoint cellX cellY fgColor ;; resetFaint cell
    else if isPowerlineChar codepoint then
      drawPowerlineChar codepoint cellX cellY fgColor ;; resetFaint cell
    else if isLegacyWedge codepoint then
      drawLegacyWedge codepoint cellX cellY fgColor ;; resetFaint cell
    else if isOctant codepoint then
      drawOctant codepoint cellX cellY fgColor ;; resetFaint cell
    else if isSmoothMosaic codepoint then
      drawSmoothMosaic codepoint cellX cellY fgColor ;; resetFaint cell
    else if isRoundedCorner codepoint then
      drawRoundedCorner codepoint cellX cellY fgColor ;; resetFaint cell
    else if isDashedLine codepoint then
      drawDashedLine codepoint cellX cellY fgColor ;; resetFaint cell
    else
      let char :=
        match currentBuffer r, 0 <? grapheme_len cell with
        | Some buf, true =>
          match getGraphemeString buf with
          | Some lookup => Grapheme (lookup y x)
          | None => FromCodePoint codepoint
          end
        | _, _ => FromCodePoint codepoint
        end in
      ctx_fillText char textX textY ;;
      resetFaint cell ;;
      (* underline *)
      when (hasFlag cell UNDERLINE)
        (let underlineY := (cellY + FontMetrics.baseline (metrics r) + 2)%js in
         r2 ← get;
         ctx_strokeStyle (fillStyle r2) ;;
         ctx_lineWidth 1 ;;
         ctx_beginPath ;;
         ctx_moveTo cellX underlineY ;;
         ctx_lineTo (cellX + cellWidth)%js underlineY ;;
         ctx_stroke) ;;
      (* strikethrough *)
      when (hasFlag cell STRIKETHROUGH)
        (let strikeY := (cellY + FontMetrics.height (metrics r) / 2)%js in
         r2 ← get;
         ctx_strokeStyle (fillStyle r2) ;;
         ctx_lineWidth 1 ;;
         ctx_beginPath ;;
         ctx_moveTo cellX strikeY ;;
         ctx_lineTo (cellX + cellWidth)%js strikeY ;;
         ctx_stroke) ;;
      (* OSC 8 hyperlink, underlined while hovered *)
      when ((0 <? hyperlink_id cell) && (hyperlink_id cell =? hoveredHyperlinkId r))
        (let underlineY := (cellY + FontMetrics.baseline (metrics r) + 2)%js in
         ctx_strokeStyle (CssStr "#4A90E2") ;;
         ctx_lineWidth 1 ;;
         ctx_beginPath ;;
         ctx_moveTo cellX underlineY ;;
         ctx_lineTo (cellX + cellWidth)%js underlineY ;;
         ctx_stroke) ;;
      (* regex link, underlined while hovered *)
      match hoveredLinkRange r with
      | None => skip
      | Some range =>
        let isInRange :=
          ((y =? startY range) && (startX range <=? x)
             && ((y <? endY range) || (x <=? endX range)))
          || ((startY range <? y) && (y <? endY range))
          || ((y =? endY range) && (x <=? endX range)
                && ((startY range <? y) || (startX range <=? x))) in
        when isInRange
          (let underlineY := (cellY + FontMetrics.baseline (metrics r) + 2)%js in
           ctx_strokeStyle (CssStr "#4A90E2") ;;
           ctx_lineWidth 1 ;;
           ctx_beginPath ;;
           ctx_moveTo cellX underlineY ;;
           ctx_lineTo (cellX + cellWidth)%js underlineY ;;
           ctx_stroke)
      end.

(** The cells of a line with their column index, as the loops
    [for (let x = 0; x < line.length; x++)] visit them. *)
Definition indexed (line : list GhosttyCell) : list (Z * GhosttyCell) :=
  zip (seqZ 0 (Z.of_nat (length line))) line.

Definition renderLine (line : list GhosttyCell) (y cols : Z) : M unit :=
  emit (Enter (PRenderLine y)) ;;
  r ← get;
  let lineY : Q := (y * FontMetrics.height (metrics r))%Z in
  ctx_fillStyle (CssStr (background (theme r))) ;;
  ctx_fillRect 0 lineY (cols * FontMetrics.width (metrics r))%Z
               (FontMetrics.height (metrics r)) ;;
  (* pass 1: backgrounds *)
  forM_ (indexed line) (fun '(x, cell) =>
    if width cell =? 0 then skip else renderCellBackground cell x y) ;;
  (* pass 2: text and decorations *)
  forM_ (indexed line) (fun '(x, cell) =>
    if width cell =? 0 then skip else renderCellText cell x y).

(** ** Frame orchestrator (renderer.ts, lines 921-1158) *)

(** Where a row of the viewport comes from. *)
Inductive LineSource :=
| FromBuffer (screenRow : Z)
| FromScrollback (scrollbackOffset : Z).

(** The fetch of the paint loop (lines 1106-1128): which call is made for
    row [y].  The scan for hovered links (lines 1019-1036) fetches its lines
    the same way. *)
Definition lineSource (viewportY : Q) (scrollbackProvider : option IScrollbackProvider)
    (scrollbackLength y : Z) : LineSource :=
  if (0 <? viewportY)%js then
    if (y <? viewportY)%js && bool_decide (is_Some scrollbackProvider) then
      let scrollbackOffset := scrollbackLength - JS.floor viewportY + y in
      FromScrollback scrollbackOffset
    else
      let screenRow := if (0 <? viewportY)%js then y - JS.floor viewportY else y in
      FromBuffer screenRow
  else FromBuffer y.

Definition fetchLine (buffer : IRenderable) (viewportY : Q)
    (scrollbackProvider : option IScrollbackProvider) (scrollbackLength y : Z)
    : option (list GhosttyCell) :=
  match lineSource viewportY scrollbackProvider scrollbackLength y with
  | FromBuffer screenRow => getLine buffer screenRow
  | FromScrollback scrollbackOffset =>
    p ← scrollbackProvider; getScrollbackLine p scrollbackOffset
  end.

(** Lines 937-956: full redraw requested by the buffer, canvas resize,
    viewport change.  Returns the updated [forceAll]. *)
Definition beginFrame (buffer : IRenderable) (forceAll : bool) (viewportY : Q) : M bool :=
  let dims := getDimensions buffer in
  let forceAll := if needsFullRedraw buffer is Some true then true else forceAll in
  r ← get;
  let needsResize :=
    negb (canvas_width r =? (cols dims * FontMetrics.width (metrics r))%Z * devicePixelRatio r)%js
    || negb (canvas_height r =? (rows dims * FontMetrics.height (metrics r))%Z * devicePixelRatio r)%js in
  when needsResize (resize (cols dims) (rows dims)) ;;
  let forceAll := if needsResize then true else forceAll in
  r ← get;
  if negb (viewportY =? lastViewportY r)%js then
    modify (set_lastViewportY viewportY) ;; mret true
  else mret forceAll.

(** Lines 958-979: repaint the cursor line, and the line the cursor left. *)
Definition redrawCursorLines (buffer : IRenderable) (forceAll : bool) : M unit :=
  let cursor := getCursor buffer in
  let dims := getDimensions buffer in
  r ← get;
  let last := lastCursorPosition r in
  let cursorMoved := negb (cur_x cursor =? last.1) || negb (cur_y cursor =? last.2) in
  when (cursorMoved || cursorBlink r)
    (when (negb forceAll && negb (isRowDirty buffer (cur_y cursor)))
       (if getLine buffer (cur_y cursor) is Some line
        then renderLine line (cur_y cursor) (cols dims) else skip) ;;
     when (cursorMoved && negb (last.2 =? cur_y cursor))
       (when (negb forceAll && negb (isRowDirty buffer last.2))
          (if getLine buffer last.2 is Some line
           then renderLine line last.2 (cols dims) else skip))).

(** The rows [a..b] of a loop [for (let row = a; row <= b; row++)]. *)
Definition rowRange (a b : Z) : gset Z := list_to_set (seqZ a (b - a + 1)).

(** Lines 981-1007: cache the selection, collect the rows to repaint for
    it, and clear the selection manager's dirty rows. *)
Definition markSelectionRows : M (gset Z) :=
  r ← get;
  let hasSel := if selectionManager r is Some m then hasSelection m else false in
  let coords :=
    if hasSel then getSelectionCoords <$> selectionManager r else None in
  modify (set_currentSelectionCoords coords) ;;
  let selectionRows : gset Z :=
    if coords is Some c then rowRange (startRow c) (endRow c) else ∅ in
  match selectionManager r with
  | Some m =>
    let dirty := getDirtySelectionRows m in
    if (0 <? size dirty)%nat then
      modify (set_selectionManager (Some (clearDirtySelectionRows m))) ;;
      emit SelectionClearDirtyRows ;;
      mret (selectionRows ∪ dirty)
    else mret selectionRows
  | None => mret selectionRows
  end.

(** Lines 1009-1073: rows whose link decoration changes with the hover. *)
Definition markLinkRows (buffer : IRenderable) (viewportY : Q)
    (scrollbackProvider : option IScrollbackProvider) (scrollbackLength : Z)
    : M (gset Z) :=
  let dims := getDimensions buffer in
  r ← get;
  let hyperlinkChanged := negb (hoveredHyperlinkId r =? previousHoveredHyperlinkId r) in
  let linkRangeChanged :=
    negb (bool_decide (hoveredLinkRange r = previousHoveredLinkRange r)) in
  let hasLink (y : Z) : bool :=
    if fetchLine buffer viewportY scrollbackProvider scrollbackLength y is Some line then
      existsb (fun cell =>
        (hyperlink_id cell =? hoveredHyperlinkId r)
        || (hyperlink_id cell =? previousHoveredHyperlinkId r)) line
    else false in
  let rows1 : gset Z :=
    if hyperlinkChanged then list_to_set (filter (fun y => hasLink y = true) (seqZ 0 (rows dims)))
    else ∅ in
  when hyperlinkChanged (modify (set_previousHoveredHyperlinkId (hoveredHyperlinkId r))) ;;
  let rangeRows (o : option LinkRange) : gset Z :=
    if o is Some range then rowRange (startY range) (endY range) else ∅ in
  let rows2 : gset Z :=
    if linkRangeChanged then rangeRows (previousHoveredLinkRange r) ∪ rangeRows (hoveredLinkRange r)
    else ∅ in
  when linkRangeChanged (modify (set_previousHoveredLinkRange (hoveredLinkRange r))) ;;
  mret (rows1 ∪ rows2).

(** Lines 1078-1096: the rows that need rendering, with their neighbours. *)
Definition rowsToRender (buffer : IRenderable) (forceAll : bool) (viewportY : Q)
    (selectionRows hyperlinkRows : gset Z) : gset Z :=
  let dims := getDimensions buffer in
  foldl (fun (acc : gset Z) y =>
    let needsRender :=
      if (0 <? viewportY)%js then true
      else forceAll || isRowDirty buffer y
           || bool_decide (y ∈ selectionRows) || bool_decide (y ∈ hyperlinkRows) in
    if needsRender then
      let acc := acc ∪ {[ y ]} in
      let acc := if 0 <? y then acc ∪ {[ y - 1 ]} else acc in
      if y <? rows dims - 1 then acc ∪ {[ y + 1 ]} else acc
    else acc) ∅ (seqZ 0 (rows dims)).

(** Lines 1098-1133: paint every row to render whose line exists (the
    local [anyLinesRendered] is written and never read). *)
Definition paintRows (buffer : IRenderable) (viewportY : Q)
    (scrollbackProvider : option IScrollbackProvider) (scrollbackLength : Z)
    (toRender : gset Z) : M unit :=
  let dims := getDimensions buffer in
  forM_ (seqZ 0 (rows dims)) (fun y =>
    if bool_decide (y ∈ toRender) then
      if fetchLine buffer viewportY scrollbackProvider scrollbackLength y is Some line
      then renderLine line y (cols dims) else skip
    else skip).

Definition render (buffer : IRenderable) (forceAll : bool) (viewportY : Q)
    (scrollbackProvider : option IScrollbackProvider) (scrollbarOpacity : Q) : M unit :=
  modify (set_currentBuffer (Some buffer)) ;;
  let cursor := getCursor buffer in
  let dims := getDimensions buffer in
  let scrollbackLength :=
    if scrollbackProvider is Some p then getScrollbackLength p else 0 in
  forceAll ← beginFrame buffer forceAll viewportY;
  redrawCursorLines buffer forceAll ;;
  selectionRows ← markSelectionRows;
  hyperlinkRows ← markLinkRows buffer viewportY scrollbackProvider scrollbackLength;
  paintRows buffer viewportY scrollbackProvider scrollbackLength
    (rowsToRender buffer forceAll viewportY selectionRows hyperlinkRows) ;;
  (* cursor *)
  r ← get;
  let shouldDrawCursor :=
    (viewportY =? 0)%js && cur_visible cursor && cursorVisible r
    && negb (cursorSuppressed r) in
  when shouldDrawCursor (renderCursor (cur_x cursor) (cur_y cursor)) ;;
  (* scrollbar *)
  when (bool_decide (is_Some scrollbackProvider) && (0 <? scrollbarOpacity)%js)
    (renderScrollbar viewportY scrollbackLength (rows dims) scrollbarOpacity) ;;
  modify (set_lastCursorPosition (cur_x cursor, cur_y cursor)) ;;
  (* always clear the dirty flags *)
  modify (set_currentBuffer (Some (clearDirty buffer))) ;;
  emit BufferClearDirty.

End CellPainter.

(** ** Font measurement (renderer.ts, lines 837-873 and 2406-2417)

    What [ctx.measureText('M')] reports on the host.  The bounding boxes
    are missing ([undefined]) in older browsers. *)
Record TextMetrics := mkTextMetrics {
  tm_width : Q;
  fontBoundingBoxAscent : option Q;
  fontBoundingBoxDescent : option Q;
  actualBoundingBoxAscent : option Q;
  actualBoundingBoxDescent : option Q
}.

(** [a ?? b ?? c] *)
Definition nullish (a b : option Q) (c : Q) : Q :=
  match a with
  | Some v => v
  | None => match b with Some v => v | None => c end
  end.

Section Host.

(** The text measurement of the host, for the font assigned to the
    context. *)
Context (measureText : Font -> TextMetrics).

Definition measureFont (r : Renderer) : FontMetrics.t :=
  let metrics := measureText (mkFont false false (fontSize r) (fontFamily r)) in
  let ascent :=
    nullish (fontBoundingBoxAscent metrics) (actualBoundingBoxAscent metrics)
            (fontSize r * (8 # 10))%js in
  let descent :=
    nullish (fontBoundingBoxDescent metrics) (actualBoundingBoxDescent metrics)
            (fontSize r * (2 # 10))%js in
  let width := JS.ceil (tm_width metrics) in
  let height := JS.ceil (ascent + descent)%js in
  let baseline := JS.ceil ascent in
  FontMetrics.mk width height baseline.

Definition remeasureFont (r : Renderer) : Renderer :=
  set_metrics (measureFont r) r.

Definition setFontSize (size : Q) (r : Renderer) : Renderer :=
  let r := set_fontSize size r in
  set_metrics (measureFont r) r.

Definition setFontFamily (family : string) (r : Renderer) : Renderer :=
  let r := set_fontFamily family r in
  set_metrics (measureFont r) r.

End Host.

(** ** Setters of the public API (renderer.ts, lines 2372-2586) *)

Definition suppressCursor (suppress : bool) (r : Renderer) : Renderer :=
  set_cursorSuppressed suppress r.

Definition setCursorStyle (style : CursorStyle) (r : Renderer) : Renderer :=
  set_cursorStyle style r.

Definition setSelectionManager (manager : SelectionManager) (r : Renderer) : Renderer :=
  set_selectionManager (Some manager) r.

Definition setHoveredHyperlinkId (hyperlinkId : Z) (r : Renderer) : Renderer :=
  set_hoveredHyperlinkId hyperlinkId r.

Definition setHoveredLinkRange (range : option LinkRange) (r : Renderer) : Renderer :=
  set_hoveredLinkRange range r.

Definition clear : M unit :=
  r ← get;
  ctx_fillStyle (CssStr (background (theme r))) ;;
  ctx_fillRect 0 0 (canvas_width r) (canvas_height r).

(** ** Cursor blinking (renderer.ts, lines 2346-2360, 2429-2437, 2584-2586)

    The renderer together with the interval timers of the host:
    [cursorBlinkInterval] is the handle the renderer keeps, [intervals] the
    handles that [window.setInterval] has given out and [clearInterval] has
    not cancelled.  Every interval that the renderer sets runs the same
    callback, which toggles [cursorVisible]. *)
Record Hosted := mkHosted {
  renderer : Renderer;
  cursorBlinkInterval : option positive;
  intervals : gset positive
}.

Definition startCursorBlink (b : Hosted) : Hosted :=
  let handle := fresh (intervals b) in
  mkHosted (renderer b) (Some handle) (intervals b ∪ {[ handle ]}).

Definition stopCursorBlink (b : Hosted) : Hosted :=
  let b :=
    match cursorBlinkInterval b with
    | Some handle => mkHosted (renderer b) None (intervals b ∖ {[ handle ]})
    | None => b
    end in
  mkHosted (set_cursorVisible true (renderer b)) (cursorBlinkInterval b) (intervals b).

Definition setCursorBlink (enabled : bool) (b : Hosted) : Hosted :=
  if enabled && negb (cursorBlink (renderer b)) then
    startCursorBlink
      (mkHosted (set_cursorBlink true (renderer b)) (cursorBlinkInterval b) (intervals b))
  else if negb enabled && cursorBlink (renderer b) then
    stopCursorBlink
      (mkHosted (set_cursorBlink false (renderer b)) (cursorBlinkInterval b) (intervals b))
  else b.

Definition dispose (b : Hosted) : Hosted := stopCursorBlink b.

(** The host fires the interval [handle]: if it is still running, its
    callback toggles [cursorVisible]. *)
Definition intervalFires (handle : positive) (b : Hosted) : Hosted :=
  if bool_decide (handle ∈ intervals b) then
    mkHosted (set_cursorVisible (negb (cursorVisible (renderer b))) (renderer b))
              (cursorBlinkInterval b) (intervals b)
  else b.

(** ** Construction (renderer.ts, lines 710-735 and 788-831)

    A theme as passed by the caller is an object with some of the colour
    keys; [{...DEFAULT_THEME, ...theme}] is the union of the two maps in
    which the caller's keys win. *)
Definition DEFAULT_THEME : gmap string string :=
  list_to_map [
    ("foreground", "#d4d4d4"); ("background", "#1e1e1e");
    ("cursor", "#ffffff"); ("cursorAccent", "#1e1e1e");
    ("selectionBackground", "#d4d4d4"); ("selectionForeground", "#1e1e1e");
    ("black", "#000000"); ("red", "#cd3131"); ("green", "#0dbc79");
    ("yellow", "#e5e510"); ("blue", "#2472c8"); ("magenta", "#bc3fbc");
    ("cyan", "#11a8cd"); ("white", "#e5e5e5");
    ("brightBlack", "#666666"); ("brightRed", "#f14c4c");
    ("brightGreen", "#23d18b"); ("brightYellow", "#f5f543");
    ("brightBlue", "#3b8eea"); ("brightMagenta", "#d670d6");
    ("brightCyan", "#29b8db"); ("brightWhite", "#ffffff") ]%string.

Definition mergeTheme (theme : gmap string string) : gmap string string :=
  theme ∪ DEFAULT_THEME.

(** The colours that the renderer reads from the merged theme. *)
Definition themeColors (merged : gmap string string) : ITheme :=
  mkTheme (merged !!! "foreground"%string) (merged !!! "background"%string)
          (merged !!! "cursor"%string) (merged !!! "cursorAccent"%string)
          (merged !!! "selectionBackground"%string)
          (merged !!! "selectionForeground"%string).

Record RendererOptions := mkOptions {
  opt_fontSize : option Q;
  opt_fontFamily : option string;
  opt_cursorStyle : option CursorStyle;
  opt_cursorBlink : option bool;
  opt_theme : option (gmap string string);
  opt_devicePixelRatio : option Q
}.

Definition setTheme (theme : gmap string string) (r : Renderer) : Renderer :=
  set_theme (themeColors (mergeTheme theme)) r.

(** The canvas handed to the constructor: its pixel size, and whether
    [getContext('2d')] yields a context. *)
Record HostCanvas := mkHostCanvas {
  host_width : Q; host_height : Q; has2dContext : bool
}.

Section Construction.
Context (measureText : Font -> TextMetrics) (windowDevicePixelRatio : option Q).

(** [new CanvasRenderer(canvas, options)]: the error that is thrown, or
    the renderer with the timers it has set. *)
Definition constructor (canvas : HostCanvas) (options : RendererOptions)
    : string + Hosted :=
  if negb (has2dContext canvas) then inl "Failed to get 2D rendering context"%string
  else
    let fontSize := default (15 : Q) (opt_fontSize options) in
    let fontFamily := default "monospace"%string (opt_fontFamily options) in
    let cursorStyle := default cs_block (opt_cursorStyle options) in
    let cursorBlink := default false (opt_cursorBlink options) in
    let theme := themeColors (mergeTheme (default ∅ (opt_theme options))) in
    let devicePixelRatio :=
      nullish (opt_devicePixelRatio options) windowDevicePixelRatio 1 in
    let r :=
      mkRenderer (host_width canvas) (host_height canvas)
        (CssStr "#000000") (CssStr "#000000") 1 1
        fontSize fontFamily cursorStyle cursorBlink theme devicePixelRatio
        (FontMetrics.mk 0 0 0)
        true (0, 0) 0 None None None 0 0 None None false in
    let r := set_metrics (measureFont measureText r) r in
    let b := mkHosted r None ∅ in
    inr (if cursorBlink then startCursorBlink b else b).

End Construction.

(** What can happen to a renderer after its construction: the calls of the
    public API, and the host firing an interval. *)
Inductive ApiCall :=
| CallRender (F : CellFlagsT) (buffer : IRenderable) (forceAll : bool) (viewportY : Q)
             (scrollbackProvider : option IScrollbackProvider) (scrollbarOpacity : Q)
| CallResize (cols rows : Z)
| CallClear
| CallRemeasureFont
| CallSetFontSize (size : Q)
| CallSetFontFamily (family : string)
| CallSetTheme (theme : gmap string string)
| CallSetCursorStyle (style : CursorStyle)
| CallSetCursorBlink (enabled : bool)
| CallSuppressCursor (suppress : bool)
| CallSetSelectionManager (manager : SelectionManager)
| CallSetHoveredHyperlinkId (hyperlinkId : Z)
| CallSetHoveredLinkRange (range : option LinkRange)
| CallDispose
| IntervalFires (handle : positive).

(** A method that only concerns the renderer object. *)
Definition onRenderer (f : Renderer -> Renderer) (b : Hosted) : Hosted :=
  mkHosted (f (renderer b)) (cursorBlinkInterval b) (intervals b).

Section Api.
Context (measureText : Font -> TextMetrics).

Definition apiStep (b : Hosted) (c : ApiCall) : Hosted :=
  match c with
  | CallRender F buffer forceAll viewportY scrollbackProvider scrollbarOpacity =>
    onRenderer (after (render F buffer forceAll viewportY scrollbackProvider
                              scrollbarOpacity)) b
  | CallResize cols rows => onRenderer (after (resize cols rows)) b
  | CallClear => onRenderer (after clear) b
  | CallRemeasureFont => onRenderer (remeasureFont measureText) b
  | CallSetFontSize size => onRenderer (setFontSize measureText size) b
  | CallSetFontFamily family => onRenderer (setFontFamily measureText family) b
  | CallSetTheme theme => onRenderer (setTheme theme) b
  | CallSetCursorStyle style => onRenderer (setCursorStyle style) b
  | CallSetCursorBlink enabled => setCursorBlink enabled b
  | CallSuppressCursor suppress => onRenderer (suppressCursor suppress) b
  | CallSetSelectionManager manager => onRenderer (setSelectionManager manager) b
  | CallSetHoveredHyperlinkId hyperlinkId => onRenderer (setHoveredHyperlinkId hyperlinkId) b
  | CallSetHoveredLinkRange range => onRenderer (setHoveredLinkRange range) b
  | CallDispose => dispose b
  | IntervalFires handle => intervalFires handle b
  end.

Definition apiRun (calls : list ApiCall) (b : Hosted) : Hosted :=
  foldl apiStep b calls.

End Api.

(** ** Vocabulary of the specifications *)

(** [sat P m]: every event that [m] emits satisfies [P]. *)
Definition sat {A} (P : Event -> Prop) (m : M A) : Prop :=
  forall r, Forall P (events m r).

(** [keeps f m]: [m] leaves the observation [f] of the renderer unchanged. *)
Definition keeps {A B} (f : Renderer -> B) (m : M A) : Prop :=
  forall r, f (after m r) = f r.

(** [post P m Q]: started in a state satisfying [P], [m] ends in a state
    satisfying [Q]. *)
Definition post {A} (P : Renderer -> Prop) (m : M A) (Q : Renderer -> Prop) : Prop :=
  forall r, P r -> Q (after m r).

(** [emits e m]: [m] emits the event [e], whatever the state. *)
Definition emits {A} (e : Event) (m : M A) : Prop :=
  forall r, In e (events m r).

(** [tailSpec T m]: the trace of [m] ends with events [suf] such that
    [T r' suf] holds of the final state [r']. *)
Definition tailSpec {A} (T : Renderer -> list Event -> Prop) (m : M A) : Prop :=
  forall r, exists pre suf, events m r = pre ++ suf /\ T (after m r) suf.

(** [triple P m E Q]: started in a state satisfying [P], [m] emits only
    events satisfying [E] and ends in a state satisfying [Q]. *)
Definition triple {A} (P : Renderer -> Prop) (m : M A) (E : Event -> Prop)
    (Q : Renderer -> Prop) : Prop :=
  forall r, P r -> Forall E (events m r) /\ Q (after m r).

(** Events of the procedural glyph engine: markers of its own procedures,
    assignments of context properties, rectangles and paths. *)
Definition glyphEvent (e : Event) : bool :=
  match e with
  | Enter (PDrawBoxChar _) | Enter (PDrawBlockChar _) | Enter (PDrawBrailleChar _)
  | Enter (PDrawSextantChar _) | Enter (PDrawCornerTriangle _)
  | Enter (PDrawPowerlineChar _) | Enter (PDrawLegacyWedge _)
  | Enter (PDrawOctant _) | Enter (PDrawSmoothMosaic _)
  | Enter (PDrawRoundedCorner _) | Enter (PDrawDashedLine _)
  | SetFillStyle _ | SetStrokeStyle _ | SetGlobalAlpha _ | SetLineWidth _
  | SetLineCap _ | FillRect _ _ _ _ | BeginPath | MoveTo _ _ | LineTo _ _
  | Arc _ _ _ _ _ | ClosePath | Fill | Stroke => true
  | _ => false
  end.

(** Events of the cell painter: those of the glyph engine, its own markers,
    the font and the host text call. *)
Definition cellEvent (e : Event) : bool :=
  match e with
  | Enter (PRenderLine _) | Enter (PRenderCellBackground _ _)
  | Enter (PRenderCellText _ _) | SetFont _ | FillText _ _ _ => true
  | _ => glyphEvent e
  end.

Definition isCursorEnter (e : Event) : bool :=
  match e with Enter (PRenderCursor _ _) => true | _ => false end.

Definition isRenderLineEnter (e : Event) : bool :=
  match e with Enter (PRenderLine _) => true | _ => false end.

Definition isSpecialisedEnter (e : Event) : bool :=
  match e with
  | Enter (PDrawRoundedCorner _) | Enter (PDrawDashedLine _) => true
  | _ => false
  end.

(** The codepoints that the text pass hands to the glyph engine. *)
Definition isProcedural (cp : Z) : bool :=
  isBoxDrawingChar cp || isBlockElement cp || isBraillePattern cp || isSextant cp
  || isCornerTriangle cp || isPowerlineChar cp || isLegacyWedge cp || isOctant cp
  || isSmoothMosaic cp.

Definition isStroke (e : Event) : bool :=
  match e with Stroke => true | _ => false end.

(** An observation of the renderer that the style setters of the context
    leave alone. *)
Record CtxFree {B} (f : Renderer -> B) : Prop := mkCtxFree {
  free_fillStyle : forall c r, f (set_fillStyle c r) = f r;
  free_strokeStyle : forall c r, f (set_strokeStyle c r) = f r;
  free_lineWidth : forall w r, f (set_lineWidth w r) = f r
}.

(** ... and that [globalAlpha] leaves alone as well. *)
Record PaintFree {B} (f : Renderer -> B) : Prop := mkPaintFree {
  paint_ctx : CtxFree f;
  free_globalAlpha : forall a r, f (set_globalAlpha a r) = f r
}.

(** The blink state and the suppression flag are not written by a frame. *)
Definition blinkState (r : Renderer) : bool * bool :=
  (cursorVisible r, cursorSuppressed r).

(** No dirty selection row is left in the selection manager, if there is one. *)
Definition selectionClean (r : Renderer) : Prop :=
  forall m, selectionManager r = Some m -> getDirtySelectionRows m = ∅.

(** What a frame can see of the canvas, its context and the cursor flags. *)
Definition surface (r : Renderer) : Q * Q * Css * Css * Q * Q :=
  (canvas_width r, canvas_height r, fillStyle r, strokeStyle r,
   globalAlpha r, lineWidth r).

Definition frameView (r : Renderer) : (Q * Q * Css * Css * Q * Q) * (bool * bool) :=
  (surface r, blinkState r).

(** The calls on the collaborators, which are not calls on the surface. *)
Definition isCollaboratorCall (e : Event) : Prop :=
  e = SelectionClearDirtyRows \/ e = BufferClearDirty.

(** The alpha of a faint cell is reset at the end of its branch; before
    that reset the alpha is 1 unless the cell is faint. *)
Definition alphaIsOne (r : Renderer) : Prop := (globalAlpha r == 1)%Q.
Definition faintOrOpaque (F : CellFlagsT) (cell : GhosttyCell) (r : Renderer) : Prop :=
  hasFlag F cell FAINT = true \/ alphaIsOne r.

(** [r] shows the same surface and cursor flags as [r0]. *)
Definition sameView (r0 r : Renderer) : Prop := frameView r = frameView r0.

(** The geometry of the spec, in CSS pixels, for a canvas of pixel height
    [canvasPixelHeight] under device pixel ratio [dpr]. *)
Definition specTrackHeight (canvasPixelHeight dpr : Q) : Q :=
  canvasPixelHeight / dpr - 8.
Definition specThumbHeight (visibleRows scrollbackLength : Z) (trackHeight : Q) : Q :=
  Qmax 20 (inject_Z visibleRows / inject_Z (scrollbackLength + visibleRows) * trackHeight).
Definition specThumbTop (trackHeight thumbHeight viewportY : Q) (scrollbackLength : Z) : Q :=
  4 + (trackHeight - thumbHeight) * (1 - viewportY / inject_Z scrollbackLength).

(** The tests that [renderCellText] tries, in its order, before those for
    rounded corners and dashed lines. *)
Definition dispatchTests : list (Z -> bool) :=
  [ isBoxDrawingChar; isBlockElement; isBraillePattern; isSextant;
    isCornerTriangle; isPowerlineChar; isLegacyWedge; isOctant; isSmoothMosaic ].

(** The number whose binary digits are [bits], lowest digit first. *)
Definition bitsValue (bits : list bool) : Z :=
  foldr (fun (b : bool) acc => (if b then 1 else 0) + 2 * acc) 0 bits.

(** A filled rectangle lies within the box at [(x0, y0)] of size [w] x [h]. *)
Definition rectWithin (x0 y0 w h : Q) (e : Event) : Prop :=
  match e with
  | FillRect x y rw rh =>
    (x0 <= x /\ y0 <= y /\ 0 <= rw /\ 0 <= rh
     /\ x + rw <= x0 + w /\ y + rh <= y0 + h)%Q
  | _ => True
  end.

(** Kinds of events, for counting. *)
Definition isFillRect (e : Event) : bool :=
  match e with FillRect _ _ _ _ => true | _ => false end.

Definition isArc (e : Event) : bool :=
  match e with Arc _ _ _ _ _ => true | _ => false end.

(** All rectangles have the size [w] x [h]. *)
Definition rectSized (w h : Q) (e : Event) : Prop :=
  match e with FillRect _ _ rw rh => rw = w /\ rh = h | _ => True end.

(** A text is written with its origin on the left edge of the box and its
    baseline within it. *)
Definition baselineWithin (x0 y0 h : Q) (e : Event) : Prop :=
  match e with
  | FillText _ x y => (x == x0 /\ y0 <= y /\ y <= y0 + h)%Q
  | _ => True
  end.

(** The calls of the two cell procedures. *)
Definition isCellEnter (e : Event) : bool :=
  match e with
  | Enter (PRenderCellBackground _ _) | Enter (PRenderCellText _ _) => true
  | _ => false
  end.

(** The canvas has the pixel size of a grid of [dims] cells. *)
Definition canvasFits (dims : Dims) (r : Renderer) : bool :=
  (canvas_width r =? (cols dims * FontMetrics.width (metrics r))%Z * devicePixelRatio r)%js
  && (canvas_height r =? (rows dims * FontMetrics.height (metrics r))%Z * devicePixelRatio r)%js.

(** The options and inputs of the renderer that only its public setters
    write. *)
Definition settings (r : Renderer) :=
  (fontSize r, fontFamily r, cursorStyle r, cursorBlink r, theme r,
   devicePixelRatio r, metrics r, cursorVisible r, cursorSuppressed r,
   hoveredHyperlinkId r, hoveredLinkRange r).

(** The state kept across frames describes the frame just painted. *)
Definition frameSynced (buffer : IRenderable) (viewportY : Q) (r : Renderer) : Prop :=
  canvasFits (getDimensions buffer) r = true
  /\ (viewportY =? lastViewportY r)%js = true
  /\ lastCursorPosition r = (cur_x (getCursor buffer), cur_y (getCursor buffer))
  /\ previousHoveredHyperlinkId r = hoveredHyperlinkId r
  /\ previousHoveredLinkRange r = hoveredLinkRange r.

(** The hyperlink under the pointer, now and at the previous frame. *)
Definition hoverIds (r : Renderer) : Z * Z :=
  (hoveredHyperlinkId r, previousHoveredHyperlinkId r).

(** The interval the renderer holds is the only one running, and the
    cursor is shown whenever none is. *)
Definition blinkInvariant (b : Hosted) : Prop :=
  match cursorBlinkInterval b with
  | Some handle => intervals b = {[ handle ]} /\ cursorBlink (renderer b) = true
  | None => intervals b = ∅ /\ cursorVisible (renderer b) = true
  end.

(** The metrics are those that the host measures for the configured
    font. *)
Definition metricsMeasured (measureText : Font -> TextMetrics) (r : Renderer) : Prop :=
  metrics r = measureFont measureText r.

(** ** Concrete objects for the runs below *)

Module Sample.

(** An assignment of one bit to each style flag, for the concrete runs: BOLD
    = 1, ITALIC = 2, UNDERLINE = 4, STRIKETHROUGH = 8, INVERSE = 16,
    INVISIBLE = 32, BLINK = 64, FAINT = 128.  The general theorems hold for
    every assignment. *)
Definition CellFlags : CellFlagsT := mkCellFlags 1 2 4 8 16 32 64 128.

Definition theme : ITheme :=
  mkTheme "#d4d4d4" "#1e1e1e" "#ffffff" "#1e1e1e" "#d4d4d4" "#1e1e1e".

(** A renderer with a 9 x 17 cell (baseline 14), device pixel ratio 1,
    a steady block cursor, no selection manager, and a canvas of the
    given pixel size. *)
Definition renderer (canvasW canvasH : Z) : Renderer :=
  mkRenderer canvasW canvasH (CssStr "#000000") (CssStr "#000000") 1 1
    15 "monospace" cs_block false theme 1 (FontMetrics.mk 9 17 14)
    true (0, 0) 0 None None None 0 0 None None false.

(** A white-on-default cell of width 1. *)
Definition cell (codepoint flags : Z) : GhosttyCell :=
  mkCell codepoint 255 255 255 0 0 0 flags 1 0 0.

End Sample.

Module SampleFrame.

(** A 3-row buffer of one-cell lines, clean, cursor at the origin. *)
Definition buffer : IRenderable :=
  mkBuffer (fun y => if (0 <=? y) && (y <? 3) then Some [Sample.cell 65 0] else None)
           (mkCursor 0 0 true) (mkDims 1 3) ∅ None None.

(** Twenty lines of scrollback. *)
Definition scrollback : IScrollbackProvider :=
  mkScrollback (fun o => if (0 <=? o) && (o <? 20) then Some [Sample.cell 66 0] else None)
               20.

(** A buffer of zero columns and zero rows, cursor visible at the origin. *)
Definition emptyBuffer : IRenderable :=
  mkBuffer (fun _ => None) (mkCursor 0 0 true) (mkDims 0 0) ∅ None None.

(** The same with the cursor hidden. *)
Definition hiddenCursorBuffer : IRenderable :=
  mkBuffer (fun _ => None) (mkCursor 0 0 false) (mkDims 0 0) ∅ None None.

End SampleFrame.

Module SampleHost.

(** A host whose font is 0.6 em wide with an ascent of 0.9 em and a
    descent of 0.25 em, and which reports the font bounding box. *)
Definition measureText (f : Font) : TextMetrics :=
  mkTextMetrics (font_size f * (6 # 10))%js
                (Some (font_size f * (9 # 10))%js) (Some (font_size f * (25 # 100))%js)
                None None.

Definition canvas : HostCanvas := mkHostCanvas 300 150 true.

Definition blinkingOptions : RendererOptions :=
  mkOptions None None None (Some true) None (Some (2 : Q)).

(** A cell of the hyperlink 7, and a 3-row buffer that shows it on row 1. *)
Definition linkCell : GhosttyCell := mkCell 65 255 255 255 0 0 0 0 1 7 0.

Definition linkBuffer : IRenderable :=
  mkBuffer (fun y => if y =? 1 then Some [linkCell]
                     else if (0 <=? y) && (y <? 3) then Some [Sample.cell 65 0] else None)
           (mkCursor 0 0 true) (mkDims 1 3) ∅ None None.

End SampleHost.

(** ** Facts about the numbers *)

Module JSFacts.

Lemma add_ok a b : (JS.add a b == a + b)%Q.
Proof. apply Qred_correct. Qed.
Lemma sub_ok a b : (JS.sub a b == a - b)%Q.
Proof. apply Qred_correct. Qed.
Lemma mul_ok a b : (JS.mul a b == a * b)%Q.
Proof. apply Qred_correct. Qed.
Lemma div_ok a b : (JS.div a b == a / b)%Q.
Proof. apply Qred_correct. Qed.

Lemma ltb_lt a b : JS.ltb a b = true <-> (a < b)%Q.
Proof.
  unfold JS.ltb. rewrite negb_true_iff. split.
  - intros H. apply Qnot_le_lt. intros Hle.
    apply Qle_bool_iff in Hle. congruence.
  - intros H. destruct (Qle_bool b a) eqn:E; [|reflexivity].
    apply Qle_bool_iff in E. exfalso. exact (Qlt_not_le _ _ H E).
Qed.

Lemma leb_le a b : JS.leb a b = true <-> (a <= b)%Q.
Proof. apply Qle_bool_iff. Qed.

Lemma max_ok a b : (JS.max a b == Qmax a b)%Q.
Proof.
  unfold JS.max. destruct (JS.ltb a b) eqn:E.
  - apply ltb_lt in E. symmetry. apply Q.max_r. apply Qlt_le_weak, E.
  - symmetry. apply Q.max_l. apply Qnot_lt_le. intros H.
    apply ltb_lt in H. congruence.
Qed.

End JSFacts.

(** ** Reasoning about the monad *)

Section MonadLaws.
Context {A B : Type}.
Implicit Types (m : M A) (k : A -> M B) (r : Renderer).

Lemma events_bind m k r :
  events (m ≫= k) r = events m r ++ events (k (result m r)) (after m r).
Proof.
  unfold events, result, after, mbind, M_bind.
  destruct (m r) as [[a r1] l1]; simpl.
  destruct (k a r1) as [[b r2] l2]; reflexivity.
Qed.

Lemma after_bind m k r :
  after (m ≫= k) r = after (k (result m r)) (after m r).
Proof.
  unfold result, after, mbind, M_bind.
  destruct (m r) as [[a r1] l1]; simpl.
  destruct (k a r1) as [[b r2] l2]; reflexivity.
Qed.

End MonadLaws.

Section Rules.
Context (P : Event -> Prop) {C : Type} (f : Renderer -> C).

Lemma sat_bind {A B} (m : M A) (k : A -> M B) :
  sat P m -> (forall a, sat P (k a)) -> sat P (m ≫= k).
Proof.
  intros Hm Hk r. rewrite events_bind. apply Forall_app. split; [apply Hm | apply Hk].
Qed.

Lemma sat_ret {A} (a : A) : sat P (mret a).
Proof. intros r. constructor. Qed.

Lemma sat_get : sat P get.
Proof. intros r. constructor. Qed.

Lemma sat_modify g : sat P (modify g).
Proof. intros r. constructor. Qed.

Lemma sat_emit e : P e -> sat P (emit e).
Proof. intros H r. repeat constructor. exact H. Qed.

Lemma sat_when b (m : M unit) : sat P m -> sat P (when b m).
Proof. intros H. destruct b; [exact H | apply (sat_ret tt)]. Qed.

Lemma sat_forM {A} (l : list A) (body : A -> M unit) :
  (forall a, sat P (body a)) -> sat P (forM_ l body).
Proof.
  intros H. induction l as [|a l IH]; simpl.
  - apply (sat_ret tt).
  - apply sat_bind; [apply H | intros _; exact IH].
Qed.

Lemma keeps_bind {A B} (m : M A) (k : A -> M B) :
  keeps f m -> (forall a, keeps f (k a)) -> keeps f (m ≫= k).
Proof. intros Hm Hk r. rewrite after_bind, Hk. apply Hm. Qed.

Lemma keeps_ret {A} (a : A) : keeps f (mret a).
Proof. intros r. reflexivity. Qed.

Lemma keeps_get : keeps f get.
Proof. intros r. reflexivity. Qed.

Lemma keeps_emit e : keeps f (emit e).
Proof. intros r. reflexivity. Qed.

Lemma keeps_modify g : (forall r, f (g r) = f r) -> keeps f (modify g).
Proof. intros H r. apply H. Qed.

Lemma keeps_when b (m : M unit) : keeps f m -> keeps f (when b m).
Proof. intros H. destruct b; [exact H | apply (keeps_ret tt)]. Qed.

Lemma keeps_forM {A} (l : list A) (body : A -> M unit) :
  (forall a, keeps f (body a)) -> keeps f (forM_ l body).
Proof.
  intros H. induction l as [|a l IH]; simpl.
  - apply (keeps_ret tt).
  - apply keeps_bind; [apply H | intros _; exact IH].
Qed.
End Rules.

Lemma sat_mono {A} (P Q : Event -> Prop) (m : M A) :
  (forall e, P e -> Q e) -> sat P m -> sat Q m.
Proof. intros H Hm r. eapply Forall_impl; [apply Hm | exact H]. Qed.

Ltac unfold_ctx :=
  unfold ctx_fillStyle, ctx_strokeStyle, ctx_globalAlpha, ctx_lineWidth,
    ctx_lineCap, ctx_font, ctx_fillRect, ctx_fillText, ctx_beginPath,
    ctx_moveTo, ctx_lineTo, ctx_arc, ctx_closePath, ctx_fill, ctx_stroke,
    canvas_setSize, skip.

(** One step of a syntax-directed proof of [sat P m]; [tac] closes the
    obligation [P e] of an emitted event. *)
Ltac sat_step tac :=
  lazymatch goal with
  | |- sat _ (_ ≫= _) => apply sat_bind; [| intros ?]
  | |- sat _ (mret _) => apply sat_ret
  | |- sat _ get => apply sat_get
  | |- sat _ (modify _) => apply sat_modify
  | |- sat _ (emit _) => apply sat_emit; tac
  | |- sat _ (when _ _) => apply sat_when
  | |- sat _ (forM_ _ _) => apply sat_forM; intros ?
  | |- sat _ (if ?b then _ else _) => destruct b
  | |- sat _ (match ?x with _ => _ end) => destruct x
  end.

Ltac sat_auto tac := unfold_ctx; repeat (cbv zeta; sat_step tac).

(** The same for [keeps f m]; [tac] shows that a setter does not touch [f]. *)
Ltac keeps_step tac :=
  lazymatch goal with
  | |- keeps _ (_ ≫= _) => apply keeps_bind; [| intros ?]
  | |- keeps _ (mret _) => apply keeps_ret
  | |- keeps _ get => apply keeps_get
  | |- keeps _ (modify _) => apply keeps_modify; tac
  | |- keeps _ (emit _) => apply keeps_emit
  | |- keeps _ (when _ _) => apply keeps_when
  | |- keeps _ (forM_ _ _) => apply keeps_forM; intros ?
  | |- keeps _ (if ?b then _ else _) => destruct b
  | |- keeps _ (match ?x with _ => _ end) => destruct x
  end.

Ltac keeps_auto tac := unfold_ctx; repeat (cbv zeta; keeps_step tac).

(** ** What the glyph procedures emit and touch *)

Lemma glyphEvent_cellEvent e : glyphEvent e = true -> cellEvent e = true.
Proof. destruct e as [[]| | | | | | | | | | | | | | | | | | | | | |]; simpl; congruence. Qed.

Section GlyphFacts.
Context (codepoint : Z) (cellX cellY : Q) (fgColor : Css).
Local Abbreviation G := (fun e => glyphEvent e = true).

Ltac glyph := sat_auto ltac:(reflexivity).

Lemma drawBoxChar_sat : sat G (drawBoxChar codepoint cellX cellY fgColor).
Proof. unfold drawBoxChar. glyph. Qed.
Lemma drawBlockChar_sat : sat G (drawBlockChar codepoint cellX cellY fgColor).
Proof. unfold drawBlockChar. glyph. Qed.
Lemma drawBrailleChar_sat : sat G (drawBrailleChar codepoint cellX cellY fgColor).
Proof. unfold drawBrailleChar. glyph. Qed.
Lemma drawSextantChar_sat : sat G (drawSextantChar codepoint cellX cellY fgColor).
Proof. unfold drawSextantChar. glyph. Qed.
Lemma drawCornerTriangle_sat : sat G (drawCornerTriangle codepoint cellX cellY fgColor).
Proof. unfold drawCornerTriangle. glyph. Qed.
Lemma drawPowerlineChar_sat : sat G (drawPowerlineChar codepoint cellX cellY fgColor).
Proof. unfold drawPowerlineChar. glyph. Qed.
Lemma drawLegacyWedge_sat : sat G (drawLegacyWedge codepoint cellX cellY fgColor).
Proof. unfold drawLegacyWedge. glyph. Qed.
Lemma drawOctant_sat : sat G (drawOctant codepoint cellX cellY fgColor).
Proof. unfold drawOctant. glyph. Qed.
Lemma drawSmoothMosaic_sat : sat G (drawSmoothMosaic codepoint cellX cellY fgColor).
Proof. unfold drawSmoothMosaic. glyph. Qed.
Lemma drawRoundedCorner_sat : sat G (drawRoundedCorner codepoint cellX cellY fgColor).
Proof. unfold drawRoundedCorner. glyph. Qed.
Lemma drawDashedLine_sat : sat G (drawDashedLine codepoint cellX cellY fgColor).
Proof. unfold drawDashedLine. glyph. Qed.
End GlyphFacts.

Ltac free_tac :=
  intros;
  match goal with
  | H : CtxFree _ |- _ =>
    first [apply (free_fillStyle _ H) | apply (free_strokeStyle _ H)
          | apply (free_lineWidth _ H)]
  | H : PaintFree _ |- _ =>
    first [apply (free_fillStyle _ (paint_ctx _ H))
          | apply (free_strokeStyle _ (paint_ctx _ H))
          | apply (free_lineWidth _ (paint_ctx _ H))
          | apply (free_globalAlpha _ H)]
  end.

Lemma globalAlpha_CtxFree : CtxFree globalAlpha.
Proof. split; reflexivity. Qed.

Section GlyphFrame.
Context {B : Type} (f : Renderer -> B) (Hf : CtxFree f).
Context (codepoint : Z) (cellX cellY : Q) (fgColor : Css).

Ltac frame := keeps_auto ltac:(free_tac).

Lemma drawBoxChar_keeps : keeps f (drawBoxChar codepoint cellX cellY fgColor).
Proof. unfold drawBoxChar. frame. Qed.
Lemma drawBrailleChar_keeps : keeps f (drawBrailleChar codepoint cellX cellY fgColor).
Proof. unfold drawBrailleChar. frame. Qed.
Lemma drawSextantChar_keeps : keeps f (drawSextantChar codepoint cellX cellY fgColor).
Proof. unfold drawSextantChar. frame. Qed.
Lemma drawCornerTriangle_keeps : keeps f (drawCornerTriangle codepoint cellX cellY fgColor).
Proof. unfold drawCornerTriangle. frame. Qed.
Lemma drawPowerlineChar_keeps : keeps f (drawPowerlineChar codepoint cellX cellY fgColor).
Proof. unfold drawPowerlineChar. frame. Qed.
Lemma drawLegacyWedge_keeps : keeps f (drawLegacyWedge codepoint cellX cellY fgColor).
Proof. unfold drawLegacyWedge. frame. Qed.
Lemma drawOctant_keeps : keeps f (drawOctant codepoint cellX cellY fgColor).
Proof. unfold drawOctant. frame. Qed.
Lemma drawSmoothMosaic_keeps : keeps f (drawSmoothMosaic codepoint cellX cellY fgColor).
Proof. unfold drawSmoothMosaic. frame. Qed.
Lemma drawRoundedCorner_keeps : keeps f (drawRoundedCorner codepoint cellX cellY fgColor).
Proof. unfold drawRoundedCorner. frame. Qed.
Lemma drawDashedLine_keeps : keeps f (drawDashedLine codepoint cellX cellY fgColor).
Proof. unfold drawDashedLine. frame. Qed.
End GlyphFrame.

Lemma drawBlockChar_keeps {B} (f : Renderer -> B) codepoint cellX cellY fgColor :
  PaintFree f -> keeps f (drawBlockChar codepoint cellX cellY fgColor).
Proof. intros Hf. unfold drawBlockChar. keeps_auto ltac:(free_tac). Qed.

(** ** What the cell painter emits and touches *)

Local Abbreviation isCellEvent := (fun e => cellEvent e = true).

Ltac glyph_sat :=
  eapply sat_mono; [exact glyphEvent_cellEvent|];
  lazymatch goal with
  | |- sat _ (drawBoxChar _ _ _ _) => apply drawBoxChar_sat
  | |- sat _ (drawBlockChar _ _ _ _) => apply drawBlockChar_sat
  | |- sat _ (drawBrailleChar _ _ _ _) => apply drawBrailleChar_sat
  | |- sat _ (drawSextantChar _ _ _ _) => apply drawSextantChar_sat
  | |- sat _ (drawCornerTriangle _ _ _ _) => apply drawCornerTriangle_sat
  | |- sat _ (drawPowerlineChar _ _ _ _) => apply drawPowerlineChar_sat
  | |- sat _ (drawLegacyWedge _ _ _ _) => apply drawLegacyWedge_sat
  | |- sat _ (drawOctant _ _ _ _) => apply drawOctant_sat
  | |- sat _ (drawSmoothMosaic _ _ _ _) => apply drawSmoothMosaic_sat
  | |- sat _ (drawRoundedCorner _ _ _ _) => apply drawRoundedCorner_sat
  | |- sat _ (drawDashedLine _ _ _ _) => apply drawDashedLine_sat
  end.

Ltac cell_sat :=
  unfold_ctx; repeat (cbv zeta; first [sat_step ltac:(reflexivity) | glyph_sat]).

Ltac glyph_keeps :=
  lazymatch goal with
  | |- keeps _ (drawBoxChar _ _ _ _) =>
    apply drawBoxChar_keeps; match goal with H : PaintFree _ |- _ => exact (paint_ctx _ H) end
  | |- keeps _ (drawBlockChar _ _ _ _) => apply drawBlockChar_keeps; assumption
  | |- keeps _ (drawBrailleChar _ _ _ _) =>
    apply drawBrailleChar_keeps; match goal with H : PaintFree _ |- _ => exact (paint_ctx _ H) end
  | |- keeps _ (drawSextantChar _ _ _ _) =>
    apply drawSextantChar_keeps; match goal with H : PaintFree _ |- _ => exact (paint_ctx _ H) end
  | |- keeps _ (drawCornerTriangle _ _ _ _) =>
    apply drawCornerTriangle_keeps; match goal with H : PaintFree _ |- _ => exact (paint_ctx _ H) end
  | |- keeps _ (drawPowerlineChar _ _ _ _) =>
    apply drawPowerlineChar_keeps; match goal with H : PaintFree _ |- _ => exact (paint_ctx _ H) end
  | |- keeps _ (drawLegacyWedge _ _ _ _) =>
    apply drawLegacyWedge_keeps; match goal with H : PaintFree _ |- _ => exact (paint_ctx _ H) end
  | |- keeps _ (drawOctant _ _ _ _) =>
    apply drawOctant_keeps; match goal with H : PaintFree _ |- _ => exact (paint_ctx _ H) end
  | |- keeps _ (drawSmoothMosaic _ _ _ _) =>
    apply drawSmoothMosaic_keeps; match goal with H : PaintFree _ |- _ => exact (paint_ctx _ H) end
  | |- keeps _ (drawRoundedCorner _ _ _ _) =>
    apply drawRoundedCorner_keeps; match goal with H : PaintFree _ |- _ => exact (paint_ctx _ H) end
  | |- keeps _ (drawDashedLine _ _ _ _) =>
    apply drawDashedLine_keeps; match goal with H : PaintFree _ |- _ => exact (paint_ctx _ H) end
  end.

Ltac cell_keeps :=
  unfold_ctx; repeat (cbv zeta; first [keeps_step ltac:(free_tac) | glyph_keeps]).

Section CellFacts.
Context (F : CellFlagsT).

Lemma renderCellBackground_sat cell x y :
  sat isCellEvent (renderCellBackground F cell x y).
Proof. unfold renderCellBackground. cell_sat. Qed.

Lemma renderCellText_sat cell x y :
  sat isCellEvent (renderCellText F cell x y).
Proof. unfold renderCellText, resetFaint. cell_sat. Qed.

Lemma renderLine_sat line y cols :
  sat isCellEvent (renderLine F line y cols).
Proof.
  unfold renderLine.
  unfold_ctx.
  repeat (cbv zeta; first
    [ sat_step ltac:(reflexivity)
    | lazymatch goal with
      | |- sat _ (renderCellBackground _ _ _ _) => apply renderCellBackground_sat
      | |- sat _ (renderCellText _ _ _ _) => apply renderCellText_sat
      end ]).
Qed.

Context {B : Type} (f : Renderer -> B) (Hf : PaintFree f).

Lemma renderCellBackground_keeps cell x y :
  keeps f (renderCellBackground F cell x y).
Proof. unfold renderCellBackground. cell_keeps. Qed.

Lemma renderCellText_keeps cell x y :
  keeps f (renderCellText F cell x y).
Proof. unfold renderCellText, resetFaint. cell_keeps. Qed.

Lemma renderLine_keeps line y cols :
  keeps f (renderLine F line y cols).
Proof.
  unfold renderLine.
  unfold_ctx.
  repeat (cbv zeta; first
    [ keeps_step ltac:(free_tac)
    | lazymatch goal with
      | |- keeps _ (renderCellBackground _ _ _ _) => apply renderCellBackground_keeps
      | |- keeps _ (renderCellText _ _ _ _) => apply renderCellText_keeps
      end ]).
Qed.
End CellFacts.

Lemma post_bind {A B} P Q R (m : M A) (k : A -> M B) :
  post P m Q -> (forall a, post Q (k a) R) -> post P (m ≫= k) R.
Proof. intros Hm Hk r HP. rewrite after_bind. apply Hk, Hm, HP. Qed.

Lemma post_keeps {A B} (f : Renderer -> B) (I : B -> Prop) (m : M A) :
  keeps f m -> post (fun r => I (f r)) m (fun r => I (f r)).
Proof. intros H r HI. rewrite H. exact HI. Qed.

Lemma emits_emit e : emits e (emit e).
Proof. intros r. left. reflexivity. Qed.

Lemma emits_bind_l {A B} e (m : M A) (k : A -> M B) :
  emits e m -> emits e (m ≫= k).
Proof. intros H r. rewrite events_bind. apply in_or_app. left. apply H. Qed.

Lemma emits_bind_r {A B} e (m : M A) (k : A -> M B) :
  (forall a, emits e (k a)) -> emits e (m ≫= k).
Proof. intros H r. rewrite events_bind. apply in_or_app. right. apply H. Qed.

(** Search the sequence of statements for the one that emits [e]. *)
Ltac find_emit :=
  lazymatch goal with
  | |- emits _ (emit _) => apply emits_emit
  | |- emits _ (_ ≫= _) =>
    first [apply emits_bind_l; find_emit | apply emits_bind_r; intros ?; find_emit]
  end.

(** ** Unmapped box-drawing codepoints *)

Lemma box_codepoint_nonzero cp :
  isBoxDrawingChar cp = true -> (cp =? 0) = false.
Proof. unfold isBoxDrawingChar. intros H. apply andb_prop in H as [H _]. lia. Qed.

(** Within U+2500-257F only the three diagonals have no entry. *)
Lemma unmapped_box_codepoints cp :
  isBoxDrawingChar cp = true ->
  (getBoxLines cp = None <-> cp = 0x2571 \/ cp = 0x2572 \/ cp = 0x2573).
Proof.
  unfold isBoxDrawingChar. intros H. apply andb_prop in H as [H1 H2].
  assert (Hin : cp ∈ seqZ 0x2500 128) by (apply elem_of_seqZ; lia).
  clear H1 H2. revert cp Hin. apply Forall_forall. vm_compute.
  repeat (constructor; [split; [intros; first [discriminate | tauto]
                               | intros [|[|]]; first [discriminate | reflexivity]]|]).
  constructor.
Qed.

(** C9: a cell whose codepoint lies in U+2500-257F but has no entry in
    [BOX_DRAWING_MAP] gets no drawing call in the text pass: nothing is
    filled, stroked or written as text; on a visible cell the box procedure
    is entered (and returns at once), so the host text path is not taken. *)
Theorem C9_unmapped_box_codepoint_draws_nothing
    (F : CellFlagsT) (r : Renderer) (cell : GhosttyCell) (x y : Z) :
  isBoxDrawingChar (codepoint cell) = true ->
  getBoxLines (codepoint cell) = None ->
  Forall (fun e => isDrawing e = false) (events (renderCellText F cell x y) r)
  /\ (hasFlag F cell INVISIBLE = false ->
      In (Enter (PDrawBoxChar (codepoint cell))) (events (renderCellText F cell x y) r)).
Proof.
  intros Hbox Hnone. pose proof (box_codepoint_nonzero _ Hbox) as Hcp. split.
  - revert r. change (sat (fun e => isDrawing e = false) (renderCellText F cell x y)).
    unfold renderCellText, resetFaint. cbv zeta. rewrite Hcp, Hbox.
    unfold drawBoxChar. rewrite Hnone.
    sat_auto ltac:(reflexivity).
  - intros Hvis.
    revert r. change (emits (Enter (PDrawBoxChar (codepoint cell)))
                            (renderCellText F cell x y)).
    unfold renderCellText, resetFaint. cbv zeta.
    rewrite Hcp, Hbox, Hvis. unfold drawBoxChar. find_emit.
Qed.

Lemma C9_witness :
  Forall (fun e => isDrawing e = false)
    (events (renderCellText Sample.CellFlags (Sample.cell 0x2571 0) 0 0)
            (Sample.renderer 18 34))
  /\ (hasFlag Sample.CellFlags (Sample.cell 0x2571 0) INVISIBLE = false ->
      In (Enter (PDrawBoxChar 0x2571))
         (events (renderCellText Sample.CellFlags (Sample.cell 0x2571 0) 0 0)
                 (Sample.renderer 18 34))).
Proof.
  apply (C9_unmapped_box_codepoint_draws_nothing Sample.CellFlags
           (Sample.renderer 18 34) (Sample.cell 0x2571 0) 0 0); reflexivity.
Defined.

(** ** The alpha of the context across the text pass *)

Lemma drawBlockChar_alpha codepoint cellX cellY fgColor r :
  globalAlpha (after (drawBlockChar codepoint cellX cellY fgColor) r) = globalAlpha r
  \/ globalAlpha (after (drawBlockChar codepoint cellX cellY fgColor) r) = 1%Z.
Proof.
  unfold drawBlockChar.
  destruct (getBlockType codepoint) as [[| | | | | |density]|];
    try solve [left; refine ((_ : keeps globalAlpha _) r);
               keeps_auto ltac:(intros; reflexivity)].
  right. reflexivity.
Qed.

Section Alpha.
Context (F : CellFlagsT) (cell : GhosttyCell).

(** Before the reset of a faint cell, and after it. *)
Local Abbreviation J := (faintOrOpaque F cell).
Local Abbreviation K := alphaIsOne.

Lemma resetFaint_post : post J (resetFaint F cell) K.
Proof.
  intros r HJ. unfold resetFaint. unfold faintOrOpaque, alphaIsOne in *.
  destruct (hasFlag F cell FAINT); [reflexivity|].
  destruct HJ as [HJ|HJ]; [discriminate | exact HJ].
Qed.

Lemma glyph_post {A} (m : M A) : keeps globalAlpha m -> post J m J.
Proof. intros H. exact (post_keeps globalAlpha (fun a => _ \/ (a == 1)%Q) m H). Qed.

Lemma drawBlockChar_post codepoint cellX cellY fgColor :
  post J (drawBlockChar codepoint cellX cellY fgColor) J.
Proof.
  intros r [HJ|HJ]; [left; exact HJ|]. right. unfold alphaIsOne in *.
  destruct (drawBlockChar_alpha codepoint cellX cellY fgColor r) as [E|E];
    rewrite E; [exact HJ | reflexivity].
Qed.

Ltac keepsK :=
  apply (post_keeps globalAlpha (fun a => (a == 1)%Q));
  keeps_auto ltac:(intros; reflexivity).

Tactic Notation "branch" uconstr(lem) :=
  apply post_bind with (Q := J);
  [ apply glyph_post; apply lem; apply globalAlpha_CtxFree
  | intros _; apply resetFaint_post ].

End Alpha.


(** ** The phases of a frame *)

Lemma cellEvent_not_cursor e : cellEvent e = true -> isCursorEnter e = false.
Proof. destruct e as [[]| | | | | | | | | | | | | | | | | | | | | |]; simpl; congruence. Qed.

Ltac paint_free := repeat split; intros; reflexivity.

(** Syntax-directed proofs for the phases: the statements of the phase are
    walked one by one, [renderLine] and [resize] are handled by the lemmas
    [line] and [rsz] given for them. *)
Ltac frame_sat tac line rsz :=
  unfold_ctx;
  repeat (cbv zeta; first
    [ sat_step tac
    | lazymatch goal with
      | |- sat _ (renderLine _ _ _ _) => line
      | |- sat _ (resize _ _) => rsz
      end ]).

Ltac frame_keeps :=
  unfold_ctx;
  repeat (cbv zeta; first
    [ keeps_step ltac:(intros; reflexivity)
    | lazymatch goal with
      | |- keeps _ (renderLine _ _ _ _) => apply renderLine_keeps; paint_free
      end ]).

Section NoCursor.
Context (F : CellFlagsT).
Local Abbreviation NC := (fun e => isCursorEnter e = false).

Ltac nc :=
  frame_sat ltac:(reflexivity)
    ltac:(eapply sat_mono; [exact cellEvent_not_cursor | apply renderLine_sat])
    ltac:(fail).

Lemma resize_noCursor cols rows : sat NC (resize cols rows).
Proof. unfold resize. nc. Qed.

Lemma beginFrame_noCursor buffer forceAll viewportY :
  sat NC (beginFrame buffer forceAll viewportY).
Proof.
  unfold beginFrame.
  frame_sat ltac:(reflexivity) ltac:(fail) ltac:(apply resize_noCursor).
Qed.

Lemma redrawCursorLines_noCursor buffer forceAll :
  sat NC (redrawCursorLines F buffer forceAll).
Proof. unfold redrawCursorLines. nc. Qed.

Lemma markSelectionRows_noCursor : sat NC markSelectionRows.
Proof. unfold markSelectionRows. nc. Qed.

Lemma markLinkRows_noCursor buffer viewportY sbp len :
  sat NC (markLinkRows buffer viewportY sbp len).
Proof. unfold markLinkRows. nc. Qed.

Lemma paintRows_noCursor buffer viewportY sbp len toRender :
  sat NC (paintRows F buffer viewportY sbp len toRender).
Proof. unfold paintRows. nc. Qed.

Lemma renderScrollbar_noCursor viewportY len visibleRows opacity :
  sat NC (renderScrollbar viewportY len visibleRows opacity).
Proof. unfold renderScrollbar. nc. Qed.
End NoCursor.

Section BlinkState.
Context (F : CellFlagsT).

Lemma beginFrame_blink buffer forceAll viewportY :
  keeps blinkState (beginFrame buffer forceAll viewportY).
Proof. unfold beginFrame, resize. frame_keeps. Qed.

Lemma redrawCursorLines_blink buffer forceAll :
  keeps blinkState (redrawCursorLines F buffer forceAll).
Proof. unfold redrawCursorLines. frame_keeps. Qed.

Lemma markSelectionRows_blink : keeps blinkState markSelectionRows.
Proof. unfold markSelectionRows. frame_keeps. Qed.

Lemma markLinkRows_blink buffer viewportY sbp len :
  keeps blinkState (markLinkRows buffer viewportY sbp len).
Proof. unfold markLinkRows. frame_keeps. Qed.

Lemma paintRows_blink buffer viewportY sbp len toRender :
  keeps blinkState (paintRows F buffer viewportY sbp len toRender).
Proof. unfold paintRows. frame_keeps. Qed.
End BlinkState.

Lemma existsb_sat_false {A} (p : Event -> bool) (m : M A) r :
  sat (fun e => p e = false) m -> existsb p (events m r) = false.
Proof.
  intros H. specialize (H r). induction H as [|e l He _ IH]; simpl.
  - reflexivity.
  - rewrite He. exact IH.
Qed.

(** ** The cursor *)

Section CursorDraw.
Context (F : CellFlagsT) (buffer : IRenderable) (forceAll : bool) (viewportY : Q)
        (scrollbackProvider : option IScrollbackProvider) (scrollbarOpacity : Q).

(** Drop a phase that draws no cursor and keeps the blink state; the
    state and the value it returns become arbitrary. *)
Ltac phase satlem keepslem :=
  rewrite events_bind, existsb_app, (existsb_sat_false _ _ _ satlem), orb_false_l;
  lazymatch goal with
  | H : blinkState ?r0 = _ |- context [after ?m ?r0] =>
    let Hk := fresh "Hk" in
    pose proof (eq_trans ((keepslem : keeps blinkState m) r0) H) as Hk;
    clear H; generalize dependent (after m r0); generalize (result m r0);
    clear r0; intros ? r0 H; cbv beta
  end.

Lemma render_cursor_events r :
  existsb isCursorEnter
    (events (render F buffer forceAll viewportY scrollbackProvider scrollbarOpacity) r)
  = (viewportY =? 0)%js && cur_visible (getCursor buffer)
    && cursorVisible r && negb (cursorSuppressed r).
Proof.
  unfold render. cbv zeta.
  set (b0 := blinkState r). assert (H : blinkState r = b0) by reflexivity.
  replace (cursorVisible r) with b0.1 by reflexivity.
  replace (cursorSuppressed r) with b0.2 by reflexivity.
  clearbody b0. revert H. generalize r. clear r. intros r H.
  phase (sat_modify (fun e => isCursorEnter e = false) (set_currentBuffer (Some buffer)))
        (keeps_modify blinkState (set_currentBuffer (Some buffer))
           (fun r => eq_refl)).
  phase (beginFrame_noCursor buffer forceAll viewportY)
        (beginFrame_blink buffer forceAll viewportY).
  lazymatch goal with |- context [redrawCursorLines F buffer ?fa] =>
    phase (redrawCursorLines_noCursor F buffer fa) (redrawCursorLines_blink F buffer fa)
  end.
  phase markSelectionRows_noCursor markSelectionRows_blink.
  lazymatch goal with |- context [markLinkRows buffer viewportY ?p ?l] =>
    phase (markLinkRows_noCursor buffer viewportY p l)
          (markLinkRows_blink buffer viewportY p l)
  end.
  lazymatch goal with |- context [paintRows F buffer viewportY ?p ?l ?t] =>
    phase (paintRows_noCursor F buffer viewportY p l t)
          (paintRows_blink F buffer viewportY p l t)
  end.
  rewrite events_bind. change (events get r) with (@nil Event).
  change (result get r) with r. change (after get r) with r.
  rewrite app_nil_l. cbv beta.
  replace (cursorVisible r) with b0.1 by (rewrite <- H; reflexivity).
  replace (cursorSuppressed r) with b0.2 by (rewrite <- H; reflexivity).
  rewrite events_bind, existsb_app.
  lazymatch goal with
  | |- (_ || existsb _ (events ?m ?r1)) = _ =>
    rewrite (existsb_sat_false isCursorEnter m r1)
  end.
  2:{ frame_sat ltac:(reflexivity) ltac:(fail) ltac:(fail).
      apply renderScrollbar_noCursor. }
  rewrite orb_false_r.
  destruct ((viewportY =? 0)%js && cur_visible (getCursor buffer)
            && b0.1 && negb b0.2); [|reflexivity].
  unfold when, renderCursor. rewrite events_bind. reflexivity.
Qed.

End CursorDraw.

(** ** The end of a frame *)

Lemma tailSpec_bind {A B} T (m : M A) (k : A -> M B) :
  (forall a, tailSpec T (k a)) -> tailSpec T (m ≫= k).
Proof.
  intros H r. destruct (H (result m r) (after m r)) as (pre & suf & E & HT).
  exists (events m r ++ pre), suf. rewrite events_bind, after_bind, E.
  split; [apply app_assoc | exact HT].
Qed.

Lemma clearDirty_clean buffer y : isRowDirty (clearDirty buffer) y = false.
Proof. unfold isRowDirty, clearDirty. simpl. apply bool_decide_eq_false. set_solver. Qed.

Lemma markSelectionRows_clears : post (fun _ => True) markSelectionRows selectionClean.
Proof.
  intros r _. unfold markSelectionRows. rewrite after_bind.
  change (result get r) with r. change (after get r) with r. cbv beta zeta.
  rewrite after_bind.
  destruct (selectionManager r) as [m|] eqn:Hm.
  - destruct (0 <? size (getDirtySelectionRows m))%nat eqn:Hsz.
    + intros m' Hm'. simpl in Hm'. injection Hm' as <-. reflexivity.
    + intros m' Hm'. simpl in Hm'. rewrite Hm in Hm'. injection Hm' as <-.
      apply Nat.ltb_ge in Hsz. apply leibniz_equiv, size_empty_iff. lia.
  - intros m' Hm'. simpl in Hm'. rewrite Hm in Hm'. discriminate.
Qed.

Section SelectionKept.
Context (F : CellFlagsT).

Lemma markLinkRows_selection buffer viewportY sbp len :
  keeps selectionManager (markLinkRows buffer viewportY sbp len).
Proof. unfold markLinkRows. frame_keeps. Qed.

Lemma paintRows_selection buffer viewportY sbp len toRender :
  keeps selectionManager (paintRows F buffer viewportY sbp len toRender).
Proof. unfold paintRows. frame_keeps. Qed.

Lemma renderCursor_selection x y : keeps selectionManager (renderCursor x y).
Proof. unfold renderCursor. frame_keeps. Qed.

Lemma renderScrollbar_selection viewportY len visibleRows opacity :
  keeps selectionManager (renderScrollbar viewportY len visibleRows opacity).
Proof. unfold renderScrollbar. frame_keeps. Qed.
End SelectionKept.

Section DirtyState.
Context (F : CellFlagsT) (buffer : IRenderable) (forceAll : bool) (viewportY : Q)
        (scrollbackProvider : option IScrollbackProvider) (scrollbarOpacity : Q).

Local Abbreviation frame :=
  (render F buffer forceAll viewportY scrollbackProvider scrollbarOpacity).

Lemma render_ends_with_clearDirty :
  tailSpec (fun r' suf =>
              suf = [BufferClearDirty]
              /\ currentBuffer r' = Some (clearDirty buffer)) frame.
Proof.
  unfold render. cbv zeta.
  apply tailSpec_bind; intros _.
  repeat lazymatch goal with
  | |- tailSpec _ (modify (set_currentBuffer _) ≫= _) => fail
  | |- tailSpec _ (_ ≫= _) => apply tailSpec_bind; intros ?
  end.
  intros r. exists [], [BufferClearDirty]. repeat split.
Qed.

Lemma render_selectionClean : post (fun _ => True) frame selectionClean.
Proof.
  unfold render. cbv zeta.
  apply post_bind with (Q := fun _ => True); [intros ? ?; exact I | intros _].
  apply post_bind with (Q := fun _ => True); [intros ? ?; exact I | intros fa].
  apply post_bind with (Q := fun _ => True); [intros ? ?; exact I | intros _].
  apply post_bind with (Q := selectionClean); [apply markSelectionRows_clears | intros rows1].
  apply (post_keeps selectionManager
           (fun s => forall m, s = Some m -> getDirtySelectionRows m = ∅)).
  repeat (cbv zeta; first
    [ keeps_step ltac:(intros; reflexivity)
    | lazymatch goal with
      | |- keeps _ (markLinkRows _ _ _ _) => apply markLinkRows_selection
      | |- keeps _ (paintRows _ _ _ _ _ _) => apply paintRows_selection
      | |- keeps _ (renderCursor _ _) => apply renderCursor_selection
      | |- keeps _ (renderScrollbar _ _ _ _) => apply renderScrollbar_selection
      end ]).
Qed.

End DirtyState.

(** ** The scrollbar thumb *)

Section Scrollbar.
Context (F : CellFlagsT) (buffer : IRenderable) (forceAll : bool) (viewportY : Q)
        (p : IScrollbackProvider) (scrollbarOpacity : Q).

Local Abbreviation frame :=
  (render F buffer forceAll viewportY (Some p) scrollbarOpacity).

Lemma render_thumb :
  (0 < scrollbarOpacity)%Q -> 0 < getScrollbackLength p ->
  tailSpec (fun r' suf => exists x thumbY thumbHeight,
    suf = [FillRect x thumbY 8 thumbHeight; BufferClearDirty]
    /\ let trackHeight := specTrackHeight (canvas_height r') (devicePixelRatio r') in
       (thumbHeight == specThumbHeight (rows (getDimensions buffer))
                         (getScrollbackLength p) trackHeight)%Q
       /\ (thumbY == specThumbTop trackHeight thumbHeight viewportY
                       (getScrollbackLength p))%Q) frame.
Proof.
  intros Hop Hlen. unfold render. cbv zeta.
  repeat lazymatch goal with
  | |- tailSpec _ (when (bool_decide _ && _) _ ≫= _) => fail
  | |- tailSpec _ (_ ≫= _) => apply tailSpec_bind; intros ?
  end.
  intros r.
  assert (E1 : (0 <? scrollbarOpacity)%js = true) by (apply JSFacts.ltb_lt; exact Hop).
  assert (E2 : (scrollbarOpacity <=? 0)%js = false).
  { apply not_true_is_false. intros E. apply JSFacts.leb_le in E.
    exact (Qlt_not_le _ _ Hop E). }
  assert (E3 : (getScrollbackLength p =? 0) = false) by lia.
  rewrite E1. unfold renderScrollbar. cbv zeta. rewrite E2, E3.
  unfold events, after. simpl.
  eexists [_; _; _; _; _; _], _. split; [reflexivity|].
  eexists _, _, _. split; [reflexivity|].
  unfold specTrackHeight, specThumbHeight, specThumbTop. cbv zeta.
  lazymatch goal with
  | |- context [JS.max _ (JS.mul _ ?t)] =>
    assert (Htrack : (t == canvas_height r / devicePixelRatio r - 8)%Q)
      by (rewrite JSFacts.sub_ok, JSFacts.div_ok, JSFacts.mul_ok; reflexivity)
  end.
  split.
  - rewrite JSFacts.max_ok, JSFacts.mul_ok, JSFacts.div_ok. setoid_rewrite Htrack. reflexivity.
  - set (th := JS.max _ _). set (t := JS.sub _ _) in *.
    rewrite JSFacts.add_ok, JSFacts.mul_ok, !JSFacts.sub_ok, JSFacts.div_ok. setoid_rewrite Htrack.
    reflexivity.
Qed.

(** C8: when a scrollback provider is given with positive opacity and a
    nonempty scrollback, the last thing a frame paints is the thumb, a
    rectangle 8 px wide whose height is
    max(20, visibleRows / totalLines * trackHeight) and whose top is
    4 + (trackHeight - thumbHeight) * (1 - viewportY / scrollbackLength),
    with totalLines = scrollbackLength + visibleRows and trackHeight the
    canvas height in CSS pixels less 8. *)
Theorem C8_scrollbar_thumb_geometry (r : Renderer) :
  (0 < scrollbarOpacity)%Q -> 0 < getScrollbackLength p ->
  exists pre x thumbY thumbHeight,
    events frame r = pre ++ [FillRect x thumbY 8 thumbHeight; BufferClearDirty]
    /\ let trackHeight :=
         specTrackHeight (canvas_height (after frame r))
                         (devicePixelRatio (after frame r)) in
       (thumbHeight == specThumbHeight (rows (getDimensions buffer))
                         (getScrollbackLength p) trackHeight)%Q
       /\ (thumbY == specThumbTop trackHeight thumbHeight viewportY
                       (getScrollbackLength p))%Q.
Proof.
  intros Hop Hlen.
  destruct (render_thumb Hop Hlen r) as (pre & suf & E & x & ty & th & -> & H).
  exists pre, x, ty, th. split; [exact E | exact H].
Qed.
End Scrollbar.

Lemma C8_witness :
  exists pre x thumbY thumbHeight,
    events (render Sample.CellFlags SampleFrame.buffer false 5
                   (Some SampleFrame.scrollback) 1) (Sample.renderer 9 51)
    = pre ++ [FillRect x thumbY 8 thumbHeight; BufferClearDirty]
    /\ let trackHeight :=
         specTrackHeight
           (canvas_height (after (render Sample.CellFlags SampleFrame.buffer false 5
                                    (Some SampleFrame.scrollback) 1) (Sample.renderer 9 51)))
           (devicePixelRatio (after (render Sample.CellFlags SampleFrame.buffer false 5
                                       (Some SampleFrame.scrollback) 1) (Sample.renderer 9 51))) in
       (thumbHeight == specThumbHeight (rows (getDimensions SampleFrame.buffer))
                         (getScrollbackLength SampleFrame.scrollback) trackHeight)%Q
       /\ (thumbY == specThumbTop trackHeight thumbHeight 5
                       (getScrollbackLength SampleFrame.scrollback))%Q.
Proof.
  apply (C8_scrollbar_thumb_geometry Sample.CellFlags SampleFrame.buffer false 5
           SampleFrame.scrollback 1 (Sample.renderer 9 51)).
  - reflexivity.
  - reflexivity.
Defined.

(** ** A buffer without rows or columns *)

Section TripleRules.
Context (E : Event -> Prop).

Lemma triple_bind {A B} P Q R (m : M A) (k : A -> M B) :
  triple P m E Q -> (forall a, triple Q (k a) E R) -> triple P (m ≫= k) E R.
Proof.
  intros Hm Hk r HP. destruct (Hm r HP) as [H1 H2].
  destruct (Hk (result m r) (after m r) H2) as [H3 H4].
  rewrite events_bind, after_bind. split; [apply Forall_app; split; assumption | exact H4].
Qed.

Lemma triple_get_bind {B} P R (k : Renderer -> M B) :
  (forall r0, P r0 -> triple (fun r => r = r0) (k r0) E R) ->
  triple P (get ≫= k) E R.
Proof.
  intros H r HP. rewrite events_bind, after_bind. exact (H r HP r eq_refl).
Qed.

Lemma triple_pre {A} (P P' Q : Renderer -> Prop) (m : M A) :
  (forall r, P' r -> P r) -> triple P m E Q -> triple P' m E Q.
Proof. intros HP H r Hr. apply H, HP, Hr. Qed.

Lemma triple_skip (P : Renderer -> Prop) : triple P skip E P.
Proof. intros r HP. split; [constructor | exact HP]. Qed.

Lemma triple_quiet {A B} (f : Renderer -> B) (v : B) (m : M A) :
  sat E m -> keeps f m -> triple (fun r => f r = v) m E (fun r => f r = v).
Proof. intros Hs Hk r Hr. split; [apply Hs | rewrite Hk; exact Hr]. Qed.
End TripleRules.

Lemma zero_canvas_matches (c d : Q) (w : Z) :
  (c == 0)%Q -> (c =? (0 * w)%Z * d)%js = true.
Proof.
  intros H. apply Qeq_bool_iff. rewrite JSFacts.mul_ok, H.
  change (JS.ofZ (0 * w)) with 0%Q. ring.
Qed.

Section ZeroDimensions.
Context (F : CellFlagsT) (buffer : IRenderable) (forceAll : bool) (viewportY : Q)
        (scrollbackProvider : option IScrollbackProvider) (scrollbarOpacity : Q)
        (r0 : Renderer).
Hypothesis Hcols : cols (getDimensions buffer) = 0.
Hypothesis Hrows : rows (getDimensions buffer) = 0.
Hypothesis Hnone : forall y, getLine buffer y = None.
Hypothesis Hwidth : (canvas_width r0 == 0)%Q.
Hypothesis Hheight : (canvas_height r0 == 0)%Q.
Hypothesis Hcursor :
  (viewportY =? 0)%js && cur_visible (getCursor buffer)
  && cursorVisible r0 && negb (cursorSuppressed r0) = false.
Hypothesis Hscrollbar : scrollbackProvider = None \/ (scrollbarOpacity <= 0)%Q.

Local Abbreviation I0 := (sameView r0).

Ltac collab := first [left; reflexivity | right; reflexivity].

Ltac quiet_sat :=
  unfold_ctx;
  repeat (cbv zeta; first
    [ lazymatch goal with
      | |- sat _ (match getLine _ ?y with _ => _ end) => rewrite (Hnone y)
      | |- sat _ (when false _) => apply (sat_ret _ tt)
      end
    | sat_step collab ]).

Ltac quiet_keeps :=
  unfold_ctx;
  repeat (cbv zeta; first
    [ lazymatch goal with
      | |- keeps _ (match getLine _ ?y with _ => _ end) => rewrite (Hnone y)
      | |- keeps _ (when false _) => apply (keeps_ret _ tt)
      end
    | keeps_step ltac:(intros; reflexivity) ]).

Ltac quiet := apply triple_quiet; [quiet_sat | quiet_keeps].

Lemma beginFrame_zero b :
  triple I0 (beginFrame buffer b viewportY) isCollaboratorCall I0.
Proof.
  unfold beginFrame. cbv zeta. rewrite Hcols, Hrows.
  apply triple_get_bind. intros r Hr.
  assert (Ew : canvas_width r = canvas_width r0) by (injection Hr; auto).
  assert (Eh : canvas_height r = canvas_height r0) by (injection Hr; auto).
  rewrite !zero_canvas_matches by (rewrite ?Ew, ?Eh; assumption).
  change (negb true || negb true) with false.
  apply triple_pre with (P := I0); [intros ? ->; exact Hr|].
  quiet.
Qed.

Lemma redrawCursorLines_zero b :
  triple I0 (redrawCursorLines F buffer b) isCollaboratorCall I0.
Proof. unfold redrawCursorLines. quiet. Qed.

Lemma markSelectionRows_zero : triple I0 markSelectionRows isCollaboratorCall I0.
Proof. unfold markSelectionRows. quiet. Qed.

Lemma markLinkRows_zero len :
  triple I0 (markLinkRows buffer viewportY scrollbackProvider len) isCollaboratorCall I0.
Proof. unfold markLinkRows. quiet. Qed.

Lemma paintRows_zero len toRender :
  triple I0 (paintRows F buffer viewportY scrollbackProvider len toRender)
         isCollaboratorCall I0.
Proof. unfold paintRows. rewrite Hrows. apply triple_skip. Qed.

Lemma no_scrollbar :
  bool_decide (is_Some scrollbackProvider) && (0 <? scrollbarOpacity)%js = false.
Proof.
  destruct Hscrollbar as [-> | Hle]; [reflexivity|].
  apply andb_false_intro2. unfold JS.ltb. apply negb_false_iff.
  apply Qle_bool_iff. exact Hle.
Qed.

Lemma render_zero :
  triple I0 (render F buffer forceAll viewportY scrollbackProvider scrollbarOpacity)
         isCollaboratorCall I0.
Proof.
  unfold render. cbv zeta.
  apply triple_bind with (Q := I0); [quiet | intros _].
  apply triple_bind with (Q := I0); [apply beginFrame_zero | intros b].
  apply triple_bind with (Q := I0); [apply redrawCursorLines_zero | intros _].
  apply triple_bind with (Q := I0); [apply markSelectionRows_zero | intros rows1].
  apply triple_bind with (Q := I0); [apply markLinkRows_zero | intros rows2].
  apply triple_bind with (Q := I0); [apply paintRows_zero | intros _].
  apply triple_get_bind. intros r Hr.
  assert (Ev : cursorVisible r = cursorVisible r0) by (injection Hr; auto).
  assert (Es : cursorSuppressed r = cursorSuppressed r0) by (injection Hr; auto).
  rewrite Ev, Es, Hcursor, no_scrollbar.
  apply triple_pre with (P := I0); [intros ? ->; exact Hr|].
  quiet.
Qed.

End ZeroDimensions.



(** ** Which line a row shows *)

Lemma floor_whole (n : Z) : JS.floor (inject_Z n) = n.
Proof. apply Qfloor_Z. Qed.

Lemma ltb_whole (a b : Z) : (a <? b)%js = (a <? b)%Z.
Proof.
  destruct (a <? b)%Z eqn:E.
  - apply JSFacts.ltb_lt. rewrite <- Zlt_Qlt. lia.
  - apply not_true_is_false. intros H. apply JSFacts.ltb_lt in H.
    unfold JS.ofZ in H. rewrite <- Zlt_Qlt in H. lia.
Qed.

(** For a whole number of scrolled lines the rows are split as the spec
    says: the first [n] rows show the end of the scrollback, the others the
    screen. *)
Lemma lineSource_whole (n : Z) (scrollbackProvider : option IScrollbackProvider)
    (scrollbackLength y : Z) :
  0 < n ->
  lineSource (inject_Z n) scrollbackProvider scrollbackLength y
  = if bool_decide (is_Some scrollbackProvider) && (y <? n)
    then FromScrollback (scrollbackLength - n + y)
    else FromBuffer (y - n).
Proof.
  intros Hn. unfold lineSource.
  change (inject_Z n) with (JS.ofZ n).
  rewrite (ltb_whole 0 n), (ltb_whole y n).
  change (JS.ofZ n) with (inject_Z n). rewrite floor_whole.
  replace (0 <? n) with true by lia.
  rewrite andb_comm. reflexivity.
Qed.

Lemma lineSource_bottom (scrollbackProvider : option IScrollbackProvider)
    (scrollbackLength y : Z) :
  lineSource 0 scrollbackProvider scrollbackLength y = FromBuffer y.
Proof. reflexivity. Qed.

(** C2, at a fractional offset: with the viewport scrolled up by 2.5 lines
    over 20 lines of scrollback, row 2 is not below the floor of the offset
    (which is 2), yet the frame asks the scrollback for its line, at offset
    20, one past the last line, instead of asking the buffer for line 0; the
    row is then skipped by the frame, while rows 0 and 1 are painted. *)
Theorem C2_fractional_viewport_row_from_scrollback :
  JS.floor (5 # 2) = 2
  /\ lineSource (5 # 2) (Some SampleFrame.scrollback)
                (getScrollbackLength SampleFrame.scrollback) 2
     = FromScrollback 20
  /\ lineSource (5 # 2) (Some SampleFrame.scrollback)
                (getScrollbackLength SampleFrame.scrollback) 2
     <> FromBuffer (2 - JS.floor (5 # 2))
  /\ fetchLine SampleFrame.buffer (5 # 2) (Some SampleFrame.scrollback)
               (getScrollbackLength SampleFrame.scrollback) 2 = None
  /\ getLine SampleFrame.buffer (2 - JS.floor (5 # 2)) = Some [Sample.cell 65 0]
  /\ List.filter isRenderLineEnter
       (events (render Sample.CellFlags SampleFrame.buffer false (5 # 2)
                       (Some SampleFrame.scrollback) 1) (Sample.renderer 9 51))
     = [Enter (PRenderLine 0); Enter (PRenderLine 1)].
Proof.
  split; [reflexivity|]. split; [reflexivity|]. split; [discriminate|].
  split; [reflexivity|]. split; [reflexivity|]. vm_compute. reflexivity.
Qed.

(** ** The order of the dispatch in the text pass *)

(** The rounded corners and the dashed lines lie inside the box range. *)
Lemma rounded_is_box cp : isRoundedCorner cp = true -> isBoxDrawingChar cp = true.
Proof. unfold isRoundedCorner, isBoxDrawingChar. lia. Qed.

Lemma dashed_is_box cp : isDashedLine cp = true -> isBoxDrawingChar cp = true.
Proof. unfold isDashedLine, isBoxDrawingChar. lia. Qed.

(** [renderCellText] tests the box range first, so its branches for rounded
    corners and dashed lines are never taken, for any cell. *)
Lemma renderCellText_never_specialised (F : CellFlagsT) cell x y :
  sat (fun e => isSpecialisedEnter e = false) (renderCellText F cell x y).
Proof.
  unfold renderCellText, resetFaint. cbv zeta.
  set (cp := if codepoint cell =? 0 then 32 else codepoint cell).
  apply sat_bind; [sat_auto ltac:(reflexivity) | intros _].
  apply sat_bind; [sat_auto ltac:(reflexivity) | intros r].
  destruct (hasFlag F cell INVISIBLE); [sat_auto ltac:(reflexivity)|].
  apply sat_bind; [sat_auto ltac:(reflexivity) | intros _].
  apply sat_bind; [sat_auto ltac:(reflexivity) | intros _].
  apply sat_bind; [sat_auto ltac:(reflexivity) | intros _].
  apply sat_bind; [sat_auto ltac:(reflexivity) | intros r1].
  destruct (isBoxDrawingChar cp) eqn:Hbox;
    [unfold drawBoxChar; sat_auto ltac:(reflexivity)|].
  destruct (isBlockElement cp); [unfold drawBlockChar; sat_auto ltac:(reflexivity)|].
  destruct (isBraillePattern cp); [unfold drawBrailleChar; sat_auto ltac:(reflexivity)|].
  destruct (isSextant cp); [unfold drawSextantChar; sat_auto ltac:(reflexivity)|].
  destruct (isCornerTriangle cp); [unfold drawCornerTriangle; sat_auto ltac:(reflexivity)|].
  destruct (isPowerlineChar cp); [unfold drawPowerlineChar; sat_auto ltac:(reflexivity)|].
  destruct (isLegacyWedge cp); [unfold drawLegacyWedge; sat_auto ltac:(reflexivity)|].
  destruct (isOctant cp); [unfold drawOctant; sat_auto ltac:(reflexivity)|].
  destruct (isSmoothMosaic cp); [unfold drawSmoothMosaic; sat_auto ltac:(reflexivity)|].
  destruct (isRoundedCorner cp) eqn:Hround;
    [apply rounded_is_box in Hround; congruence|].
  destruct (isDashedLine cp) eqn:Hdash;
    [apply dashed_is_box in Hdash; congruence|].
  sat_auto ltac:(reflexivity).
Qed.

(** C1, on the cell U+256D (arc down and right) of a 9 x 17 grid: the text
    pass enters the box procedure, which fills the two square stubs of a
    light corner; the rounded-corner procedure is not entered and nothing
    is stroked, while that procedure would stroke an arc. *)
Theorem C1_rounded_corner_drawn_by_box_procedure :
  events (renderCellText Sample.CellFlags (Sample.cell 0x256d 0) 0 0)
         (Sample.renderer 9 17)
  = [ Enter (PRenderCellText 0 0);
      SetFont (mkFont false false 15 "monospace");
      SetFillStyle (CssRgb 255 255 255);
      Enter (PDrawBoxChar 0x256d);
      SetFillStyle (CssRgb 255 255 255);
      FillRect 4 8 5 1;
      FillRect 4 8 1 9 ]
  /\ events (drawRoundedCorner 0x256d 0 0 (CssRgb 255 255 255)) (Sample.renderer 9 17)
     = [ Enter (PDrawRoundedCorner 0x256d);
         SetStrokeStyle (CssRgb 255 255 255); SetLineWidth 1; SetLineCap "square";
         BeginPath; Arc 9 13 4 1 (3 # 2);
         MoveTo 5 5; LineTo 5 0; MoveTo 9 9; LineTo 9 9; Stroke ].
Proof. split; vm_compute; reflexivity. Qed.

(** C4, on the cell U+2504 (triple dash horizontal) of a 9 x 17 grid: the
    text pass enters the box procedure, which fills one rectangle across the
    whole cell; the dashed-line procedure is not entered, while it would
    fill three dashes of width round(9 / 5) = 2. *)
Theorem C4_dashed_line_drawn_as_solid_line :
  events (renderCellText Sample.CellFlags (Sample.cell 0x2504 0) 0 0)
         (Sample.renderer 9 17)
  = [ Enter (PRenderCellText 0 0);
      SetFont (mkFont false false 15 "monospace");
      SetFillStyle (CssRgb 255 255 255);
      Enter (PDrawBoxChar 0x2504);
      SetFillStyle (CssRgb 255 255 255);
      FillRect 0 8 9 1 ]
  /\ events (drawDashedLine 0x2504 0 0 (CssRgb 255 255 255)) (Sample.renderer 9 17)
     = [ Enter (PDrawDashedLine 0x2504);
         SetFillStyle (CssRgb 255 255 255);
         FillRect 0 9 2 1; FillRect 4 9 2 1; FillRect 7 9 2 1 ].
Proof. split; vm_compute; reflexivity. Qed.

(** ** Decorations *)

(** After a procedural glyph the text pass returns: it strokes nothing, so
    no underline, strikethrough or link underline is drawn for the cell. *)
Lemma procedural_cell_never_stroked (F : CellFlagsT) cell x y :
  isProcedural (if codepoint cell =? 0 then 32 else codepoint cell) = true ->
  sat (fun e => isStroke e = false) (renderCellText F cell x y).
Proof.
  unfold renderCellText, resetFaint, isProcedural. cbv zeta.
  set (cp := if codepoint cell =? 0 then 32 else codepoint cell). intros Hproc.
  apply sat_bind; [sat_auto ltac:(reflexivity) | intros _].
  apply sat_bind; [sat_auto ltac:(reflexivity) | intros r].
  destruct (hasFlag F cell INVISIBLE); [sat_auto ltac:(reflexivity)|].
  apply sat_bind; [sat_auto ltac:(reflexivity) | intros _].
  apply sat_bind; [sat_auto ltac:(reflexivity) | intros _].
  apply sat_bind; [sat_auto ltac:(reflexivity) | intros _].
  apply sat_bind; [sat_auto ltac:(reflexivity) | intros r1].
  destruct (isBoxDrawingChar cp); [unfold drawBoxChar; sat_auto ltac:(reflexivity)|].
  destruct (isBlockElement cp); [unfold drawBlockChar; sat_auto ltac:(reflexivity)|].
  destruct (isBraillePattern cp); [unfold drawBrailleChar; sat_auto ltac:(reflexivity)|].
  destruct (isSextant cp); [unfold drawSextantChar; sat_auto ltac:(reflexivity)|].
  destruct (isCornerTriangle cp); [unfold drawCornerTriangle; sat_auto ltac:(reflexivity)|].
  destruct (isPowerlineChar cp); [unfold drawPowerlineChar; sat_auto ltac:(reflexivity)|].
  destruct (isLegacyWedge cp); [unfold drawLegacyWedge; sat_auto ltac:(reflexivity)|].
  destruct (isOctant cp); [unfold drawOctant; sat_auto ltac:(reflexivity)|].
  destruct (isSmoothMosaic cp); [unfold drawSmoothMosaic; sat_auto ltac:(reflexivity)|].
  discriminate Hproc.
Qed.

Lemma infix_bind_l {A B} (l : list Event) (m : M A) (k : A -> M B) r :
  (exists pre post, events m r = pre ++ l ++ post) ->
  exists pre post, events (m ≫= k) r = pre ++ l ++ post.
Proof.
  intros (pre & post & E). exists pre, (post ++ events (k (result m r)) (after m r)).
  rewrite events_bind, E, <- !app_assoc. reflexivity.
Qed.

Lemma infix_bind_r {A B} (l : list Event) (m : M A) (k : A -> M B) r :
  (exists pre post, events (k (result m r)) (after m r) = pre ++ l ++ post) ->
  exists pre post, events (m ≫= k) r = pre ++ l ++ post.
Proof.
  intros (pre & post & E). exists (events m r ++ pre), post.
  rewrite events_bind, E, <- !app_assoc. reflexivity.
Qed.

(** On the host text path the underline of the claim is drawn: a path from
    the left edge of the cell to its right edge at [cellY + baseline + 2],
    stroked with width 1. *)
Lemma host_text_cell_underlined (F : CellFlagsT) (r : Renderer) cell x y :
  hasFlag F cell INVISIBLE = false ->
  hasFlag F cell UNDERLINE = true ->
  isProcedural (if codepoint cell =? 0 then 32 else codepoint cell) = false ->
  let cellX : Q := (x * FontMetrics.width (metrics r))%Z in
  let cellY : Q := (y * FontMetrics.height (metrics r))%Z in
  let cellWidth : Q := (FontMetrics.width (metrics r) * width cell)%Z in
  let underlineY := (cellY + FontMetrics.baseline (metrics r) + 2)%js in
  exists pre post,
    events (renderCellText F cell x y) r
    = pre ++ [SetLineWidth 1; BeginPath; MoveTo cellX underlineY;
              LineTo (cellX + cellWidth)%js underlineY; Stroke] ++ post.
Proof.
  intros Hvis Hul Hproc. cbv zeta.
  unfold isProcedural in Hproc.
  repeat (apply orb_false_elim in Hproc as [Hproc ?]).
  assert (Hr : isRoundedCorner (if codepoint cell =? 0 then 32 else codepoint cell) = false).
  { destruct (isRoundedCorner _) eqn:E; [apply rounded_is_box in E; congruence | reflexivity]. }
  assert (Hd : isDashedLine (if codepoint cell =? 0 then 32 else codepoint cell) = false).
  { destruct (isDashedLine _) eqn:E; [apply dashed_is_box in E; congruence | reflexivity]. }
  unfold renderCellText, resetFaint. cbv zeta.
  rewrite Hvis, Hr, Hd, Hul.
  repeat match goal with H : _ = false |- _ => rewrite H; clear H end.
  do 8 (apply infix_bind_r; cbv beta).
  apply infix_bind_l. unfold when.
  do 2 (apply infix_bind_r; cbv beta).
  exists [], []. rewrite app_nil_r. reflexivity.
Qed.

(** C5, on an underlined light horizontal line U+2500 (flags = UNDERLINE)
    of a 9 x 17 grid with baseline 14: the text pass returns after the box
    procedure and draws no underline, whereas the same flags on the letter A
    give the stroke from (0, 16) to (9, 16). *)
Theorem C5_no_underline_under_procedural_glyph :
  hasFlag Sample.CellFlags (Sample.cell 0x2500 4) UNDERLINE = true
  /\ hasFlag Sample.CellFlags (Sample.cell 0x2500 4) INVISIBLE = false
  /\ width (Sample.cell 0x2500 4) = 1
  /\ events (renderCellText Sample.CellFlags (Sample.cell 0x2500 4) 0 0)
            (Sample.renderer 9 17)
     = [ Enter (PRenderCellText 0 0);
         SetFont (mkFont false false 15 "monospace");
         SetFillStyle (CssRgb 255 255 255);
         Enter (PDrawBoxChar 0x2500);
         SetFillStyle (CssRgb 255 255 255);
         FillRect 0 8 9 1 ]
  /\ events (renderCellText Sample.CellFlags (Sample.cell 65 4) 0 0)
            (Sample.renderer 9 17)
     = [ Enter (PRenderCellText 0 0);
         SetFont (mkFont false false 15 "monospace");
         SetFillStyle (CssRgb 255 255 255);
         FillText (FromCodePoint 65) 0 14;
         SetStrokeStyle (CssRgb 255 255 255); SetLineWidth 1;
         BeginPath; MoveTo 0 16; LineTo 9 16; Stroke ].
Proof. repeat split; vm_compute; reflexivity. Qed.

(** ** Arithmetic of the rounding operators *)

Module JSArith.

Lemma floor_lb q n : (inject_Z n <= q)%Q -> n <= Qfloor q.
Proof. intros H. rewrite <- (Qfloor_Z n). apply Qfloor_resp_le, H. Qed.

Lemma floor_ub q n : (q < inject_Z (n + 1))%Q -> Qfloor q <= n.
Proof.
  intros H. destruct (Z_le_gt_dec (Qfloor q) n) as [|Hgt]; [assumption|].
  exfalso. assert (Hle : (inject_Z (n + 1) <= q)%Q).
  { eapply Qle_trans; [|apply Qfloor_le]. rewrite <- Zle_Qle. lia. }
  exact (Qlt_not_le _ _ H Hle).
Qed.

Lemma floor_add_int n q : Qfloor (inject_Z n + q) = n + Qfloor q.
Proof.
  apply Z.le_antisymm.
  - apply floor_ub. replace (n + Qfloor q + 1) with (n + (Qfloor q + 1)) by lia.
    rewrite inject_Z_plus. apply Qplus_lt_r, Qlt_floor.
  - apply floor_lb. rewrite inject_Z_plus. apply Qplus_le_r, Qfloor_le.
Qed.

Lemma floor_div q n d :
  (q == inject_Z n)%Q -> JS.floor (JS.div q (JS.ofZ d)) = n / d.
Proof.
  intros Hq. unfold JS.floor, JS.div, JS.ofZ.
  rewrite Qred_correct, Hq. symmetry. apply Zdiv_Qdiv.
Qed.

Lemma ceil_div q n d :
  (q == inject_Z n)%Q -> JS.ceil (JS.div q (JS.ofZ d)) = - ((- n) / d).
Proof.
  intros Hq. unfold JS.ceil, JS.div, JS.ofZ, Qceiling. f_equal.
  rewrite Qred_correct, Hq, Zdiv_Qdiv. apply Qfloor_comp.
  rewrite inject_Z_opp. unfold Qdiv. ring.
Qed.

Lemma round_div q n d :
  0 < d -> (q == inject_Z n)%Q ->
  JS.round (JS.div q (JS.ofZ d)) = (2 * n + d) / (2 * d).
Proof.
  intros Hd Hq. unfold JS.round, JS.div, JS.ofZ.
  rewrite Zdiv_Qdiv. apply Qfloor_comp.
  rewrite Qred_correct, Hq, inject_Z_plus, !inject_Z_mult.
  assert (Hnz : ~ (inject_Z d == 0)%Q).
  { intros H0. change 0%Q with (inject_Z 0) in H0.
    apply (proj1 (inject_Z_injective _ _)) in H0. lia. }
  change (inject_Z 2) with (2 # 1)%Q. field. exact Hnz.
Qed.

Lemma ofZ_le a b : a <= b -> (JS.ofZ a <= JS.ofZ b)%Q.
Proof. intros H. unfold JS.ofZ. rewrite <- Zle_Qle. exact H. Qed.

Lemma ofZ_lt a b : a < b -> (JS.ofZ a < JS.ofZ b)%Q.
Proof. intros H. unfold JS.ofZ. rewrite <- Zlt_Qlt. exact H. Qed.

Lemma mul_ofZ a b : (JS.mul (JS.ofZ a) (JS.ofZ b) == inject_Z (a * b))%Q.
Proof. unfold JS.mul, JS.ofZ. rewrite Qred_correct, inject_Z_mult. reflexivity. Qed.

Lemma max_lb a b : (a <= JS.max a b)%Q.
Proof.
  unfold JS.max. destruct (JS.ltb a b) eqn:E.
  - apply JSFacts.ltb_lt in E. apply Qlt_le_weak, E.
  - apply Qle_refl.
Qed.

Lemma ceil_pos q : (0 < q)%Q -> (0 < JS.ofZ (JS.ceil q))%Q.
Proof. intros H. eapply Qlt_le_trans; [exact H | apply Qle_ceiling]. Qed.

(** The two halves of a span of [w] pixels from the integer [c], cut at
    [c + w / 2 - e] and rounded outwards, end exactly at [c + w]. *)
Lemma floor_ceil_span (c w : Z) (e : Q) :
  JS.floor (JS.sub (JS.add (JS.ofZ c) (JS.div (JS.ofZ w) (JS.ofZ 2))) e)
  + JS.ceil (JS.add (JS.div (JS.ofZ w) (JS.ofZ 2)) e) = c + w.
Proof.
  unfold JS.floor, JS.ceil, JS.sub, JS.add, JS.div, JS.ofZ, Qceiling.
  set (v := (inject_Z w / inject_Z 2 + e)%Q).
  assert (H1 : (Qred (Qred (inject_Z c + Qred (inject_Z w / inject_Z 2)) - e)
                == inject_Z (c + w) + - v)%Q).
  { rewrite !Qred_correct, inject_Z_plus. unfold v.
    change (inject_Z 2) with (2 # 1)%Q. field. }
  assert (H2 : (- Qred (Qred (inject_Z w / inject_Z 2) + e) == - v)%Q).
  { rewrite !Qred_correct. reflexivity. }
  rewrite (Qfloor_comp _ _ H1), (Qfloor_comp _ _ H2), floor_add_int. lia.
Qed.

End JSArith.

Ltac run :=
  cbv beta iota zeta delta
    [events result after mbind M_bind mret M_ret emit get modify skip when forM_
     ctx_fillStyle ctx_strokeStyle ctx_globalAlpha ctx_lineWidth ctx_lineCap
     ctx_font ctx_fillRect ctx_fillText ctx_beginPath ctx_moveTo ctx_lineTo
     ctx_arc ctx_closePath ctx_fill ctx_stroke fst snd app].

(** Run the statements of a method whose conditions are known. *)
Ltac exec :=
  cbv beta iota zeta delta
    [mbind M_bind mret M_ret get modify emit skip when negb orb andb fst snd].

(** Strip the normalisation of the JavaScript operators and turn the
    integer constants into rational ones, for [lra]. *)
Ltac jsnum :=
  unfold JS.add, JS.sub, JS.mul, JS.div, JS.ofZ;
  rewrite ?Qred_correct, ?inject_Z_opp;
  unfold Qdiv;
  repeat match goal with
         | |- context [Qinv (inject_Z (Zpos ?p))] =>
           change (Qinv (inject_Z (Zpos p))) with (1 # p)%Q
         | |- context [inject_Z (Zpos ?p)] =>
           change (inject_Z (Zpos p)) with (Zpos p # 1)%Q
         | |- context [inject_Z 0] => change (inject_Z 0) with 0%Q
         end.

(** Carry a linear fact of [Z] over to [Q]. *)
Ltac to_Q H :=
  apply JSArith.ofZ_le in H; unfold JS.ofZ in H;
  rewrite ?inject_Z_plus, ?inject_Z_mult, ?inject_Z_opp in H;
  repeat match type of H with
         | context [inject_Z (Zpos ?p)] =>
           change (inject_Z (Zpos p)) with (Zpos p # 1)%Q in H
         | context [inject_Z 0] => change (inject_Z 0) with 0%Q in H
         end.

Tactic Notation "zfact" constr(P) "as" ident(H) :=
  assert (H : P) by (Z.to_euclidean_division_equations; lia); to_Q H.

(** View a goal about one run as a goal about every run. *)
Ltac as_sat :=
  lazymatch goal with
  | |- Forall ?P (events ?m ?r0) =>
    cut (sat P m); [let Hs := fresh in intros Hs; exact (Hs r0)|]
  end.

Lemma sat_forM_In {A} (P : Event -> Prop) (l : list A) (body : A -> M unit) :
  (forall a, In a l -> sat P (body a)) -> sat P (forM_ l body).
Proof.
  intros H. induction l as [|a l IH]; simpl.
  - apply (sat_ret P tt).
  - apply sat_bind; [apply H; left; reflexivity |].
    intros _. apply IH. intros b Hb. apply H. right. exact Hb.
Qed.

Lemma events_enter_get {A} p (k : Renderer -> M A) r :
  events (emit (Enter p) ;; r0 ← get; k r0) r = Enter p :: events (k r) r.
Proof. rewrite events_bind. simpl. rewrite events_bind. reflexivity. Qed.

Lemma events_enter {A} p (m : M A) r :
  events (emit (Enter p) ;; m) r = Enter p :: events m r.
Proof. rewrite events_bind. reflexivity. Qed.

Lemma filter_none (p : Event -> bool) l :
  Forall (fun e => p e = false) l -> List.filter p l = [].
Proof.
  induction 1 as [|e l He _ IH]; simpl; [reflexivity|]. rewrite He. exact IH.
Qed.

Lemma filter_forM (p : Event -> bool) {A} (l : list A) (body : A -> M unit)
    (g : A -> list Event) :
  (forall a r, List.filter p (events (body a) r) = g a) ->
  forall r, List.filter p (events (forM_ l body) r) = concat (map g l).
Proof.
  intros H. induction l as [|a l IH]; intros r; simpl.
  - reflexivity.
  - rewrite events_bind, List.filter_app, H, IH. reflexivity.
Qed.

Lemma concat_map_visible {A} (keep : A -> bool) (mark : A -> Event) (l : list A) :
  concat (map (fun a => if keep a then [mark a] else []) l)
  = map mark (List.filter keep l).
Proof.
  induction l as [|a l IH]; simpl; [reflexivity|].
  destruct (keep a); simpl; rewrite IH; reflexivity.
Qed.

Lemma filter_forM_In (p : Event -> bool) {A} (l : list A) (body : A -> M unit)
    (g : A -> list Event) :
  (forall a r, a ∈ l -> List.filter p (events (body a) r) = g a) ->
  forall r, List.filter p (events (forM_ l body) r) = concat (map g l).
Proof.
  intros H. induction l as [|a l IH]; intros r; simpl.
  - reflexivity.
  - rewrite events_bind, List.filter_app, H by left.
    rewrite IH; [reflexivity|]. intros b r' Hb. apply H. right. exact Hb.
Qed.

Lemma count_forM (p : Event -> bool) {A} (l : list A) (body : A -> M unit) (n : A -> nat) :
  (forall a r, length (List.filter p (events (body a) r)) = n a) ->
  forall r, length (List.filter p (events (forM_ l body) r)) = sum_list (map n l).
Proof.
  intros H. induction l as [|a l IH]; intros r; simpl; [reflexivity|].
  rewrite events_bind, List.filter_app, length_app, H, IH. reflexivity.
Qed.

Lemma in_bind_r {A B} e (m : M A) (k : A -> M B) r :
  In e (events (k (result m r)) (after m r)) -> In e (events (m ≫= k) r).
Proof. intros H. rewrite events_bind. apply in_or_app. right. exact H. Qed.

Lemma in_bind_l {A B} e (m : M A) (k : A -> M B) r :
  In e (events m r) -> In e (events (m ≫= k) r).
Proof. intros H. rewrite events_bind. apply in_or_app. left. exact H. Qed.

Lemma in_forM {A} e (l : list A) (body : A -> M unit) a :
  a ∈ l -> (forall r, In e (events (body a) r)) ->
  forall r, In e (events (forM_ l body) r).
Proof.
  intros Hin Hb. induction l as [|b l IH]; intros r; [inversion Hin|].
  cbn [forM_]. apply elem_of_cons in Hin as [<- | Hin].
  - apply in_bind_l, Hb.
  - apply in_bind_r, IH, Hin.
Qed.

Lemma forM_skips {A} (l : list A) (body : A -> M unit) r :
  (forall a, a ∈ l -> body a = skip) -> forM_ l body r = (tt, r, []).
Proof.
  intros H. induction l as [|a l IH]; [reflexivity|].
  cbn [forM_]. unfold mbind, M_bind. rewrite (H a) by (left).
  change (skip r) with (tt, r, @nil Event). cbv iota beta.
  rewrite IH; [reflexivity|]. intros b Hb. apply H. right. exact Hb.
Qed.

Lemma bind_run {A B} (m : M A) (k : A -> M B) r a r' :
  m r = (a, r', []) -> events (m ≫= k) r = events (k a) r'.
Proof.
  intros H. rewrite events_bind. unfold events at 1, result, after.
  rewrite H. reflexivity.
Qed.

(** The glyph procedures, through a consequence [lem] of [glyphEvent]. *)
Ltac glyph_sat_via lem :=
  eapply sat_mono; [exact lem|];
  lazymatch goal with
  | |- sat _ (drawBoxChar _ _ _ _) => apply drawBoxChar_sat
  | |- sat _ (drawBlockChar _ _ _ _) => apply drawBlockChar_sat
  | |- sat _ (drawBrailleChar _ _ _ _) => apply drawBrailleChar_sat
  | |- sat _ (drawSextantChar _ _ _ _) => apply drawSextantChar_sat
  | |- sat _ (drawCornerTriangle _ _ _ _) => apply drawCornerTriangle_sat
  | |- sat _ (drawPowerlineChar _ _ _ _) => apply drawPowerlineChar_sat
  | |- sat _ (drawLegacyWedge _ _ _ _) => apply drawLegacyWedge_sat
  | |- sat _ (drawOctant _ _ _ _) => apply drawOctant_sat
  | |- sat _ (drawSmoothMosaic _ _ _ _) => apply drawSmoothMosaic_sat
  | |- sat _ (drawRoundedCorner _ _ _ _) => apply drawRoundedCorner_sat
  | |- sat _ (drawDashedLine _ _ _ _) => apply drawDashedLine_sat
  end.

Ltac cell_sat_via lem :=
  unfold_ctx; repeat (cbv zeta; first [sat_step ltac:(reflexivity) | glyph_sat_via lem]).

(** ** The glyph classifier *)

Ltac literal_cases H cp :=
  destruct cp as [|?p|?p]; try discriminate H;
  repeat match type of H with
         | context [match ?p with _ => _ end] =>
           is_var p; destruct p; simpl in H; try discriminate H
         end.

Lemma powerline_codepoints cp :
  isPowerlineChar cp = true ->
  In cp [0xe0b0; 0xe0b2; 0xe0b4; 0xe0b6; 0x25b6; 0x25c0; 0x25b2; 0x25bc; 0x25ba; 0x25c4].
Proof.
  intros H. unfold isPowerlineChar in H.
  literal_cases H cp; simpl; tauto.
Qed.

Ltac range_bools :=
  unfold isBoxDrawingChar, isBlockElement, isBraillePattern, isSextant,
    isCornerTriangle, isLegacyWedge, isOctant, isSmoothMosaic,
    isRoundedCorner, isDashedLine, inRange in *;
  repeat match goal with
         | H : _ && _ = true |- _ => apply andb_true_iff in H; destruct H
         | H : _ || _ = true |- _ => apply orb_true_iff in H; destruct H
         | H : (_ <=? _) = true |- _ => apply Z.leb_le in H
         | H : (_ <? _) = true |- _ => apply Z.ltb_lt in H
         end.

(** X1: the nine tests that the text pass tries before the rounded-corner
    and dashed-line tests (box drawing, block element, braille, sextant,
    corner triangle, powerline, legacy wedge, octant, smooth mosaic) accept
    pairwise disjoint sets of codepoints: a codepoint that one of them
    accepts is refused by each of the others. *)
Theorem glyph_families_disjoint cp i j p q :
  i <> j -> dispatchTests !! i = Some p -> dispatchTests !! j = Some q ->
  p cp = true -> q cp = false.
Proof.
  intros Hij Hp Hq Hc.
  assert (Hpl : forall f, f = isPowerlineChar -> f cp = true ->
            In cp [0xe0b0; 0xe0b2; 0xe0b4; 0xe0b6; 0x25b6; 0x25c0; 0x25b2; 0x25bc; 0x25ba; 0x25c4])
    by (intros f ->; apply powerline_codepoints).
  repeat (destruct i as [|i]; simpl in Hp; try discriminate Hp);
    injection Hp as <-;
    repeat (destruct j as [|j]; simpl in Hq; try discriminate Hq);
    injection Hq as <-; try congruence; clear Hij.
  all: try (apply (Hpl _ eq_refl) in Hc; simpl in Hc;
            repeat (destruct Hc as [<-|Hc]); try reflexivity; contradiction).
  all: clear Hpl.
  all: try (destruct (isPowerlineChar cp) eqn:E; [|reflexivity];
            apply powerline_codepoints in E; simpl in E;
            repeat (destruct E as [<-|E]); try discriminate Hc; contradiction).
  all: range_bools; apply andb_false_iff;
       rewrite !Z.leb_gt; lia.
Qed.

Ltac range_cases cp lo n :=
  let H := fresh "Hin" in
  assert (H : In cp (seqZ lo n))
    by (apply list_elem_of_In, elem_of_seqZ; range_bools; lia);
  cbv in H;
  repeat (destruct H as [<-|H]); [..|contradiction].

Lemma inRange_outside lo hi cp :
  cp < lo \/ hi < cp -> inRange lo hi cp = false.
Proof.
  intros H. unfold inRange. apply andb_false_iff. rewrite !Z.leb_gt. lia.
Qed.

(** X2: [getBlockType] is defined exactly on the codepoints that
    [isBlockElement] accepts, and [getLegacyWedgeType] exactly on those that
    [isLegacyWedge] accepts. *)
Theorem block_and_wedge_decoders_defined cp :
  (is_Some (getBlockType cp) <-> isBlockElement cp = true)
  /\ (is_Some (getLegacyWedgeType cp) <-> isLegacyWedge cp = true).
Proof.
  split; split.
  - intros [b H]. unfold getBlockType in H.
    literal_cases H cp; reflexivity.
  - intros H. range_cases cp 0x2580 32; eexists; reflexivity.
  - intros [w H]. destruct (isLegacyWedge cp) eqn:E; [reflexivity|].
    unfold isLegacyWedge in E. apply andb_false_iff in E.
    rewrite !Z.leb_gt in E. unfold getLegacyWedgeType in H.
    rewrite !inRange_outside in H by lia. discriminate H.
  - intros H. range_cases cp 0x1fb3c 80; eexists; reflexivity.
Qed.

(** X3: [getTriangleCorner] is defined exactly on the codepoints that
    [isCornerTriangle] accepts, and [getPowerlineDirection] exactly on those
    that [isPowerlineChar] accepts. *)
Theorem triangle_and_powerline_decoders_defined cp :
  (is_Some (getTriangleCorner cp) <-> isCornerTriangle cp = true)
  /\ (is_Some (getPowerlineDirection cp) <-> isPowerlineChar cp = true).
Proof.
  split; split.
  - intros [b H]. unfold getTriangleCorner in H.
    literal_cases H cp; reflexivity.
  - intros H. range_cases cp 0x25e2 4; eexists; reflexivity.
  - intros [b H]. unfold getPowerlineDirection in H.
    literal_cases H cp; reflexivity.
  - intros H. apply powerline_codepoints in H. simpl in H.
    repeat (destruct H as [<-|H]); try (eexists; reflexivity); contradiction.
Qed.

(** X4: [getRoundedCornerType] is defined exactly on the codepoints that
    [isRoundedCorner] accepts, [getDashedLineConfig] exactly on those that
    [isDashedLine] accepts, and a dashed line has 2, 3 or 4 dashes. *)
Theorem rounded_and_dashed_decoders_defined cp :
  (is_Some (getRoundedCornerType cp) <-> isRoundedCorner cp = true)
  /\ (is_Some (getDashedLineConfig cp) <-> isDashedLine cp = true)
  /\ (forall config, getDashedLineConfig cp = Some config ->
        2 <= dashes config <= 4).
Proof.
  split; [|split]; [split|split|].
  - intros [b H]. unfold getRoundedCornerType in H.
    literal_cases H cp; reflexivity.
  - intros H. range_cases cp 0x256d 4; eexists; reflexivity.
  - intros [b H]. unfold getDashedLineConfig in H.
    literal_cases H cp; reflexivity.
  - intros H. unfold isDashedLine in H. apply orb_true_iff in H.
    destruct H as [H|H].
    + range_cases cp 0x2504 8; eexists; reflexivity.
    + range_cases cp 0x254c 4; eexists; reflexivity.
  - intros config H. unfold getDashedLineConfig in H.
    literal_cases H cp; injection H as <-; simpl; lia.
Qed.

Lemma forallb_seqZ (f : Z -> bool) lo n cp :
  forallb f (seqZ lo n) = true -> lo <= cp < lo + n -> f cp = true.
Proof.
  intros H Hr. rewrite forallb_forall in H. apply H.
  apply list_elem_of_In, elem_of_seqZ. lia.
Qed.

(** X5: the dots of a braille pattern and the cells of an octant are the
    binary digits, lowest first, of the offset of the codepoint in its
    block, so that the codepoint can be recovered from them. *)
Theorem braille_and_octant_bits_round_trip cp :
  (isBraillePattern cp = true -> bitsValue (getBrailleDots cp) = cp - 0x2800)
  /\ (isOctant cp = true -> bitsValue (getOctantCells cp) = cp - 0x1cd00).
Proof.
  split; intros H; range_bools; apply Z.eqb_eq.
  - apply (forallb_seqZ (fun c => bitsValue (getBrailleDots c) =? c - 0x2800) 0x2800 256);
      [vm_compute; reflexivity | lia].
  - apply (forallb_seqZ (fun c => bitsValue (getOctantCells c) =? c - 0x1cd00) 0x1cd00 230);
      [vm_compute; reflexivity | lia].
Qed.

(** X6: on a sextant codepoint the six segments are the binary digits of
    the offset in the block plus one; at least one segment is filled and at
    least one is empty. *)
Theorem sextant_pattern_is_offset_plus_one cp :
  isSextant cp = true ->
  bitsValue (getSextantSegments cp) = cp - 0x1fb00 + 1
  /\ getSextantSegments cp <> replicate 6 false
  /\ getSextantSegments cp <> replicate 6 true.
Proof.
  intros H. range_bools.
  pose proof (forallb_seqZ
    (fun c => (bitsValue (getSextantSegments c) =? c - 0x1fb00 + 1)
              && negb (bool_decide (getSextantSegments c = replicate 6 false))
              && negb (bool_decide (getSextantSegments c = replicate 6 true)))
    0x1fb00 60 cp) as HH.
  lapply HH; [clear HH; intros HH|vm_compute; reflexivity].
  lapply HH; [clear HH; intros HH|lia].
  apply andb_true_iff in HH as [HH H3]. apply andb_true_iff in HH as [H1 H2].
  apply Z.eqb_eq in H1. apply negb_true_iff, bool_decide_eq_false in H2, H3.
  auto.
Qed.

Lemma glyph_families_disjoint_witness : isBlockElement 0x2500 = false.
Proof.
  apply (glyph_families_disjoint 0x2500 0%nat 1%nat isBoxDrawingChar isBlockElement);
    first [discriminate | reflexivity].
Defined.

Lemma sextant_pattern_is_offset_plus_one_witness :
  bitsValue (getSextantSegments 0x1fb13) = 0x1fb13 - 0x1fb00 + 1
  /\ getSextantSegments 0x1fb13 <> replicate 6 false
  /\ getSextantSegments 0x1fb13 <> replicate 6 true.
Proof. apply (sextant_pattern_is_offset_plus_one 0x1fb13). reflexivity. Defined.

(** ** Where the glyph procedures paint *)

(** X7: with non-negative cell metrics, every rectangle filled by
    [drawBlockChar] lies within the cell it is drawn for. *)
Theorem drawBlockChar_within_cell cp cellX cellY fg r :
  0 <= FontMetrics.width (metrics r) ->
  0 <= FontMetrics.height (metrics r) ->
  Forall (rectWithin cellX cellY (FontMetrics.width (metrics r))
                     (FontMetrics.height (metrics r)))
         (events (drawBlockChar cp cellX cellY fg) r).
Proof.
  set (w := FontMetrics.width (metrics r)). set (h := FontMetrics.height (metrics r)).
  intros Hw Hh. unfold drawBlockChar.
  destruct (getBlockType cp) as [b|] eqn:H; [|run; repeat constructor].
  assert (Hb : match b with
               | upper e | lower e | left_block e | right_block e => 0 <= e <= 8
               | _ => True
               end).
  { unfold getBlockType in H. literal_cases H cp; injection H as <-; lia || exact I. }
  clear H.
  pose proof (JSArith.ofZ_le _ _ Hw) as Hw'. pose proof (JSArith.ofZ_le _ _ Hh) as Hh'.
  unfold JS.ofZ in Hw', Hh'. change (inject_Z 0) with 0%Q in Hw', Hh'.
  assert (Hround : forall m e : Z, 0 <= m -> 0 <= e <= 8 ->
            exists R : Z, JS.round (JS.div (JS.mul (JS.ofZ m) (JS.ofZ e)) (JS.ofZ 8)) = R
                          /\ (0 <= inject_Z R)%Q /\ (inject_Z R <= inject_Z m)%Q).
  { intros m e Hm He. eexists. split.
    - apply (JSArith.round_div _ (m * e) 8); [lia | apply JSArith.mul_ofZ].
    - split; [apply (JSArith.ofZ_le 0) | apply JSArith.ofZ_le];
        Z.to_euclidean_division_equations; nia. }
  assert (Hhalf : forall m : Z, 0 <= m ->
            exists C F : Z, JS.ceil (JS.div (JS.ofZ m) (JS.ofZ 2)) = C
              /\ JS.floor (JS.div (JS.ofZ m) (JS.ofZ 2)) = F
              /\ (0 <= inject_Z C)%Q /\ (0 <= inject_Z F)%Q
              /\ (inject_Z F + inject_Z C == inject_Z m)%Q).
  { intros m Hm. eexists. eexists. split; [|split].
    - apply (JSArith.ceil_div _ m 2). reflexivity.
    - apply (JSArith.floor_div _ m 2). reflexivity.
    - split; [|split].
      + apply (JSArith.ofZ_le 0). Z.to_euclidean_division_equations; lia.
      + apply (JSArith.ofZ_le 0). Z.to_euclidean_division_equations; lia.
      + rewrite <- inject_Z_plus. apply inject_Z_injective.
        Z.to_euclidean_division_equations; lia. }
  destruct b as [|e|e|e|e|q1 q2 q3 q4|density].
  - run. fold w h. repeat constructor; jsnum; lra.
  - run. fold w h. destruct (Hround h e Hh Hb) as (R & -> & HR1 & HR2).
    repeat constructor; jsnum; lra.
  - run. fold w h. destruct (Hround h e Hh Hb) as (R & -> & HR1 & HR2).
    repeat constructor; jsnum; lra.
  - run. fold w h. destruct (Hround w e Hw Hb) as (R & -> & HR1 & HR2).
    repeat constructor; jsnum; lra.
  - run. fold w h. destruct (Hround w e Hw Hb) as (R & -> & HR1 & HR2).
    repeat constructor; jsnum; lra.
  - destruct (Hhalf w Hw) as (Cw & Fw & Hcw & Hfw & ? & ? & ?).
    destruct (Hhalf h Hh) as (Ch & Fh & Hch & Hfh & ? & ? & ?).
    destruct q1, q2, q3, q4; run; fold w h; rewrite ?Hcw, ?Hfw, ?Hch, ?Hfh;
      repeat constructor; jsnum; lra.
  - run. fold w h. repeat constructor; jsnum; lra.
Qed.

Lemma drawBlockChar_within_cell_witness :
  Forall (rectWithin 27 34 9%Z 17%Z)
         (events (drawBlockChar 0x2584 27 34 (CssRgb 255 255 255)) (Sample.renderer 90 85)).
Proof.
  apply (drawBlockChar_within_cell 0x2584 27 34 (CssRgb 255 255 255)
           (Sample.renderer 90 85)); simpl; lia.
Defined.

(** X8: with non-negative cell metrics, every rectangle filled by
    [drawSextantChar] and by [drawOctant] lies within the cell. *)
Theorem sextant_and_octant_within_cell cp cellX cellY fg r :
  0 <= FontMetrics.width (metrics r) ->
  0 <= FontMetrics.height (metrics r) ->
  Forall (rectWithin cellX cellY (FontMetrics.width (metrics r))
                     (FontMetrics.height (metrics r)))
         (events (drawSextantChar cp cellX cellY fg) r)
  /\ Forall (rectWithin cellX cellY (FontMetrics.width (metrics r))
                        (FontMetrics.height (metrics r)))
            (events (drawOctant cp cellX cellY fg) r).
Proof.
  set (w := FontMetrics.width (metrics r)). set (h := FontMetrics.height (metrics r)).
  intros Hw Hh.
  zfact (0 <= w) as Qw. zfact (0 <= h) as Qh.
  zfact (0 <= w / 2) as Fw0. zfact (0 <= - (- w / 2)) as Cw0.
  zfact (- (- w / 2) <= w) as Cw1. zfact (w / 2 <= w) as Fw1.
  split.
  - zfact (0 <= h / 3) as F0. zfact (0 <= - (- h / 3)) as C0.
    zfact (- (- h / 3) <= h) as C1. zfact (h / 3 + - (- h / 3) <= h) as FC.
    zfact (h / 3 * 2 <= h) as F2.
    unfold drawSextantChar. rewrite events_enter_get. constructor; [exact I|].
    fold w h. cbv zeta. as_sat.
    apply sat_bind; [unfold ctx_fillStyle; sat_auto ltac:(exact I)|intros _].
    apply sat_forM_In. intros [seg [col row]] Hin.
    unfold getSextantSegments, segmentPositions in Hin. cbn [zip zip_with In] in Hin.
    apply sat_when, sat_emit.
    rewrite ?(JSArith.floor_div _ w 2), ?(JSArith.ceil_div _ w 2),
      ?(JSArith.floor_div _ h 3), ?(JSArith.ceil_div _ h 3) by reflexivity.
    repeat (destruct Hin as [Hin|Hin]; [injection Hin as _ <- <-|]);
      [..|contradiction]; cbn [Z.eqb Pos.eqb]; unfold rectWithin;
      repeat split; jsnum; lra.
  - zfact (0 <= h / 4) as F0. zfact (0 <= - (- h / 4)) as C0.
    zfact (- (- h / 4) <= h) as C1. zfact (h / 4 + - (- h / 4) <= h) as FC.
    zfact (h / 4 * 2 + - (- h / 4) <= h) as FC2.
    zfact (h / 4 * 3 <= h) as F3.
    unfold drawOctant. rewrite events_enter_get. constructor; [exact I|].
    fold w h. cbv zeta. as_sat.
    apply sat_bind; [unfold ctx_fillStyle; sat_auto ltac:(exact I)|intros _].
    apply sat_forM_In. intros [seg [col row]] Hin.
    unfold getOctantCells, octantPositions in Hin. cbn [zip zip_with In] in Hin.
    apply sat_when, sat_emit.
    rewrite ?(JSArith.floor_div _ w 2), ?(JSArith.ceil_div _ w 2),
      ?(JSArith.floor_div _ h 4), ?(JSArith.ceil_div _ h 4) by reflexivity.
    repeat (destruct Hin as [Hin|Hin]; [injection Hin as _ <- <-|]);
      [..|contradiction]; cbn [Z.eqb Pos.eqb]; unfold rectWithin;
      repeat split; jsnum; lra.
Qed.

Lemma sextant_and_octant_within_cell_witness :
  Forall (rectWithin 27 34 9%Z 17%Z)
         (events (drawSextantChar 0x1fb13 27 34 (CssRgb 255 255 255)) (Sample.renderer 90 85))
  /\ Forall (rectWithin 27 34 9%Z 17%Z)
            (events (drawOctant 0x1fb13 27 34 (CssRgb 255 255 255)) (Sample.renderer 90 85)).
Proof.
  apply (sextant_and_octant_within_cell 0x1fb13 27 34 (CssRgb 255 255 255)
           (Sample.renderer 90 85)); simpl; lia.
Defined.

(** ** Box-drawing glyphs in adjacent cells *)

(** Decide the tests on line styles whose operands are known. *)
Ltac styles :=
  cbn [left right up down];
  unfold styleIsNot, styleIs;
  repeat match goal with
         | |- context [bool_decide (?a = ?b)] =>
           let v := eval vm_compute in (bool_decide (a = b)) in
           lazymatch v with
           | true => change (bool_decide (a = b)) with true
           | false => change (bool_decide (a = b)) with false
           end
         end;
  cbn [negb orb andb getThickness].


Lemma box_map_forall (P : BoxLines -> bool) :
  forallb (fun kv => P kv.2) (map_to_list BOX_DRAWING_MAP) = true ->
  forall cp l, getBoxLines cp = Some l -> P l = true.
Proof.
  intros H cp l Hl. unfold getBoxLines in Hl.
  apply (proj2 (elem_of_map_to_list _ _ _)) in Hl.
  rewrite forallb_forall in H.
  exact (H (cp, l) (proj1 (list_elem_of_In _ _) Hl)).
Qed.

(** No entry of the map pairs a double arm with a single arm on the same
    axis, so an axis is drawn either by the double branch or by the single
    one. *)
Lemma box_lines_unmixed cp l :
  getBoxLines cp = Some l ->
  (right l <> none -> right l <> double -> left l <> double)
  /\ (left l <> none -> left l <> double -> right l <> double)
  /\ (down l <> none -> down l <> double -> up l <> double)
  /\ (up l <> none -> up l <> double -> down l <> double).
Proof.
  intros H.
  apply (box_map_forall (fun l =>
    implb (styleIs (left l) double) (styleIs (right l) none || styleIs (right l) double)
    && implb (styleIs (right l) double) (styleIs (left l) none || styleIs (left l) double)
    && implb (styleIs (up l) double) (styleIs (down l) none || styleIs (down l) double)
    && implb (styleIs (down l) double) (styleIs (up l) none || styleIs (up l) double))) in H;
    [|vm_compute; reflexivity].
  destruct l as [[] [] [] []]; cbn in H; try discriminate H;
    repeat split; cbn; congruence.
Qed.

Section BoxArms.
Context (r : Renderer).
Local Abbreviation w := (FontMetrics.width (metrics r)).
Local Abbreviation h := (FontMetrics.height (metrics r)).
Local Abbreviation doubleGap := (JS.max 2 (JS.round (h / 8))).
Local Abbreviation doubleLineThickness := (JS.max 1 (JS.round (h / 16))).
Local Abbreviation armThickness s :=
  (getThickness (JS.max 1 (JS.round (h / 12))) (JS.max 2 (JS.round (h / 6)))
                doubleLineThickness s).
(** Where the (first) stroke of an arm of style [s] lies across its axis,
    given the centre [centre] of the cell on the other axis. *)
Local Abbreviation armOffset centre s :=
  (match s with
   | double =>
     (centre - (doubleGap + doubleLineThickness) / 2 - doubleLineThickness / 2)%js
   | _ => JS.ofZ (JS.round (centre - armThickness s / 2))
   end).

(** The same for a vertical arm, whose position is rounded in both
    branches. *)
Local Abbreviation armColumn centre s :=
  (match s with
   | double =>
     JS.round (centre - (doubleGap + doubleLineThickness) / 2 - doubleLineThickness / 2)
   | _ => JS.round (centre - armThickness s / 2)
   end).

Lemma armThickness_pos s : s <> none -> (0 < armThickness s)%Q.
Proof.
  intros Hs. destruct s; [congruence|..]; cbn [getThickness];
    (eapply Qlt_le_trans; [|apply JSArith.max_lb]); reflexivity.
Qed.

(** Reach the horizontal arms in the trace of [drawBoxChar]. *)
Ltac horizontal_part H :=
  unfold drawBoxChar; rewrite H, events_enter_get; cbv zeta;
  right; rewrite events_bind; apply in_or_app; right;
  rewrite events_bind; apply in_or_app; left.

(** Reach the vertical arms. *)
Ltac vertical_part H :=
  unfold drawBoxChar; rewrite H, events_enter_get; cbv zeta;
  right; rewrite events_bind; apply in_or_app; right;
  rewrite events_bind; apply in_or_app; right.

(** The arm towards the near edge is drawn first, the other one last; a
    double arm is two strokes, of which the first is taken. *)
Ltac pick_first := left; reflexivity.
Ltac pick_last s :=
  lazymatch s with
  | double =>
    lazymatch goal with
    | |- In _ [_; _] => left
    | |- In _ [_; _; _; _] => right; right; left
    end
  | _ =>
    lazymatch goal with
    | |- In _ [_] => left
    | |- In _ [_; _] => right; left
    end
  end; reflexivity.

(** The far end of an arm: [x + w] is the edge of the cell. *)
Ltac arm_end :=
  lazymatch goal with
  | |- (JS.ofZ ?a + JS.ofZ ?b == JS.ofZ ?c)%Q =>
    change (inject_Z a + inject_Z b == inject_Z c)%Q;
    rewrite <- inject_Z_plus; apply inject_Z_injective;
    first [apply JSArith.floor_ceil_span | reflexivity]
  | |- _ => jsnum; rewrite ?inject_Z_plus; lra
  end.

Ltac arm_pos Qw :=
  first [ exact Qw | apply JSArith.ceil_pos; jsnum; lra | jsnum; lra ].

Ltac name_thickness HT :=
  match type of HT with (0 < ?T)%Q => set (T0 := T) in * end.

Lemma box_right_arm cp la (c : Z) (cellY : Q) fg s :
  getBoxLines cp = Some la -> 0 < w ->
  right la = s -> s <> none -> (s <> none -> s <> double -> left la <> double) ->
  exists x1 w1,
    In (FillRect x1 (armOffset (cellY + h / 2)%js s) w1 (armThickness s))
       (events (drawBoxChar cp c cellY fg) r)
    /\ (x1 + w1 == JS.ofZ (c + w))%Q /\ (0 < w1)%Q.
Proof.
  intros H Hw Hs Hs' Hl.
  pose proof (JSArith.ofZ_lt _ _ Hw) as Qw. unfold JS.ofZ in Qw.
  change (inject_Z 0) with 0%Q in Qw.
  destruct la as [u rt d l]. cbn [left right] in Hs, Hl. subst rt.
  assert (HT := armThickness_pos s Hs').
  destruct s eqn:Es; [congruence|..]; destruct l;
    try (exfalso; apply Hl; [discriminate|discriminate|reflexivity]);
    cbn [getThickness] in HT;
    eexists; eexists;
    (split; [horizontal_part H; styles; run;
             match type of Hs' with ?s0 <> _ => pick_last s0 end|]).
  all: name_thickness HT; split; [arm_end | arm_pos Qw].
Qed.

Lemma box_left_arm cp lb (cellX cellY : Q) fg s :
  getBoxLines cp = Some lb -> 0 < w ->
  left lb = s -> s <> none -> (s <> none -> s <> double -> right lb <> double) ->
  exists w2,
    In (FillRect cellX (armOffset (cellY + h / 2)%js s) w2 (armThickness s))
       (events (drawBoxChar cp cellX cellY fg) r)
    /\ (0 < w2)%Q.
Proof.
  intros H Hw Hs Hs' Hr.
  pose proof (JSArith.ofZ_lt _ _ Hw) as Qw. unfold JS.ofZ in Qw.
  change (inject_Z 0) with 0%Q in Qw.
  destruct lb as [u rt d l]. cbn [left right] in Hs, Hr. subst l.
  assert (HT := armThickness_pos s Hs').
  destruct s; [congruence|..]; destruct rt;
    try (exfalso; apply Hr; [discriminate|discriminate|reflexivity]);
    cbn [getThickness] in HT;
    eexists; (split; [horizontal_part H; styles; run; pick_first|]).
  all: name_thickness HT; arm_pos Qw.
Qed.

Lemma box_down_arm cp la (cellX : Q) (c : Z) fg s :
  getBoxLines cp = Some la -> 0 < h ->
  down la = s -> s <> none -> (s <> none -> s <> double -> up la <> double) ->
  exists y1 h1,
    In (FillRect (armColumn (cellX + w / 2)%js s) y1 (armThickness s) h1)
       (events (drawBoxChar cp cellX c fg) r)
    /\ (y1 + h1 == JS.ofZ (c + h))%Q /\ (0 < h1)%Q.
Proof.
  intros H Hh Hs Hs' Hu.
  pose proof (JSArith.ofZ_lt _ _ Hh) as Qh. unfold JS.ofZ in Qh.
  change (inject_Z 0) with 0%Q in Qh.
  destruct la as [u rt d l]. cbn [up down] in Hs, Hu. subst d.
  assert (HT := armThickness_pos s Hs').
  destruct s eqn:Es; [congruence|..]; destruct u;
    try (exfalso; apply Hu; [discriminate|discriminate|reflexivity]);
    cbn [getThickness] in HT;
    eexists; eexists;
    (split; [vertical_part H; styles; run;
             match type of Hs' with ?s0 <> _ => pick_last s0 end|]).
  all: name_thickness HT; split; [arm_end | arm_pos Qh].
Qed.

Lemma box_up_arm cp lb (cellX cellY : Q) fg s :
  getBoxLines cp = Some lb -> 0 < h ->
  up lb = s -> s <> none -> (s <> none -> s <> double -> down lb <> double) ->
  exists h2,
    In (FillRect (armColumn (cellX + w / 2)%js s) cellY (armThickness s) h2)
       (events (drawBoxChar cp cellX cellY fg) r)
    /\ (0 < h2)%Q.
Proof.
  intros H Hh Hs Hs' Hd.
  pose proof (JSArith.ofZ_lt _ _ Hh) as Qh. unfold JS.ofZ in Qh.
  change (inject_Z 0) with 0%Q in Qh.
  destruct lb as [u rt d l]. cbn [up down] in Hs, Hd. subst u.
  assert (HT := armThickness_pos s Hs').
  destruct s; [congruence|..]; destruct d;
    try (exfalso; apply Hd; [discriminate|discriminate|reflexivity]);
    cbn [getThickness] in HT;
    eexists; (split; [vertical_part H; styles; run; pick_first|]).
  all: name_thickness HT; arm_pos Qh.
Qed.

End BoxArms.

(** X9: two mapped box-drawing glyphs in horizontally adjacent cells, the
    left one drawn at a whole pixel position, whose facing arms (right arm
    of the left glyph, left arm of the right glyph) have the same style,
    meet without a seam: the left glyph fills a rectangle that ends exactly
    on the shared edge, the right glyph fills a rectangle that starts there,
    and the two have the same vertical position and thickness. *)
Theorem box_arms_join_horizontally a b la lb (c : Z) (cellY : Q) fgA fgB r1 r2 :
  getBoxLines a = Some la -> getBoxLines b = Some lb ->
  metrics r2 = metrics r1 ->
  0 < FontMetrics.width (metrics r1) ->
  right la = left lb -> right la <> none ->
  exists x1 w1 w2 y t,
    In (FillRect x1 y w1 t) (events (drawBoxChar a c cellY fgA) r1)
    /\ In (FillRect (c + FontMetrics.width (metrics r1))%Z y w2 t)
          (events (drawBoxChar b (c + FontMetrics.width (metrics r1))%Z cellY fgB) r2)
    /\ (x1 + w1 == (c + FontMetrics.width (metrics r1))%Z)%Q
    /\ (0 < w1)%Q /\ (0 < w2)%Q /\ (0 < t)%Q.
Proof.
  intros Ha Hb Hm Hw Hs Hs'.
  destruct (box_lines_unmixed _ _ Ha) as (Hl & _).
  destruct (box_lines_unmixed _ _ Hb) as (_ & Hr & _).
  destruct (box_right_arm r1 a la c cellY fgA _ Ha Hw eq_refl Hs' Hl)
    as (x1 & w1 & Hin1 & Hend & Hw1).
  rewrite <- Hm in Hw. rewrite Hs in Hs'.
  destruct (box_left_arm r2 b lb (c + FontMetrics.width (metrics r1))%Z cellY fgB _
              Hb Hw eq_refl Hs' Hr) as (w2 & Hin2 & Hw2).
  rewrite Hm, <- Hs in Hin2.
  exists x1, w1, w2. eexists. eexists.
  split; [exact Hin1|]. split; [exact Hin2|]. split; [exact Hend|].
  split; [exact Hw1|]. split; [exact Hw2|].
  rewrite <- Hs in Hs'. apply armThickness_pos, Hs'.
Qed.

(** X10: the same for two glyphs in vertically adjacent cells: the down
    arm of the upper glyph ends exactly on the shared edge, where the up arm
    of the lower glyph starts, with the same horizontal position and
    thickness. *)
Theorem box_arms_join_vertically a b la lb (cellX : Q) (c : Z) fgA fgB r1 r2 :
  getBoxLines a = Some la -> getBoxLines b = Some lb ->
  metrics r2 = metrics r1 ->
  0 < FontMetrics.height (metrics r1) ->
  down la = up lb -> down la <> none ->
  exists y1 h1 h2 x t,
    In (FillRect x y1 t h1) (events (drawBoxChar a cellX c fgA) r1)
    /\ In (FillRect x (c + FontMetrics.height (metrics r1))%Z t h2)
          (events (drawBoxChar b cellX (c + FontMetrics.height (metrics r1))%Z fgB) r2)
    /\ (y1 + h1 == (c + FontMetrics.height (metrics r1))%Z)%Q
    /\ (0 < h1)%Q /\ (0 < h2)%Q /\ (0 < t)%Q.
Proof.
  intros Ha Hb Hm Hh Hs Hs'.
  destruct (box_lines_unmixed _ _ Ha) as (_ & _ & Hu & _).
  destruct (box_lines_unmixed _ _ Hb) as (_ & _ & _ & Hd).
  destruct (box_down_arm r1 a la cellX c fgA _ Ha Hh eq_refl Hs' Hu)
    as (y1 & h1 & Hin1 & Hend & Hh1).
  rewrite <- Hm in Hh. rewrite Hs in Hs'.
  destruct (box_up_arm r2 b lb cellX (c + FontMetrics.height (metrics r1))%Z fgB _
              Hb Hh eq_refl Hs' Hd) as (h2 & Hin2 & Hh2).
  rewrite Hm, <- Hs in Hin2.
  exists y1, h1, h2. eexists. eexists.
  split; [exact Hin1|]. split; [exact Hin2|]. split; [exact Hend|].
  split; [exact Hh1|]. split; [exact Hh2|].
  rewrite <- Hs in Hs'. apply armThickness_pos, Hs'.
Qed.

Lemma box_arms_join_horizontally_witness :
  exists x1 w1 w2 y t,
    In (FillRect x1 y w1 t)
       (events (drawBoxChar 0x2500 0%Z 0 (CssRgb 255 255 255)) (Sample.renderer 18 17))
    /\ In (FillRect (0 + 9)%Z y w2 t)
          (events (drawBoxChar 0x2510 (0 + 9)%Z 0 (CssRgb 255 255 255))
                  (Sample.renderer 18 17))
    /\ (x1 + w1 == (0 + 9)%Z)%Q
    /\ (0 < w1)%Q /\ (0 < w2)%Q /\ (0 < t)%Q.
Proof.
  apply (box_arms_join_horizontally 0x2500 0x2510
           (mkBoxLines none light none light) (mkBoxLines none none light light)
           0 0 (CssRgb 255 255 255) (CssRgb 255 255 255)
           (Sample.renderer 18 17) (Sample.renderer 18 17));
    first [reflexivity | discriminate].
Defined.

Lemma box_arms_join_vertically_witness :
  exists y1 h1 h2 x t,
    In (FillRect x y1 t h1)
       (events (drawBoxChar 0x2502 0 0%Z (CssRgb 255 255 255)) (Sample.renderer 9 34))
    /\ In (FillRect x 17%Z t h2)
          (events (drawBoxChar 0x2514 0 17%Z (CssRgb 255 255 255)) (Sample.renderer 9 34))
    /\ (y1 + h1 == 17%Z)%Q
    /\ (0 < h1)%Q /\ (0 < h2)%Q /\ (0 < t)%Q.
Proof.
  apply (box_arms_join_vertically 0x2502 0x2514
           (mkBoxLines light none light none) (mkBoxLines light light none none)
           0 0 (CssRgb 255 255 255) (CssRgb 255 255 255)
           (Sample.renderer 9 34) (Sample.renderer 9 34));
    first [reflexivity | discriminate].
Defined.

Lemma box_lines_nonempty cp l :
  getBoxLines cp = Some l ->
  (left l <> none \/ right l <> none) \/ (up l <> none \/ down l <> none).
Proof.
  intros H.
  apply (box_map_forall (fun l =>
    styleIsNot (left l) none || styleIsNot (right l) none
    || styleIsNot (up l) none || styleIsNot (down l) none)) in H;
    [|vm_compute; reflexivity].
  destruct l as [[] [] [] []]; cbn in H; try discriminate H; cbn;
    first [left; left; discriminate | left; right; discriminate
          | right; left; discriminate | right; right; discriminate].
Qed.

(** X11: [drawBoxChar] fills at least one rectangle if and only if the
    codepoint has an entry in [BOX_DRAWING_MAP]. *)
Theorem drawBoxChar_fills_iff_mapped cp cellX cellY fg r :
  (exists x y w h, In (FillRect x y w h) (events (drawBoxChar cp cellX cellY fg) r))
  <-> is_Some (getBoxLines cp).
Proof.
  split.
  - intros (x & y & w & h & Hin). destruct (getBoxLines cp) eqn:E; [eexists; reflexivity|].
    unfold drawBoxChar in Hin. rewrite E in Hin. cbv in Hin.
    destruct Hin as [Hin|[]]. discriminate Hin.
  - intros [l H]. destruct (box_lines_nonempty _ _ H) as [Hh|Hv].
    + destruct l as [u rt d l]. cbn [left right] in Hh.
      unfold drawBoxChar. rewrite H, events_enter_get. cbv zeta.
      destruct l, rt; try (exfalso; destruct Hh; congruence);
      eexists; eexists; eexists; eexists; (right; rewrite events_bind; apply in_or_app; right;
        rewrite events_bind; apply in_or_app; left); styles; run; left; reflexivity.
    + destruct l as [u rt d l]. cbn [up down] in Hv.
      unfold drawBoxChar. rewrite H, events_enter_get. cbv zeta.
      destruct u, d; try (exfalso; destruct Hv; congruence);
      eexists; eexists; eexists; eexists; (right; rewrite events_bind; apply in_or_app; right;
        rewrite events_bind; apply in_or_app; right); styles; run; left; reflexivity.
Qed.

(** ** Dashes and dots *)

(** X12: for a codepoint with a dashed-line configuration,
    [drawDashedLine] fills exactly as many rectangles as the configuration
    has dashes, all of one size. *)
Theorem drawDashedLine_dashes cp config cellX cellY fg r :
  getDashedLineConfig cp = Some config ->
  length (List.filter isFillRect (events (drawDashedLine cp cellX cellY fg) r))
  = Z.to_nat (dashes config)
  /\ exists w h, Forall (rectSized w h) (events (drawDashedLine cp cellX cellY fg) r).
Proof.
  intros H. unfold drawDashedLine. rewrite H, events_enter_get. cbv zeta.
  split.
  - cbn [List.filter isFillRect]. rewrite events_bind, List.filter_app, length_app.
    change (length (List.filter isFillRect (events (ctx_fillStyle fg) r))) with 0%nat.
    destruct (direction config);
      rewrite (count_forM isFillRect _ _ (fun _ => 1%nat)) by (intros; reflexivity);
      change (map (fun _ : Z => 1%nat)) with (fmap (M := list) (fun _ : Z => 1%nat));
      rewrite sum_list_fmap_const, length_seqZ; lia.
  - destruct (direction config); eexists; eexists;
      (constructor; [exact I|]);
      lazymatch goal with
      | |- Forall ?P (events ?m ?r0) =>
        cut (sat P m); [let Hs := fresh in intros Hs; exact (Hs r0)|]
      end;
      sat_auto ltac:(first [exact I | split; reflexivity]).
Qed.

Lemma drawDashedLine_dashes_witness :
  length (List.filter isFillRect
            (events (drawDashedLine 0x2508 0 0 (CssRgb 255 255 255)) (Sample.renderer 9 17)))
  = Z.to_nat (dashes (mkDashed horizontal w_light 4))
  /\ exists w h, Forall (rectSized w h)
                   (events (drawDashedLine 0x2508 0 0 (CssRgb 255 255 255))
                           (Sample.renderer 9 17)).
Proof.
  apply (drawDashedLine_dashes 0x2508 (mkDashed horizontal w_light 4) 0 0
           (CssRgb 255 255 255) (Sample.renderer 9 17)).
  reflexivity.
Defined.

(** X13: [drawBrailleChar] draws one arc for each raised dot of the
    pattern, and no other arc. *)
Theorem drawBrailleChar_one_dot_per_bit cp cellX cellY fg r :
  length (List.filter isArc (events (drawBrailleChar cp cellX cellY fg) r))
  = length (List.filter id (getBrailleDots cp)).
Proof.
  unfold drawBrailleChar. rewrite events_enter_get. cbv zeta.
  cbn [List.filter isArc]. rewrite events_bind, List.filter_app, length_app.
  change (length (List.filter isArc (events (ctx_fillStyle fg) r))) with 0%nat.
  rewrite (count_forM isArc _ _ (fun dp : bool * (Z * Z) => if dp.1 then 1%nat else 0%nat)).
  2:{ intros [dot [col row]] r'. destruct dot; reflexivity. }
  unfold getBrailleDots, dotPositions. cbv zeta.
  repeat match goal with |- context [bitSet ?a ?b] => destruct (bitSet a b) end;
    reflexivity.
Qed.

(** ** Cursor and scrollbar geometry *)

Lemma strip_bounds (m : Z) :
  2 <= m ->
  (0 <= JS.max 2 (JS.floor (m * (15 # 100))) /\ JS.max 2 (JS.floor (m * (15 # 100))) <= m)%Q.
Proof.
  intros Hm. apply JSArith.ofZ_le in Hm. unfold JS.ofZ in Hm.
  change (inject_Z 2) with 2%Q in Hm.
  unfold JS.max. destruct (JS.ltb _ _) eqn:E.
  - apply JSFacts.ltb_lt in E.
    pose proof (Qfloor_le (JS.mul (JS.ofZ m) (15 # 100))) as Hf.
    assert (Hf' := Qle_trans _ _ _ Hf
                     (proj2 (Qle_lteq _ _) (or_intror (JSFacts.mul_ok _ _)))).
    clear Hf. unfold JS.floor, JS.ofZ in *.
    change (inject_Z 2) with 2%Q in E.
    set (f := inject_Z (Qfloor _)) in *. split; lra.
  - unfold JS.ofZ. change (inject_Z 2) with 2%Q. split; lra.
Qed.

(** X14: when the cell is at least 2 pixels wide and high, the rectangle
    that [renderCursor] fills lies within the cursor's cell, for each of the
    three cursor styles. *)
Theorem renderCursor_within_cell x y r :
  2 <= FontMetrics.width (metrics r) ->
  2 <= FontMetrics.height (metrics r) ->
  Forall (rectWithin (x * FontMetrics.width (metrics r))%Z
                     (y * FontMetrics.height (metrics r))%Z
                     (FontMetrics.width (metrics r)) (FontMetrics.height (metrics r)))
         (events (renderCursor x y) r).
Proof.
  set (w := FontMetrics.width (metrics r)). set (h := FontMetrics.height (metrics r)).
  intros Hw Hh.
  destruct (strip_bounds w Hw) as [Hw1 Hw2]. destruct (strip_bounds h Hh) as [Hh1 Hh2].
  apply JSArith.ofZ_le in Hw, Hh. unfold JS.ofZ in Hw, Hh.
  change (inject_Z 2) with 2%Q in Hw, Hh.
  unfold renderCursor. rewrite events_enter_get. fold w h. cbv zeta.
  constructor; [exact I|].
  destruct (cursorStyle r); run; fold w h.
  - repeat constructor; jsnum; lra.
  - clear Hw1 Hw2. set (u := JS.max _ _) in *. unfold JS.ofZ in Hh2.
    repeat constructor; jsnum; lra.
  - clear Hh1 Hh2. set (u := JS.max _ _) in *. unfold JS.ofZ in Hw2.
    repeat constructor; jsnum; lra.
Qed.

Lemma renderCursor_within_cell_witness :
  Forall (rectWithin (3 * 9)%Z (2 * 17)%Z 9%Z 17%Z)
         (events (renderCursor 3 2) (setCursorStyle cs_underline (Sample.renderer 90 85))).
Proof.
  apply (renderCursor_within_cell 3 2 (setCursorStyle cs_underline (Sample.renderer 90 85)));
    simpl; lia.
Defined.

Lemma ratio_bounds (a b : Q) :
  (0 <= a)%Q -> (a <= b)%Q -> (0 < b)%Q -> (0 <= a / b /\ a / b <= 1)%Q.
Proof.
  intros Ha Hab Hb. split.
  - apply Qle_shift_div_l; [exact Hb|]. lra.
  - apply Qle_shift_div_r; [exact Hb|]. lra.
Qed.

(** X15: when the track is at least 20 pixels high, the scrollback is
    not empty, the number of visible rows and the opacity are not negative
    resp. positive, and the viewport offset lies between 0 and the
    scrollback length, the thumb (the last
    rectangle of [renderScrollbar]) is at least 20 pixels high and lies
    within the track; it touches the bottom of the track at offset 0 and
    the top at offset [scrollbackLength]. *)
Theorem scrollbar_thumb_within_track viewportY scrollbackLength visibleRows opacity r :
  0 < scrollbackLength -> 0 <= visibleRows ->
  (0 <= viewportY)%Q -> (viewportY <= inject_Z scrollbackLength)%Q ->
  (0 < opacity)%Q ->
  (20 <= canvas_height r / devicePixelRatio r - 8)%Q ->
  exists pre x thumbY thumbHeight,
    events (renderScrollbar viewportY scrollbackLength visibleRows opacity) r
    = pre ++ [FillRect x thumbY 8 thumbHeight]
    /\ (20 <= thumbHeight)%Q
    /\ (4 <= thumbY)%Q
    /\ (thumbY + thumbHeight <= 4 + (canvas_height r / devicePixelRatio r - 8))%Q
    /\ ((viewportY == 0)%Q ->
        (thumbY + thumbHeight == 4 + (canvas_height r / devicePixelRatio r - 8))%Q)
    /\ ((viewportY == inject_Z scrollbackLength)%Q -> (thumbY == 4)%Q).
Proof.
  intros Hlen Hrows Hv0 Hv1 Hop Htrack.
  assert (E2 : (opacity <=? 0)%js = false).
  { apply not_true_is_false. intros E. apply JSFacts.leb_le in E.
    exact (Qlt_not_le _ _ Hop E). }
  assert (E3 : (scrollbackLength =? 0) = false) by lia.
  unfold renderScrollbar. rewrite events_enter_get. cbv zeta. rewrite E2, E3.
  cbn [orb]. run.
  eexists [_; _; _; _; _; _], _, _, _. split; [reflexivity|].
  set (T := (canvas_height r / devicePixelRatio r - 8)%Q) in *.
  lazymatch goal with
  | |- context [JS.max _ (JS.mul _ ?t)] =>
    assert (HT : (t == T)%Q)
      by (unfold T; rewrite JSFacts.sub_ok, JSFacts.div_ok, JSFacts.mul_ok; reflexivity);
    set (tk := t) in *; clearbody tk
  end.
  assert (Hlen' : (0 < inject_Z scrollbackLength)%Q)
    by (apply (JSArith.ofZ_lt 0); exact Hlen).
  assert (Hrows' : (0 <= inject_Z visibleRows)%Q)
    by (apply (JSArith.ofZ_le 0); exact Hrows).
  destruct (ratio_bounds (inject_Z visibleRows) (inject_Z (scrollbackLength + visibleRows)))
    as [Hr0 Hr1].
  { exact Hrows'. }
  { rewrite inject_Z_plus. lra. }
  { rewrite inject_Z_plus. lra. }
  destruct (ratio_bounds viewportY (inject_Z scrollbackLength) Hv0 Hv1 Hlen') as [Hs0 Hs1].
  set (rho := (inject_Z visibleRows / inject_Z (scrollbackLength + visibleRows))%Q) in *.
  set (s := (viewportY / inject_Z scrollbackLength)%Q) in *.
  set (th := JS.max _ _).
  assert (Hth : (th == Qmax 20 (rho * T))%Q).
  { unfold th. rewrite JSFacts.max_ok, JSFacts.mul_ok, JSFacts.div_ok.
    setoid_rewrite HT. reflexivity. }
  assert (Hth1 : (20 <= th)%Q) by (rewrite Hth; apply Q.le_max_l).
  assert (Hth2 : (th <= T)%Q).
  { rewrite Hth. apply Q.max_lub; [exact Htrack|]. nra. }
  assert (Hty : ((4 + (tk - th) * (1 - viewportY / scrollbackLength))%js
                 == 4 + (T - th) * (1 - s))%Q).
  { rewrite JSFacts.add_ok, JSFacts.mul_ok, !JSFacts.sub_ok, JSFacts.div_ok.
    setoid_rewrite HT. reflexivity. }
  clearbody th.
  split; [exact Hth1|]. split; [|split; [|split]].
  - setoid_rewrite Hty. nra.
  - setoid_rewrite Hty. nra.
  - intros H0. setoid_rewrite Hty.
    assert (Hs : (s == 0)%Q) by (unfold s; rewrite H0; reflexivity).
    rewrite Hs. ring.
  - intros H1. setoid_rewrite Hty.
    assert (Hs : (s == 1)%Q).
    { unfold s. rewrite H1. field. intros Hz. rewrite Hz in Hlen'. lra. }
    rewrite Hs. ring.
Qed.

Lemma scrollbar_thumb_within_track_witness :
  exists pre x thumbY thumbHeight,
    events (renderScrollbar 5 20 3 1) (Sample.renderer 9 51)
    = pre ++ [FillRect x thumbY 8 thumbHeight]
    /\ (20 <= thumbHeight)%Q
    /\ (4 <= thumbY)%Q
    /\ (thumbY + thumbHeight
        <= 4 + (canvas_height (Sample.renderer 9 51)
                / devicePixelRatio (Sample.renderer 9 51) - 8))%Q
    /\ ((5 == 0)%Q ->
        (thumbY + thumbHeight
         == 4 + (canvas_height (Sample.renderer 9 51)
                 / devicePixelRatio (Sample.renderer 9 51) - 8))%Q)
    /\ ((5 == inject_Z 20)%Q -> (thumbY == 4)%Q).
Proof.
  apply (scrollbar_thumb_within_track 5 20 3 1 (Sample.renderer 9 51));
    first [reflexivity | vm_compute; discriminate].
Defined.

(** ** Selection and the two passes of a line *)

(** X16: for a selection whose start row is not below its end row,
    [isInSelection] holds of exactly the cells that lie, in reading order,
    between the start and the end of the selection (both included). *)
Theorem isInSelection_reading_order r sel x y :
  currentSelectionCoords r = Some sel ->
  startRow sel <= endRow sel ->
  (isInSelection r x y = true <->
   (startRow sel < y \/ (y = startRow sel /\ startCol sel <= x))
   /\ (y < endRow sel \/ (y = endRow sel /\ x <= endCol sel))).
Proof.
  intros Hsel Hle. unfold isInSelection. rewrite Hsel.
  destruct (Z.eqb_spec (startRow sel) (endRow sel)) as [E|E].
  - rewrite !andb_true_iff, Z.eqb_eq, !Z.leb_le. lia.
  - destruct (Z.eqb_spec y (startRow sel)); [rewrite Z.leb_le; lia|].
    destruct (Z.eqb_spec y (endRow sel)); [rewrite Z.leb_le; lia|].
    destruct (Z.ltb_spec (startRow sel) y), (Z.ltb_spec y (endRow sel)); simpl;
      split; intros; try discriminate; try reflexivity; lia.
Qed.

Lemma isInSelection_reading_order_witness :
  isInSelection
    (set_currentSelectionCoords (Some (mkSel 4 1 2 3)) (Sample.renderer 90 85)) 7 1 = true
  <-> (1 < 1 \/ (1 = 1 /\ 4 <= 7)) /\ (1 < 3 \/ (1 = 3 /\ 7 <= 2)).
Proof.
  apply (isInSelection_reading_order
           (set_currentSelectionCoords (Some (mkSel 4 1 2 3)) (Sample.renderer 90 85))
           (mkSel 4 1 2 3) 7 1).
  - reflexivity.
  - simpl. lia.
Defined.


Lemma glyphEvent_not_cellEnter e : glyphEvent e = true -> isCellEnter e = false.
Proof. destruct e as [[]| | | | | | | | | | | | | | | | | | | | | |]; simpl; congruence. Qed.

Section LineMarkers.
Context (F : CellFlagsT).

Lemma renderCellBackground_marker cell x y r :
  List.filter isCellEnter (events (renderCellBackground F cell x y) r)
  = [Enter (PRenderCellBackground x y)].
Proof.
  unfold renderCellBackground. rewrite events_enter. simpl. f_equal.
  apply filter_none. lazymatch goal with |- Forall ?P (events ?m ?r0) => cut (sat P m); [let Hs := fresh in intros Hs; exact (Hs r0)|] end. cell_sat_via glyphEvent_not_cellEnter.
Qed.

Lemma renderCellText_marker cell x y r :
  List.filter isCellEnter (events (renderCellText F cell x y) r)
  = [Enter (PRenderCellText x y)].
Proof.
  unfold renderCellText, resetFaint. rewrite events_enter. simpl. f_equal.
  apply filter_none. lazymatch goal with |- Forall ?P (events ?m ?r0) => cut (sat P m); [let Hs := fresh in intros Hs; exact (Hs r0)|] end. cell_sat_via glyphEvent_not_cellEnter.
Qed.

(** X17: [renderLine] paints in two passes: first the background of
    every cell of non-zero width, in column order, then the text of the same
    cells in the same order; cells of width 0 get neither. *)
Theorem renderLine_marker_sequence line y cols r :
  List.filter isCellEnter (events (renderLine F line y cols) r)
  = map (fun xc => Enter (PRenderCellBackground xc.1 y))
        (List.filter (fun xc => negb (width xc.2 =? 0)) (indexed line))
    ++ map (fun xc => Enter (PRenderCellText xc.1 y))
           (List.filter (fun xc => negb (width xc.2 =? 0)) (indexed line)).
Proof.
  unfold renderLine. rewrite events_enter_get. cbv zeta.
  cbn [List.filter isCellEnter].
  rewrite !events_bind, !List.filter_app.
  rewrite <- !concat_map_visible.
  rewrite (filter_forM isCellEnter (indexed line) _
             (fun xc => if negb (width xc.2 =? 0)
                        then [Enter (PRenderCellBackground xc.1 y)] else [])).
  2:{ intros [x cell] r'. simpl. destruct (width cell =? 0); simpl;
      [reflexivity | apply renderCellBackground_marker]. }
  rewrite (filter_forM isCellEnter (indexed line) _
             (fun xc => if negb (width xc.2 =? 0)
                        then [Enter (PRenderCellText xc.1 y)] else [])).
  2:{ intros [x cell] r'. simpl. destruct (width cell =? 0); simpl;
      [reflexivity | apply renderCellText_marker]. }
  reflexivity.
Qed.

End LineMarkers.

(** ** The rows of a frame *)

Section RowsToRender.
Context (buffer : IRenderable) (forceAll : bool) (viewportY : Q)
        (selectionRows hyperlinkRows : gset Z).

Local Abbreviation needsRender y :=
  (if (0 <? viewportY)%js then true
   else forceAll || isRowDirty buffer y
        || bool_decide (y ∈ selectionRows) || bool_decide (y ∈ hyperlinkRows)).
Local Abbreviation lastRow := (rows (getDimensions buffer) - 1).
Local Abbreviation mark :=
  (fun (acc : gset Z) y =>
     if needsRender y then
       let acc := acc ∪ {[ y ]} in
       let acc := if 0 <? y then acc ∪ {[ y - 1 ]} else acc in
       if y <? lastRow then acc ∪ {[ y + 1 ]} else acc
     else acc).

Lemma rowsToRender_fold (l : list Z) (acc : gset Z) y :
  y ∈ foldl mark acc l <->
  y ∈ acc \/ exists y', y' ∈ l /\ needsRender y' = true
                        /\ (y = y' \/ (y = y' - 1 /\ 0 < y') \/ (y = y' + 1 /\ y' < lastRow)).
Proof.
  revert acc. induction l as [|a l IH]; intros acc; simpl.
  - split; [auto | intros [H | (y' & H & _)]; [exact H | inversion H]].
  - rewrite IH. clear IH. split.
    + intros [H | (y' & Hin & Hn & Hy)].
      * destruct (needsRender a) eqn:En; [|left; exact H].
        cbv zeta in H.
        assert (Hc : y ∈ acc \/ y = a \/ (y = a - 1 /\ 0 < a) \/ (y = a + 1 /\ a < lastRow)).
        { destruct (Z.ltb_spec 0 a), (Z.ltb_spec a lastRow); set_solver. }
        destruct Hc as [Hc | Hc]; [left; exact Hc|].
        right. exists a. split; [left|]. split; [exact En | exact Hc].
      * right. exists y'. split; [right; exact Hin | auto].
    + intros [H | (y' & Hin & Hn & Hy)].
      * left. destruct (needsRender a); [|exact H]. cbv zeta.
        destruct (0 <? a), (a <? lastRow); set_solver.
      * apply elem_of_cons in Hin as [-> | Hin].
        -- left. rewrite Hn. cbv zeta.
           destruct Hy as [-> | [[-> Hy] | [-> Hy]]].
           ++ destruct (0 <? a), (a <? lastRow); set_solver.
           ++ apply Z.ltb_lt in Hy. rewrite Hy.
              destruct (a <? lastRow); set_solver.
           ++ apply Z.ltb_lt in Hy. rewrite Hy. set_solver.
        -- right. exists y'. auto.
Qed.


End RowsToRender.

Lemma glyphEvent_not_line e : glyphEvent e = true -> isRenderLineEnter e = false.
Proof. destruct e as [[]| | | | | | | | | | | | | | | | | | | | | |]; simpl; congruence. Qed.

Section ForcedFrame.
Context (F : CellFlagsT) (buffer : IRenderable) (viewportY : Q)
        (scrollbackProvider : option IScrollbackProvider) (scrollbarOpacity : Q).
Local Abbreviation NL := (fun e => isRenderLineEnter e = false).
Local Abbreviation dims := (getDimensions buffer).
Local Abbreviation len :=
  (if scrollbackProvider is Some p then getScrollbackLength p else 0).

Lemma renderLine_marker line y cols r :
  List.filter isRenderLineEnter (events (renderLine F line y cols) r)
  = [Enter (PRenderLine y)].
Proof.
  unfold renderLine. rewrite events_enter. simpl. f_equal.
  apply filter_none. as_sat. unfold renderCellBackground, renderCellText, resetFaint.
  cell_sat_via glyphEvent_not_line.
Qed.

Lemma resize_noLine cols rows : sat NL (resize cols rows).
Proof. unfold resize. sat_auto ltac:(reflexivity). Qed.

Lemma beginFrame_noLine forceAll : sat NL (beginFrame buffer forceAll viewportY).
Proof.
  unfold beginFrame.
  frame_sat ltac:(reflexivity) ltac:(fail) ltac:(apply resize_noLine).
Qed.

Lemma beginFrame_triggered forceAll r :
  forceAll = true \/ needsFullRedraw buffer = Some true
  \/ canvasFits dims r = false \/ (viewportY =? lastViewportY r)%js = false ->
  result (beginFrame buffer forceAll viewportY) r = true.
Proof.
  intros H. unfold beginFrame, result. cbv zeta. unfold mbind, M_bind, get.
  set (fa := if needsFullRedraw buffer is Some true then true else forceAll).
  set (needs := negb _ || negb _).
  assert (Hl : lastViewportY (when needs (resize (cols dims) (rows dims)) r).1.2
               = lastViewportY r).
  { destruct needs; reflexivity. }
  destruct (when needs (resize (cols dims) (rows dims)) r) as [[u r'] l] eqn:Ew.
  cbn [fst snd] in Hl. rewrite Hl.
  destruct (viewportY =? lastViewportY r)%js eqn:Ev; [|reflexivity].
  cbn [negb]. cbn.
  destruct needs eqn:En; [reflexivity|].
  destruct H as [-> | [Hf | [Hc | Hv]]].
  - unfold fa. destruct (needsFullRedraw buffer) as [[]|]; reflexivity.
  - unfold fa. rewrite Hf. reflexivity.
  - unfold needs in En. unfold canvasFits in Hc.
    apply orb_false_elim in En as [E1 E2]. apply negb_false_iff in E1, E2.
    rewrite E1, E2 in Hc. discriminate Hc.
  - discriminate Hv.
Qed.

Lemma redrawCursorLines_forced r : events (redrawCursorLines F buffer true) r = [].
Proof.
  unfold redrawCursorLines. cbv zeta. rewrite events_bind. simpl.
  change (result get r) with r. change (after get r) with r.
  destruct (_ || cursorBlink r); [|reflexivity].
  cbn [when negb andb]. rewrite events_bind.
  destruct (_ && _); reflexivity.
Qed.

Lemma markSelectionRows_noLine : sat NL markSelectionRows.
Proof. unfold markSelectionRows. sat_auto ltac:(reflexivity). Qed.

Lemma markLinkRows_noLine l : sat NL (markLinkRows buffer viewportY scrollbackProvider l).
Proof. unfold markLinkRows. sat_auto ltac:(reflexivity). Qed.

Lemma renderCursor_noLine x y : sat NL (renderCursor x y).
Proof. unfold renderCursor. sat_auto ltac:(reflexivity). Qed.

Lemma renderScrollbar_noLine a b c d : sat NL (renderScrollbar a b c d).
Proof. unfold renderScrollbar. sat_auto ltac:(reflexivity). Qed.

Lemma paintRows_markers toRender r :
  (forall y, 0 <= y < rows dims -> y ∈ toRender) ->
  List.filter isRenderLineEnter
    (events (paintRows F buffer viewportY scrollbackProvider len toRender) r)
  = map (fun y => Enter (PRenderLine y))
        (List.filter
           (fun y => bool_decide (is_Some (fetchLine buffer viewportY scrollbackProvider len y)))
           (seqZ 0 (rows dims))).
Proof.
  intros Hall. unfold paintRows. cbv zeta.
  rewrite <- concat_map_visible. apply filter_forM_In.
  intros y r' Hy. apply elem_of_seqZ in Hy.
  rewrite bool_decide_eq_true_2 by (apply Hall; lia).
  destruct (fetchLine buffer viewportY scrollbackProvider len y) as [line|].
  - rewrite bool_decide_eq_true_2 by (eexists; reflexivity). apply renderLine_marker.
  - rewrite bool_decide_eq_false_2 by (intros [? ?]; discriminate). reflexivity.
Qed.

Lemma rowsToRender_forced sel links y :
  0 <= y < rows dims -> y ∈ rowsToRender buffer true viewportY sel links.
Proof.
  intros Hy. unfold rowsToRender. cbv zeta. apply rowsToRender_fold.
  right. exists y. split; [apply elem_of_seqZ; lia|]. split; [|left; reflexivity].
  destruct (0 <? viewportY)%js; reflexivity.
Qed.

Lemma triggered_frame_markers forceAll r :
  forceAll = true \/ needsFullRedraw buffer = Some true
  \/ canvasFits dims r = false \/ (viewportY =? lastViewportY r)%js = false ->
  List.filter isRenderLineEnter
    (events (render F buffer forceAll viewportY scrollbackProvider scrollbarOpacity) r)
  = map (fun y => Enter (PRenderLine y))
        (List.filter
           (fun y => bool_decide (is_Some (fetchLine buffer viewportY scrollbackProvider len y)))
           (seqZ 0 (rows dims))).
Proof.
  intros Htrig. unfold render. cbv zeta.
  rewrite events_bind, List.filter_app. simpl (events (modify _) _). simpl (List.filter _ []).
  rewrite app_nil_l.
  rewrite events_bind, List.filter_app, (filter_none _ _ (beginFrame_noLine _ _)), app_nil_l.
  rewrite beginFrame_triggered by exact Htrig.
  rewrite events_bind, redrawCursorLines_forced, app_nil_l.
  rewrite events_bind, List.filter_app, (filter_none _ _ (markSelectionRows_noLine _)), app_nil_l.
  rewrite events_bind, List.filter_app, (filter_none _ _ (markLinkRows_noLine _ _)), app_nil_l.
  rewrite events_bind, List.filter_app, paintRows_markers by (apply rowsToRender_forced).
  rewrite <- app_nil_r. f_equal.
  apply filter_none. as_sat.
  frame_sat ltac:(reflexivity) ltac:(fail) ltac:(fail);
    first [apply renderCursor_noLine | apply renderScrollbar_noLine].
Qed.

End ForcedFrame.

(** X19: when [forceAll] is passed, or the buffer asks for a full redraw,
    or the canvas does not have the size of the grid, or the viewport offset
    differs from that of the previous frame, the frame paints every row of
    the viewport that has a line exactly once, from top to bottom. *)
Theorem full_repaint_when_triggered F buffer forceAll viewportY scrollbackProvider
    scrollbarOpacity r :
  forceAll = true \/ needsFullRedraw buffer = Some true
  \/ canvasFits (getDimensions buffer) r = false
  \/ (viewportY =? lastViewportY r)%js = false ->
  List.filter isRenderLineEnter
    (events (render F buffer forceAll viewportY scrollbackProvider scrollbarOpacity) r)
  = map (fun y => Enter (PRenderLine y))
        (List.filter
           (fun y => bool_decide (is_Some
              (fetchLine buffer viewportY scrollbackProvider
                 (if scrollbackProvider is Some p then getScrollbackLength p else 0) y)))
           (seqZ 0 (rows (getDimensions buffer)))).
Proof. apply triggered_frame_markers. Qed.

Lemma full_repaint_when_triggered_witness :
  List.filter isRenderLineEnter
    (events (render Sample.CellFlags SampleFrame.buffer false 0 None 1)
            (Sample.renderer 300 150))
  = map (fun y => Enter (PRenderLine y))
        (List.filter
           (fun y => bool_decide (is_Some (fetchLine SampleFrame.buffer 0 None 0 y)))
           (seqZ 0 (rows (getDimensions SampleFrame.buffer)))).
Proof.
  apply (full_repaint_when_triggered Sample.CellFlags SampleFrame.buffer false 0 None 1
           (Sample.renderer 300 150)).
  right. right. left. reflexivity.
Defined.

Section CleanFrame.
Context (F : CellFlagsT) (buffer : IRenderable) (viewportY : Q)
        (scrollbackProvider : option IScrollbackProvider) (scrollbarOpacity : Q)
        (r0 : Renderer).
Local Abbreviation dims := (getDimensions buffer).
Hypothesis Hfull : needsFullRedraw buffer <> Some true.
Hypothesis Hwidth :
  (canvas_width r0 =? (cols dims * FontMetrics.width (metrics r0))%Z * devicePixelRatio r0)%js = true.
Hypothesis Hheight :
  (canvas_height r0 =? (rows dims * FontMetrics.height (metrics r0))%Z * devicePixelRatio r0)%js = true.
Hypothesis Hviewport : (viewportY =? lastViewportY r0)%js = true.
Hypothesis Hbottom : (0 <? viewportY)%js = false.
Hypothesis Hclean : forall y, isRowDirty buffer y = false.
Hypothesis Hcursor :
  lastCursorPosition r0 = (cur_x (getCursor buffer), cur_y (getCursor buffer)).
Hypothesis Hblink : cursorBlink r0 = false.
Hypothesis Hselection :
  forall m, selectionManager r0 = Some m ->
            hasSelection m = false /\ getDirtySelectionRows m = ∅.
Hypothesis Hlink : hoveredHyperlinkId r0 = previousHoveredHyperlinkId r0.
Hypothesis Hrange : hoveredLinkRange r0 = previousHoveredLinkRange r0.

Local Abbreviation r1 := (set_currentBuffer (Some buffer) r0).
Local Abbreviation r2 := (set_currentSelectionCoords None r1).

Lemma beginFrame_clean : beginFrame buffer false viewportY r1 = (false, r1, []).
Proof.
  unfold beginFrame. cbv zeta.
  assert (E : (if needsFullRedraw buffer is Some true then true else false) = false).
  { destruct (needsFullRedraw buffer) as [[]|]; congruence. }
  rewrite E. exec.
  change (canvas_width r1) with (canvas_width r0).
  change (canvas_height r1) with (canvas_height r0).
  change (metrics r1) with (metrics r0).
  change (devicePixelRatio r1) with (devicePixelRatio r0).
  rewrite Hwidth, Hheight. exec.
  change (lastViewportY r1) with (lastViewportY r0). rewrite Hviewport.
  reflexivity.
Qed.

Lemma redrawCursorLines_clean : redrawCursorLines F buffer false r1 = (tt, r1, []).
Proof.
  unfold redrawCursorLines. cbv zeta. exec.
  change (lastCursorPosition r1) with (lastCursorPosition r0).
  change (cursorBlink r1) with (cursorBlink r0).
  rewrite Hcursor, Hblink. cbn [fst snd]. rewrite !Z.eqb_refl. reflexivity.
Qed.

Lemma markSelectionRows_clean : markSelectionRows r1 = (∅, r2, []).
Proof.
  unfold markSelectionRows. cbv zeta. exec.
  change (selectionManager r1) with (selectionManager r0).
  destruct (selectionManager r0) as [m|] eqn:Em.
  - destruct (Hselection m eq_refl) as [H1 H2]. rewrite H1, H2. reflexivity.
  - reflexivity.
Qed.

Lemma markLinkRows_clean len :
  markLinkRows buffer viewportY scrollbackProvider len r2 = (∅ ∪ ∅, r2, []).
Proof.
  unfold markLinkRows. cbv zeta. exec.
  change (hoveredHyperlinkId r2) with (hoveredHyperlinkId r0).
  change (previousHoveredHyperlinkId r2) with (previousHoveredHyperlinkId r0).
  change (hoveredLinkRange r2) with (hoveredLinkRange r0).
  change (previousHoveredLinkRange r2) with (previousHoveredLinkRange r0).
  rewrite <- Hlink, <- Hrange, Z.eqb_refl, bool_decide_eq_true_2 by reflexivity.
  reflexivity.
Qed.

Lemma paintRows_clean len :
  paintRows F buffer viewportY scrollbackProvider len
    (rowsToRender buffer false viewportY ∅ (∅ ∪ ∅)) r2 = (tt, r2, []).
Proof.
  unfold paintRows. cbv zeta. apply forM_skips. intros y _.
  rewrite bool_decide_eq_false_2; [reflexivity|].
  unfold rowsToRender. cbv zeta. rewrite rowsToRender_fold.
  intros [H | (y' & _ & Hn & _)]; [set_solver|].
  rewrite Hbottom, Hclean in Hn. cbn [orb] in Hn.
  rewrite !bool_decide_eq_false_2 in Hn by set_solver. discriminate Hn.
Qed.

Lemma clean_frame_events :
  events (render F buffer false viewportY scrollbackProvider scrollbarOpacity) r0
  = events
      (when ((viewportY =? 0)%js && cur_visible (getCursor buffer)
             && cursorVisible r0 && negb (cursorSuppressed r0))
         (renderCursor (cur_x (getCursor buffer)) (cur_y (getCursor buffer))) ;;
       when (bool_decide (is_Some scrollbackProvider) && (0 <? scrollbarOpacity)%js)
         (renderScrollbar viewportY
            (if scrollbackProvider is Some p then getScrollbackLength p else 0)
            (rows dims) scrollbarOpacity)) r0
    ++ [BufferClearDirty].
Proof.
  unfold render. cbv zeta.
  rewrite (bind_run _ _ r0 tt r1) by reflexivity.
  rewrite (bind_run _ _ _ _ _ beginFrame_clean).
  rewrite (bind_run _ _ _ _ _ redrawCursorLines_clean).
  rewrite (bind_run _ _ _ _ _ markSelectionRows_clean).
  rewrite (bind_run _ _ _ _ _ (markLinkRows_clean _)).
  rewrite (bind_run _ _ _ _ _ (paintRows_clean _)).
  rewrite (bind_run _ _ r2 r2 r2) by reflexivity.
  change (cursorVisible r2) with (cursorVisible r0).
  change (cursorSuppressed r2) with (cursorSuppressed r0).
  rewrite !events_bind, app_assoc. f_equal.
  generalize ((viewportY =? 0)%js && cur_visible (getCursor buffer)
              && cursorVisible r0 && negb (cursorSuppressed r0)).
  generalize (bool_decide (is_Some scrollbackProvider) && (0 <? scrollbarOpacity)%js).
  intros [] []; unfold renderCursor, renderScrollbar, events, after; unfold_ctx; exec;
    cbn [cursorStyle metrics theme canvas_height canvas_width
         devicePixelRatio set_currentSelectionCoords set_currentBuffer];
    try destruct (cursorStyle r0);
    try destruct ((scrollbarOpacity <=? 0)%js);
    try destruct ((if scrollbackProvider is Some p then getScrollbackLength p else 0) =? 0);
    reflexivity.
Qed.
End CleanFrame.

(** X20: a frame for which nothing has changed (no full redraw, canvas of
    the right size, viewport at the bottom as before, no dirty row, cursor
    where it was and not blinking, no selection, hover unchanged) does no
    more than draw the cursor and the scrollbar and clear the dirty state:
    no row is repainted. *)
Theorem clean_frame_repaints_nothing F buffer viewportY scrollbackProvider scrollbarOpacity r0 :
  needsFullRedraw buffer <> Some true ->
  (canvas_width r0 =? (cols (getDimensions buffer) * FontMetrics.width (metrics r0))%Z
                      * devicePixelRatio r0)%js = true ->
  (canvas_height r0 =? (rows (getDimensions buffer) * FontMetrics.height (metrics r0))%Z
                       * devicePixelRatio r0)%js = true ->
  (viewportY =? lastViewportY r0)%js = true ->
  (0 <? viewportY)%js = false ->
  (forall y, isRowDirty buffer y = false) ->
  lastCursorPosition r0 = (cur_x (getCursor buffer), cur_y (getCursor buffer)) ->
  cursorBlink r0 = false ->
  (forall m, selectionManager r0 = Some m ->
             hasSelection m = false /\ getDirtySelectionRows m = ∅) ->
  hoveredHyperlinkId r0 = previousHoveredHyperlinkId r0 ->
  hoveredLinkRange r0 = previousHoveredLinkRange r0 ->
  events (render F buffer false viewportY scrollbackProvider scrollbarOpacity) r0
  = events
      (when ((viewportY =? 0)%js && cur_visible (getCursor buffer)
             && cursorVisible r0 && negb (cursorSuppressed r0))
         (renderCursor (cur_x (getCursor buffer)) (cur_y (getCursor buffer))) ;;
       when (bool_decide (is_Some scrollbackProvider) && (0 <? scrollbarOpacity)%js)
         (renderScrollbar viewportY
            (if scrollbackProvider is Some p then getScrollbackLength p else 0)
            (rows (getDimensions buffer)) scrollbarOpacity)) r0
    ++ [BufferClearDirty].
Proof. apply clean_frame_events. Qed.

Lemma clean_frame_repaints_nothing_witness :
  events (render Sample.CellFlags SampleFrame.buffer false 0 None 1) (Sample.renderer 9 51)
  = events
      (when ((0 =? 0)%js && cur_visible (getCursor SampleFrame.buffer)
             && cursorVisible (Sample.renderer 9 51)
             && negb (cursorSuppressed (Sample.renderer 9 51)))
         (renderCursor (cur_x (getCursor SampleFrame.buffer))
                       (cur_y (getCursor SampleFrame.buffer))) ;;
       when (bool_decide (is_Some (@None IScrollbackProvider)) && (0 <? 1)%js)
         (renderScrollbar 0 0 (rows (getDimensions SampleFrame.buffer)) 1))
      (Sample.renderer 9 51)
    ++ [BufferClearDirty].
Proof.
  apply (clean_frame_repaints_nothing Sample.CellFlags SampleFrame.buffer 0 None 1
           (Sample.renderer 9 51)).
  - discriminate.
  - reflexivity.
  - reflexivity.
  - reflexivity.
  - reflexivity.
  - intros y. reflexivity.
  - reflexivity.
  - reflexivity.
  - intros m Hm. discriminate Hm.
  - reflexivity.
  - reflexivity.
Defined.

(** ** The state kept across frames *)

Lemma eqb_same (a : Q) : (a =? a)%js = true.
Proof. apply Qeq_bool_iff. reflexivity. Qed.

Section FrameState.
Context (F : CellFlagsT) (buffer : IRenderable) (forceAll : bool) (viewportY : Q)
        (scrollbackProvider : option IScrollbackProvider) (scrollbarOpacity : Q).
Local Abbreviation frame :=
  (render F buffer forceAll viewportY scrollbackProvider scrollbarOpacity).
Local Abbreviation dims := (getDimensions buffer).

(** [render] and its phases leave alone every observation that the
    setters of the context and the frame's own fields do not reach. *)
Ltac render_keeps :=
  unfold render, beginFrame, resize, redrawCursorLines, markSelectionRows,
    markLinkRows, paintRows, renderCursor, renderScrollbar;
  frame_keeps.

Lemma render_settings : keeps settings frame.
Proof. render_keeps. Qed.

Lemma markSelectionRows_hasSelection :
  keeps (fun r => hasSelection <$> selectionManager r) markSelectionRows.
Proof.
  intros r. unfold markSelectionRows. cbv zeta. rewrite after_bind.
  change (result get r) with r. change (after get r) with r. cbv beta.
  rewrite after_bind.
  destruct (selectionManager r) as [m|] eqn:E.
  - destruct (0 <? size (getDirtySelectionRows m))%nat; cbn; rewrite ?E; reflexivity.
  - cbn. rewrite E. reflexivity.
Qed.

Lemma render_hasSelection :
  keeps (fun r => hasSelection <$> selectionManager r) frame.
Proof.
  unfold render, beginFrame, resize, redrawCursorLines,
    markLinkRows, paintRows, renderCursor, renderScrollbar.
  unfold_ctx.
  repeat (cbv zeta; first
    [ lazymatch goal with
      | |- keeps _ markSelectionRows => apply markSelectionRows_hasSelection
      | |- keeps _ (renderLine _ _ _ _) => apply renderLine_keeps; paint_free
      end
    | keeps_step ltac:(intros; reflexivity) ]).
Qed.

Lemma beginFrame_fits fa :
  post (fun _ => True) (beginFrame buffer fa viewportY)
       (fun r => canvasFits dims r = true /\ (viewportY =? lastViewportY r)%js = true).
Proof.
  intros r _. unfold beginFrame. cbv zeta. rewrite after_bind.
  change (result get r) with r. change (after get r) with r. cbv beta.
  rewrite after_bind.
  set (needs := negb _ || negb _).
  assert (Hfit : canvasFits dims (after (when needs (resize (cols dims) (rows dims))) r) = true).
  { destruct needs eqn:E.
    - unfold canvasFits. cbn. rewrite !eqb_same. reflexivity.
    - unfold needs in E. apply orb_false_elim in E as [E1 E2].
      apply negb_false_iff in E1, E2. unfold canvasFits. cbn. rewrite E1, E2. reflexivity. }
  revert Hfit. generalize (after (when needs (resize (cols dims) (rows dims))) r).
  intros r' Hfit. rewrite after_bind.
  change (result get r') with r'. change (after get r') with r'. cbv beta.
  destruct (viewportY =? lastViewportY r')%js eqn:Ev; cbn [negb].
  - split; assumption.
  - rewrite after_bind. cbn. split; [exact Hfit | apply eqb_same].
Qed.

Lemma markLinkRows_synced l :
  post (fun _ => True) (markLinkRows buffer viewportY scrollbackProvider l)
       (fun r => previousHoveredHyperlinkId r = hoveredHyperlinkId r
                 /\ previousHoveredLinkRange r = hoveredLinkRange r).
Proof.
  intros r _. unfold markLinkRows. cbv zeta. rewrite after_bind.
  change (result get r) with r. change (after get r) with r. cbv beta.
  rewrite !after_bind.
  destruct (Z.eqb_spec (hoveredHyperlinkId r) (previousHoveredHyperlinkId r)) as [E1|E1];
    destruct (decide (hoveredLinkRange r = previousHoveredLinkRange r)) as [E2|E2];
    rewrite ?(bool_decide_eq_true_2 _ E2), ?(bool_decide_eq_false_2 _ E2);
    cbn; auto.
Qed.

Local Abbreviation sized :=
  (fun r => (canvasFits dims r, (viewportY =? lastViewportY r)%js)).
Local Abbreviation hover :=
  (fun r => (previousHoveredHyperlinkId r, hoveredHyperlinkId r,
             previousHoveredLinkRange r, hoveredLinkRange r)).
Local Abbreviation sizedOk := (fun b : bool * bool => b.1 = true /\ b.2 = true).
Local Abbreviation hoverOk :=
  (fun h : Z * Z * option LinkRange * option LinkRange =>
     h.1.1.1 = h.1.1.2 /\ h.1.2 = h.2).

Lemma post_conj {A} P (m : M A) Q1 Q2 :
  post P m Q1 -> post P m Q2 -> post P m (fun r => Q1 r /\ Q2 r).
Proof. intros H1 H2 r Hr. split; [apply H1 | apply H2]; exact Hr. Qed.

Lemma post_weaken {A} (P P' Q Q' : Renderer -> Prop) (m : M A) :
  (forall r, P' r -> P r) -> (forall r, Q r -> Q' r) -> post P m Q -> post P' m Q'.
Proof. intros HP HQ H r Hr. apply HQ, H, HP, Hr. Qed.

Ltac phase_keeps :=
  unfold redrawCursorLines, markSelectionRows, markLinkRows, paintRows,
    renderCursor, renderScrollbar;
  frame_keeps.

Lemma render_synced : post (fun _ => True) frame (frameSynced buffer viewportY).
Proof.
  unfold render. cbv zeta.
  apply post_bind with (Q := fun _ => True); [intros ? ?; exact I | intros _].
  apply post_bind with (Q := fun r => sizedOk (sized r));
    [apply beginFrame_fits | intros fa].
  apply post_bind with (Q := fun r => sizedOk (sized r));
    [apply (post_keeps sized sizedOk); phase_keeps | intros _].
  apply post_bind with (Q := fun r => sizedOk (sized r));
    [apply (post_keeps sized sizedOk); phase_keeps | intros rows1].
  apply post_bind with (Q := fun r => sizedOk (sized r) /\ hoverOk (hover r)).
  { apply post_conj; [apply (post_keeps sized sizedOk); phase_keeps|].
    eapply post_weaken; [| |apply markLinkRows_synced]; [intros; exact I | auto]. }
  intros rows2.
  apply post_bind with (Q := fun r => sizedOk (sized r) /\ hoverOk (hover r)).
  { apply (post_keeps (fun r => (sized r, hover r))
                      (fun o => sizedOk o.1 /\ hoverOk o.2)); phase_keeps. }
  intros _. intros r [[H1 H2] [H3 H4]].
  assert (Hk : keeps (fun r => (sized r, hover r))
    (r0 ← get;
     when ((viewportY =? 0)%js && cur_visible (getCursor buffer)
           && cursorVisible r0 && negb (cursorSuppressed r0))
       (renderCursor (cur_x (getCursor buffer)) (cur_y (getCursor buffer))) ;;
     when (bool_decide (is_Some scrollbackProvider) && (0 <? scrollbarOpacity)%js)
       (renderScrollbar viewportY
          (if scrollbackProvider is Some p then getScrollbackLength p else 0)
          (rows dims) scrollbarOpacity) ;;
     modify (set_lastCursorPosition (cur_x (getCursor buffer), cur_y (getCursor buffer))) ;;
     modify (set_currentBuffer (Some (clearDirty buffer))) ;;
     emit BufferClearDirty)) by phase_keeps.
  specialize (Hk r). cbv beta in Hk.
  injection Hk as K1 K2 K3 K4 K5 K6.
  unfold frameSynced. cbn [fst snd] in *.
  rewrite K1, K2, K3, K4, K5, K6. repeat split; try assumption.
  rewrite !after_bind. reflexivity.
Qed.

End FrameState.

(** X21: a frame writes none of the options and inputs that the public
    setters write: font size and family, cursor style and blink, theme,
    device pixel ratio, metrics, the cursor's visibility and suppression,
    and the hovered link. *)
Theorem render_leaves_settings_alone F buffer forceAll viewportY scrollbackProvider
    scrollbarOpacity r :
  settings (after (render F buffer forceAll viewportY scrollbackProvider scrollbarOpacity) r)
  = settings r.
Proof. apply render_settings. Qed.




(** ** The public API *)

Lemma resize_settings cols rows : keeps settings (resize cols rows).
Proof. unfold resize. frame_keeps. Qed.

Lemma clear_settings : keeps settings clear.
Proof. unfold clear. frame_keeps. Qed.

Section ApiInvariants.
Context (measureText : Font -> TextMetrics).

Lemma startCursorBlink_invariant b :
  cursorBlinkInterval b = None -> intervals b = ∅ ->
  cursorBlink (renderer b) = true -> blinkInvariant (startCursorBlink b).
Proof.
  intros _ Hi Hb. unfold blinkInvariant, startCursorBlink. cbn.
  rewrite Hi. split; [set_solver | exact Hb].
Qed.

Lemma stopCursorBlink_invariant b :
  (forall h, cursorBlinkInterval b = Some h -> intervals b = {[ h ]}) ->
  (cursorBlinkInterval b = None -> intervals b = ∅) ->
  blinkInvariant (stopCursorBlink b).
Proof.
  intros Hs Hn. unfold blinkInvariant, stopCursorBlink.
  destruct (cursorBlinkInterval b) as [h|] eqn:E; cbn.
  - rewrite (Hs h eq_refl). split; [set_solver | reflexivity].
  - rewrite E. split; [exact (Hn eq_refl) | reflexivity].
Qed.

Lemma onRenderer_invariant f b :
  (forall r, cursorBlink (f r) = cursorBlink r) ->
  (forall r, cursorVisible (f r) = cursorVisible r) ->
  blinkInvariant b -> blinkInvariant (onRenderer f b).
Proof.
  intros Hb Hv Hinv. unfold blinkInvariant, onRenderer in *. cbn.
  destruct (cursorBlinkInterval b); rewrite ?Hb, ?Hv; exact Hinv.
Qed.

(** What a method that keeps the settings does to the two flags of the
    blink state. *)
Lemma settings_flags {A} (m : M A) r :
  keeps settings m ->
  cursorBlink (after m r) = cursorBlink r /\ cursorVisible (after m r) = cursorVisible r.
Proof.
  intros Hk. specialize (Hk r). unfold settings in Hk.
  injection Hk as _ _ _ Eblink _ _ _ Evis _ _ _. split; assumption.
Qed.

Lemma setCursorBlink_invariant enabled b :
  blinkInvariant b -> blinkInvariant (setCursorBlink enabled b).
Proof.
  intros Hinv. unfold setCursorBlink.
  destruct enabled, (cursorBlink (renderer b)) eqn:Eb; cbn [andb negb]; try exact Hinv.
  - apply startCursorBlink_invariant; cbn; try reflexivity;
      unfold blinkInvariant in Hinv;
      destruct (cursorBlinkInterval b); destruct Hinv; congruence.
  - apply stopCursorBlink_invariant; cbn; unfold blinkInvariant in Hinv;
      destruct (cursorBlinkInterval b); destruct Hinv; congruence.
Qed.

Lemma dispose_invariant b : blinkInvariant b -> blinkInvariant (dispose b).
Proof.
  intros Hinv. apply stopCursorBlink_invariant; unfold blinkInvariant in Hinv;
    destruct (cursorBlinkInterval b); destruct Hinv; congruence.
Qed.

Lemma intervalFires_invariant h b :
  blinkInvariant b -> blinkInvariant (intervalFires h b).
Proof.
  intros Hinv. unfold intervalFires.
  destruct (bool_decide (h ∈ intervals b)) eqn:Eh; [|exact Hinv].
  apply bool_decide_eq_true in Eh. unfold blinkInvariant in *. cbn.
  destruct (cursorBlinkInterval b); destruct Hinv as [Hi Hv]; [split; assumption|].
  rewrite Hi in Eh. set_solver.
Qed.

Lemma apiStep_blinkInvariant b c :
  blinkInvariant b -> blinkInvariant (apiStep measureText b c).
Proof.
  intros Hinv.
  destruct c as [F buffer fa vy sbp op|cols rows| | |size|family|theme|style|enabled
                 |suppress|manager|id|range| |h]; cbn [apiStep];
    lazymatch goal with
    | |- blinkInvariant (onRenderer (after ?m) _) =>
      apply onRenderer_invariant; [| |exact Hinv]; intros r;
        apply (settings_flags m r);
        first [apply render_settings | apply resize_settings | apply clear_settings]
    | |- blinkInvariant (onRenderer _ _) =>
      apply onRenderer_invariant; [intros r; reflexivity | intros r; reflexivity
                                   | exact Hinv]
    | |- blinkInvariant (setCursorBlink _ _) => apply setCursorBlink_invariant, Hinv
    | |- blinkInvariant (dispose _) => apply dispose_invariant, Hinv
    | |- blinkInvariant (intervalFires _ _) => apply intervalFires_invariant, Hinv
    end.
Qed.

Lemma settings_metrics {A} (m : M A) r :
  keeps settings m ->
  metricsMeasured measureText r -> metricsMeasured measureText (after m r).
Proof.
  intros Hk Hm. specialize (Hk r). unfold settings in Hk.
  injection Hk as Es Ef _ _ _ _ Em _ _ _ _.
  unfold metricsMeasured, measureFont in *. rewrite Es, Ef, Em. exact Hm.
Qed.

Lemma apiStep_metricsMeasured b c :
  metricsMeasured measureText (renderer b) ->
  metricsMeasured measureText (renderer (apiStep measureText b c)).
Proof.
  intros Hm.
  destruct c as [F buffer fa vy sbp op|cols rows| | |size|family|theme|style|enabled
                 |suppress|manager|id|range| |h]; cbn [apiStep];
    lazymatch goal with
    | |- metricsMeasured _ (renderer (onRenderer (after ?m) _)) =>
      apply (settings_metrics m); [|exact Hm];
        first [apply render_settings | apply resize_settings | apply clear_settings]
    | |- metricsMeasured _ (renderer (onRenderer _ _)) =>
      first [exact Hm | reflexivity]
    | |- metricsMeasured _ (renderer (setCursorBlink _ _)) =>
      unfold setCursorBlink;
      destruct (enabled && negb (cursorBlink (renderer b))); [exact Hm|];
      destruct (negb enabled && cursorBlink (renderer b)); [|exact Hm];
      unfold stopCursorBlink; cbn; destruct (cursorBlinkInterval b); exact Hm
    | |- metricsMeasured _ (renderer (dispose _)) =>
      unfold dispose, stopCursorBlink; destruct (cursorBlinkInterval b); exact Hm
    | |- metricsMeasured _ (renderer (intervalFires _ _)) =>
      unfold intervalFires; destruct (bool_decide (h ∈ intervals b)); exact Hm
    end.
Qed.

Lemma constructor_blinkInvariant dpr canvas options b :
  constructor measureText dpr canvas options = inr b -> blinkInvariant b.
Proof.
  unfold constructor. destruct (negb (has2dContext canvas)); [discriminate|].
  cbv zeta. intros H. injection H as <-.
  destruct (default false (opt_cursorBlink options)) eqn:E.
  - apply startCursorBlink_invariant; reflexivity.
  - split; reflexivity.
Qed.

Lemma constructor_metricsMeasured dpr canvas options b :
  constructor measureText dpr canvas options = inr b ->
  metricsMeasured measureText (renderer b).
Proof.
  unfold constructor. destruct (negb (has2dContext canvas)); [discriminate|].
  cbv zeta. intros H. injection H as <-.
  destruct (default false (opt_cursorBlink options)); reflexivity.
Qed.

Lemma apiRun_invariant (I : Hosted -> Prop) calls b :
  (forall b c, I b -> I (apiStep measureText b c)) ->
  I b -> I (apiRun measureText calls b).
Proof.
  intros Hstep. unfold apiRun. revert b.
  induction calls as [|c calls IH]; intros b H; simpl; [exact H|].
  apply IH, Hstep, H.
Qed.

(** X24: whatever is called on a constructed renderer, and whichever
    intervals fire, at most one interval of the renderer is running; when
    none is running the cursor is in its visible phase; and [dispose] leaves
    no interval running. *)
Theorem blink_timer_never_leaks dpr canvas options b0 calls :
  constructor measureText dpr canvas options = inr b0 ->
  let b := apiRun measureText calls b0 in
  (size (intervals b) <= 1)%nat
  /\ (intervals b = ∅ -> cursorVisible (renderer b) = true)
  /\ intervals (dispose b) = ∅.
Proof.
  intros Hc b.
  pose proof (apiRun_invariant blinkInvariant calls b0 apiStep_blinkInvariant
                (constructor_blinkInvariant _ _ _ _ Hc)) as Hinv.
  fold b in Hinv. split; [|split].
  - unfold blinkInvariant in Hinv. destruct (cursorBlinkInterval b); destruct Hinv as [-> _].
    + rewrite size_singleton. lia.
    + rewrite size_empty. lia.
  - intros He. unfold blinkInvariant in Hinv.
    destruct (cursorBlinkInterval b); destruct Hinv as [Hi Hv]; [|exact Hv].
    rewrite Hi in He. set_solver.
  - unfold blinkInvariant in Hinv. unfold dispose, stopCursorBlink.
    destruct (cursorBlinkInterval b) eqn:E; cbn; destruct Hinv as [Hi _].
    + rewrite Hi. set_solver.
    + exact Hi.
Qed.

(** X25: whatever is called on a constructed renderer, its metrics are
    those that the host measures for the configured font size and family. *)
Theorem metrics_follow_the_font dpr canvas options b0 calls :
  constructor measureText dpr canvas options = inr b0 ->
  metricsMeasured measureText (renderer (apiRun measureText calls b0)).
Proof.
  intros Hc.
  apply (apiRun_invariant (fun b => metricsMeasured measureText (renderer b)));
    [apply apiStep_metricsMeasured | exact (constructor_metricsMeasured _ _ _ _ Hc)].
Qed.

End ApiInvariants.

Lemma blink_timer_never_leaks_witness :
  let b := apiRun SampleHost.measureText
             [IntervalFires 1%positive; CallSetCursorBlink false;
              CallSetFontSize 20; CallSetCursorBlink true; IntervalFires 1%positive]
             (startCursorBlink
                (mkHosted
                   (mkRenderer 300 150 (CssStr "#000000") (CssStr "#000000") 1 1
                      15 "monospace" cs_block true Sample.theme 2
                      (FontMetrics.mk 9 18 14)
                      true (0, 0) 0 None None None 0 0 None None false)
                   None ∅)) in
  (size (intervals b) <= 1)%nat
  /\ (intervals b = ∅ -> cursorVisible (renderer b) = true)
  /\ intervals (dispose b) = ∅.
Proof.
  apply (blink_timer_never_leaks SampleHost.measureText None SampleHost.canvas
           SampleHost.blinkingOptions).
  vm_compute. reflexivity.
Defined.

Lemma metrics_follow_the_font_witness :
  metricsMeasured SampleHost.measureText
    (renderer
       (apiRun SampleHost.measureText
          [CallSetFontSize 20; CallSetTheme ∅; CallSetFontFamily "serif";
           CallRender Sample.CellFlags SampleFrame.buffer false 0 None 1]
          (startCursorBlink
             (mkHosted
                (mkRenderer 300 150 (CssStr "#000000") (CssStr "#000000") 1 1
                   15 "monospace" cs_block true Sample.theme 2
                   (FontMetrics.mk 9 18 14)
                   true (0, 0) 0 None None None 0 0 None None false)
                None ∅)))).
Proof.
  apply (metrics_follow_the_font SampleHost.measureText None SampleHost.canvas
           SampleHost.blinkingOptions).
  vm_compute. reflexivity.
Defined.

Section FontChange.
Context (measureText : Font -> TextMetrics).

Lemma ceil_mono a b : (a <= b)%Q -> JS.ceil a <= JS.ceil b.
Proof. apply Qceiling_resp_le. Qed.

Lemma measureFont_baseline r :
  let tm := measureText (mkFont false false (fontSize r) (fontFamily r)) in
  (0 <= nullish (fontBoundingBoxAscent tm) (actualBoundingBoxAscent tm)
                (fontSize r * (8 # 10))%js)%Q ->
  (0 <= nullish (fontBoundingBoxDescent tm) (actualBoundingBoxDescent tm)
                (fontSize r * (2 # 10))%js)%Q ->
  0 <= FontMetrics.baseline (measureFont measureText r)
       <= FontMetrics.height (measureFont measureText r).
Proof.
  intros tm Ha Hd. unfold measureFont. fold tm. cbn.
  set (a := nullish (fontBoundingBoxAscent tm) _ _) in *.
  set (d := nullish (fontBoundingBoxDescent tm) _ _) in *.
  split.
  - change 0 with (JS.ceil 0). apply ceil_mono. exact Ha.
  - apply ceil_mono. rewrite JSFacts.add_ok. lra.
Qed.

Lemma glyphEvent_baseline x0 y0 h e : glyphEvent e = true -> baselineWithin x0 y0 h e.
Proof. destruct e; simpl; intros; try exact I; discriminate. Qed.

Lemma renderCellText_baseline F cell x y r :
  0 <= FontMetrics.baseline (metrics r) <= FontMetrics.height (metrics r) ->
  Forall (baselineWithin (x * FontMetrics.width (metrics r))%Z
                         (y * FontMetrics.height (metrics r))%Z
                         (FontMetrics.height (metrics r)))
         (events (renderCellText F cell x y) r).
Proof.
  intros [Hb1 Hb2].
  apply JSArith.ofZ_le in Hb1, Hb2. unfold JS.ofZ in Hb1, Hb2.
  change (inject_Z 0) with 0%Q in Hb1.
  unfold renderCellText, resetFaint. rewrite events_enter_get.
  constructor; [exact I|]. cbv zeta.
  lazymatch goal with
  | |- Forall ?P (events ?m ?r0) =>
    cut (sat P m); [let Hs := fresh in intros Hs; exact (Hs r0)|]
  end.
  unfold_ctx.
  repeat (cbv zeta; first
    [ lazymatch goal with
      | |- sat _ (emit (FillText _ _ _)) =>
        apply sat_emit; unfold baselineWithin;
        split; [reflexivity | split; jsnum; lra]
      end
    | sat_step ltac:(exact I)
    | glyph_sat_via (glyphEvent_baseline (x * FontMetrics.width (metrics r))%Z
                       (y * FontMetrics.height (metrics r))%Z
                       (FontMetrics.height (metrics r))) ]).
Qed.

(** X26: after [setFontSize], on a host that reports a non-negative
    ascent and descent for the font, every text that [renderCellText] hands
    to the host starts at the left edge of its cell with its baseline within
    the cell. *)
Theorem text_baseline_stays_in_cell_after_setFontSize F cell x y size r :
  let r' := setFontSize measureText size r in
  let tm := measureText (mkFont false false size (fontFamily r)) in
  (0 <= nullish (fontBoundingBoxAscent tm) (actualBoundingBoxAscent tm)
                (size * (8 # 10))%js)%Q ->
  (0 <= nullish (fontBoundingBoxDescent tm) (actualBoundingBoxDescent tm)
                (size * (2 # 10))%js)%Q ->
  Forall (baselineWithin (x * FontMetrics.width (metrics r'))%Z
                         (y * FontMetrics.height (metrics r'))%Z
                         (FontMetrics.height (metrics r')))
         (events (renderCellText F cell x y) r').
Proof.
  intros r' tm Ha Hd. apply renderCellText_baseline.
  apply (measureFont_baseline (set_fontSize size r)); assumption.
Qed.


End FontChange.

Lemma text_baseline_stays_in_cell_after_setFontSize_witness :
  let r' := setFontSize SampleHost.measureText 20 (Sample.renderer 9 51) in
  Forall (baselineWithin (3 * FontMetrics.width (metrics r'))%Z
                         (1 * FontMetrics.height (metrics r'))%Z
                         (FontMetrics.height (metrics r')))
         (events (renderCellText Sample.CellFlags (Sample.cell 65 0) 3 1) r').
Proof.
  apply (text_baseline_stays_in_cell_after_setFontSize SampleHost.measureText
           Sample.CellFlags (Sample.cell 65 0) 3 1 20 (Sample.renderer 9 51)).
  - vm_compute. discriminate.
  - vm_compute. discriminate.
Defined.

Section HoverRepaint.
Context (F : CellFlagsT) (buffer : IRenderable) (forceAll : bool) (viewportY : Q)
        (scrollbackProvider : option IScrollbackProvider) (scrollbarOpacity : Q).
Local Abbreviation dims := (getDimensions buffer).
Local Abbreviation len :=
  (if scrollbackProvider is Some p then getScrollbackLength p else 0).

Lemma paintRows_emits toRender y line r :
  y ∈ toRender -> 0 <= y < rows dims ->
  fetchLine buffer viewportY scrollbackProvider len y = Some line ->
  In (Enter (PRenderLine y))
     (events (paintRows F buffer viewportY scrollbackProvider len toRender) r).
Proof.
  intros Hy Hr Hl. unfold paintRows. cbv zeta. revert r.
  apply in_forM with (a := y); [apply elem_of_seqZ; lia|].
  intros r. rewrite bool_decide_eq_true_2 by exact Hy. rewrite Hl.
  unfold renderLine. rewrite events_enter. left. reflexivity.
Qed.

Lemma markLinkRows_result y line r :
  hoveredHyperlinkId r <> previousHoveredHyperlinkId r ->
  0 <= y < rows dims ->
  fetchLine buffer viewportY scrollbackProvider len y = Some line ->
  (exists cell, In cell line
     /\ (hyperlink_id cell = hoveredHyperlinkId r
         \/ hyperlink_id cell = previousHoveredHyperlinkId r)) ->
  y ∈ result (markLinkRows buffer viewportY scrollbackProvider len) r.
Proof.
  intros Hne Hy Hl (cell & Hin & Hc).
  unfold markLinkRows, result. cbv zeta. unfold mbind, M_bind, get.
  rewrite (proj2 (Z.eqb_neq _ _) Hne). cbn [negb when].
  destruct (modify _ r) as [[u r1] l1].
  destruct (when _ _ r1) as [[u2 r2] l2]. cbn.
  apply elem_of_union_l, elem_of_list_to_set, list_elem_of_filter.
  split; [|apply elem_of_seqZ; lia].
  rewrite Hl. apply existsb_exists. exists cell. split; [exact Hin|].
  apply orb_true_iff. rewrite !Z.eqb_eq. exact Hc.
Qed.

Lemma rowsToRender_marked fa sel links y :
  0 <= y < rows dims -> y ∈ links ->
  y ∈ rowsToRender buffer fa viewportY sel links.
Proof.
  intros Hy Hl. unfold rowsToRender. cbv zeta. apply rowsToRender_fold.
  right. exists y. split; [apply elem_of_seqZ; lia|]. split; [|left; reflexivity].
  rewrite (bool_decide_eq_true_2 _ Hl), !orb_true_r.
  destruct (0 <? viewportY)%js; reflexivity.
Qed.

(** Step over a phase that keeps the hovered identifiers. *)
Ltac over_phase :=
  apply in_bind_r;
  lazymatch goal with
  | H : hoverIds ?r0 = _ |- context [after ?m ?r0] =>
    let Hk := fresh "Hk" in
    assert (Hk : keeps hoverIds m)
      by (unfold beginFrame, resize, redrawCursorLines, markSelectionRows; frame_keeps);
    pose proof (eq_trans (Hk r0) H) as Hk'; clear Hk H;
    generalize dependent (after m r0); generalize (result m r0);
    clear r0; intros ? r0 H; cbv beta
  end.

Lemma render_repaints_link_rows r y line :
  hoveredHyperlinkId r <> previousHoveredHyperlinkId r ->
  0 <= y < rows dims ->
  fetchLine buffer viewportY scrollbackProvider len y = Some line ->
  (exists cell, In cell line
     /\ (hyperlink_id cell = hoveredHyperlinkId r
         \/ hyperlink_id cell = previousHoveredHyperlinkId r)) ->
  In (Enter (PRenderLine y))
     (events (render F buffer forceAll viewportY scrollbackProvider scrollbarOpacity) r).
Proof.
  intros Hne Hy Hl Hcell. unfold render. cbv zeta.
  set (h0 := hoverIds r) in *.
  assert (H : hoverIds r = h0) by reflexivity.
  change (hoveredHyperlinkId r) with h0.1 in Hne, Hcell.
  change (previousHoveredHyperlinkId r) with h0.2 in Hne, Hcell.
  clearbody h0. revert H. generalize r. clear r. intros r H.
  over_phase. over_phase. over_phase. over_phase.
  apply in_bind_r, in_bind_l.
  apply (paintRows_emits _ y line); [|exact Hy | exact Hl].
  apply rowsToRender_marked; [exact Hy|].
  assert (E1 : hoveredHyperlinkId r = h0.1) by (rewrite <- H; reflexivity).
  assert (E2 : previousHoveredHyperlinkId r = h0.2) by (rewrite <- H; reflexivity).
  apply (markLinkRows_result y line); rewrite ?E1, ?E2; assumption.
Qed.

End HoverRepaint.

(** X28: after [setHoveredHyperlinkId] with an identifier other than that
    of the previous frame, the next frame repaints every row of the viewport
    that has a cell of the newly or of the previously hovered link. *)
Theorem hovering_a_link_repaints_its_rows F buffer forceAll viewportY scrollbackProvider
    scrollbarOpacity r hyperlinkId y line :
  hyperlinkId <> previousHoveredHyperlinkId r ->
  0 <= y < rows (getDimensions buffer) ->
  fetchLine buffer viewportY scrollbackProvider
    (if scrollbackProvider is Some p then getScrollbackLength p else 0) y = Some line ->
  (exists cell, In cell line
     /\ (hyperlink_id cell = hyperlinkId
         \/ hyperlink_id cell = previousHoveredHyperlinkId r)) ->
  In (Enter (PRenderLine y))
     (events (render F buffer forceAll viewportY scrollbackProvider scrollbarOpacity)
             (setHoveredHyperlinkId hyperlinkId r)).
Proof.
  intros Hne Hy Hl Hcell.
  apply (render_repaints_link_rows F buffer forceAll viewportY scrollbackProvider
           scrollbarOpacity (setHoveredHyperlinkId hyperlinkId r) y line);
    assumption.
Qed.

Lemma hovering_a_link_repaints_its_rows_witness :
  In (Enter (PRenderLine 1))
     (events (render Sample.CellFlags SampleHost.linkBuffer false 0 None 1)
             (setHoveredHyperlinkId 7 (Sample.renderer 9 51))).
Proof.
  apply (hovering_a_link_repaints_its_rows Sample.CellFlags SampleHost.linkBuffer false 0
           None 1 (Sample.renderer 9 51) 7 1 [SampleHost.linkCell]).
  - discriminate.
  - simpl. lia.
  - reflexivity.
  - exists SampleHost.linkCell. split; [left; reflexivity | left; reflexivity].
Defined.
